(** * BecaBot UTPL: browser-side chat widget and partial-content router

    A shallow embedding of [static/js/chatbot.js] and [static/js/spa.js].

    - [JsString]: ECMAScript strings as sequences of UTF-16 code units,
      with the handful of [String.prototype] methods the scripts call.
    - [Chatbot]: the markdown-subset renderer, the transcript-append
      operation and the inactivity/session state machine of chatbot.js.
    - [Spa]: the partial loader, the navigation binder and the active-link
      marker of spa.js, as an event-driven transition system.

    Browser callbacks (DOM events, timer firings, fetch completions) are the
    events of the transition systems; every interleaving the event loop can
    produce is a trace of the model.  What the scripts cannot decide is a
    parameter: the elements the HTML parser finds in a markup string, the
    urls [history.pushState] refuses.  Timer handles are positive and never
    reused, and the DOM calls on elements that exist do not throw. *)

From Stdlib Require Import NArith String Ascii Lia.
From stdpp Require Import base tactics option list gmap.

Set Default Proof Using "Type".

(* ===================================================================== *)
(** ** ECMAScript strings *)
(* ===================================================================== *)

Module JsString.

(** A string value is a finite sequence of 16-bit code units. *)
Definition char16 : Type := N.
Definition jsstring : Type := list char16.

Local Open Scope N_scope.

(** Source literals are written as UTF-8 text and decoded to UTF-16, so
    that a constant reads like the literal in the script. *)
Fixpoint utf16_of_utf8 (bs : list N) : jsstring :=
  match bs with
  | [] => []
  | b0 :: r0 =>
    if b0 <? 128 then b0 :: utf16_of_utf8 r0
    else
      match r0 with
      | [] => []
      | b1 :: r1 =>
        if b0 <? 224 then ((b0 - 192) * 64 + (b1 - 128)) :: utf16_of_utf8 r1
        else
          match r1 with
          | [] => []
          | b2 :: r2 =>
            if b0 <? 240
            then ((b0 - 224) * 4096 + (b1 - 128) * 64 + (b2 - 128))
                   :: utf16_of_utf8 r2
            else
              match r2 with
              | [] => []
              | b3 :: r3 =>
                let cp := (b0 - 240) * 262144 + (b1 - 128) * 4096
                          + (b2 - 128) * 64 + (b3 - 128) in
                let v := cp - 65536 in
                (55296 + v / 1024) :: (56320 + v mod 1024)
                  :: utf16_of_utf8 r3
              end
          end
      end
  end.

Definition lit (s : string) : jsstring :=
  utf16_of_utf8 (List.map N_of_ascii (list_ascii_of_string s)).

(** The double quote, which the script's HTML literals contain. *)
Definition dq : jsstring := [34].

Definition LF : char16 := 10.
Definition STAR : char16 := 42.
Definition SPACE : char16 := 32.

(** LineTerminator code points (ECMA-262 12.3): LF, CR, LS, PS. *)
Definition isLineTerminator (c : char16) : bool :=
  (c =? 10) || (c =? 13) || (c =? 8232) || (c =? 8233).

(** WhiteSpace code points (ECMA-262 12.2): TAB, VT, FF, ZWNBSP and the
    Unicode Space_Separator category. *)
Definition isWhiteSpace (c : char16) : bool :=
  (c =? 9) || (c =? 11) || (c =? 12) || (c =? 32) || (c =? 160)
  || (c =? 5760) || ((8192 <=? c) && (c <=? 8202))
  || (c =? 8239) || (c =? 8287) || (c =? 12288) || (c =? 65279).

(** What [String.prototype.trim] strips: WhiteSpace and LineTerminator. *)
Definition isTrimmable (c : char16) : bool :=
  isWhiteSpace c || isLineTerminator c.

Fixpoint trimStart (s : jsstring) : jsstring :=
  match s with
  | [] => []
  | c :: s' => if isTrimmable c then trimStart s' else s
  end.

Fixpoint trimEnd (s : jsstring) : jsstring :=
  match s with
  | [] => []
  | c :: s' =>
    match trimEnd s' with
    | [] => if isTrimmable c then [] else [c]
    | t => c :: t
    end
  end.

Definition trim (s : jsstring) : jsstring := trimEnd (trimStart s).

(** [s.startsWith(p)] *)
Fixpoint startsWith (s p : jsstring) : bool :=
  match p, s with
  | [], _ => true
  | _ :: _, [] => false
  | a :: p', c :: s' => (c =? a) && startsWith s' p'
  end.

(** [s.substring(n)] for [0 <= n]. *)
Definition substring (n : nat) (s : jsstring) : jsstring := drop n s.

(** [s.split('\n')]: never empty; a string of k line feeds has k+1 pieces. *)
Fixpoint split_lf (s : jsstring) : list jsstring :=
  match s with
  | [] => [[]]
  | c :: s' =>
    if c =? LF then [] :: split_lf s'
    else
      match split_lf s' with
      | [] => [[c]]
      | l :: ls => (c :: l) :: ls
      end
  end.

(** [a === b] on strings. *)
Fixpoint eqb (a b : jsstring) : bool :=
  match a, b with
  | [], [] => true
  | x :: a', y :: b' => (x =? y) && eqb a' b'
  | _, _ => false
  end.

(** Truthiness of a string: non-empty. *)
Definition truthy (s : jsstring) : bool :=
  match s with [] => false | _ :: _ => true end.

(** Surrogate code units, and [s.isWellFormed()]: no surrogate outside a
    pair.  [encodeURIComponent(s)] throws a [URIError] exactly when [s] is
    not well formed (ECMA-262, Encode). *)
Definition isLeadingSurrogate (c : char16) : bool :=
  (55296 <=? c) && (c <=? 56319).
Definition isTrailingSurrogate (c : char16) : bool :=
  (56320 <=? c) && (c <=? 57343).

Fixpoint isWellFormed (s : jsstring) : bool :=
  match s with
  | [] => true
  | c :: s' =>
    if isTrailingSurrogate c then false
    else if isLeadingSurrogate c then
      match s' with
      | d :: s'' => isTrailingSurrogate d && isWellFormed s''
      | [] => false
      end
    else isWellFormed s'
  end.

End JsString.

Import JsString.

(* ===================================================================== *)
(** ** chatbot.js *)
(* ===================================================================== *)

Module Chatbot.

Local Open Scope N_scope.

(** *** [markdownToHtml] *)

Definition STRONG_OPEN : jsstring := lit "<strong>".
Definition STRONG_CLOSE : jsstring := lit "</strong>".
Definition UL_OPEN : jsstring :=
  lit "<ul style=" ++ dq ++ lit "margin: 10px 0; padding-left: 20px;" ++ dq ++ lit ">".
Definition UL_CLOSE : jsstring := lit "</ul>".
Definition LI_OPEN : jsstring :=
  lit "<li style=" ++ dq ++ lit "margin: 5px 0;" ++ dq ++ lit ">".
Definition LI_CLOSE : jsstring := lit "</li>".
Definition P_OPEN : jsstring :=
  lit "<p style=" ++ dq ++ lit "margin: 5px 0;" ++ dq ++ lit ">".
Definition P_CLOSE : jsstring := lit "</p>".

(** The regular expression [/\*\*(.+?)\*\*/g].

    [close_bold s] runs the lazy group after its first character has
    been consumed: it stops at the first [**], gives up at a line
    terminator (which [.] does not match) or at the end of the text, and
    otherwise extends the group by one code unit.  The result is the rest
    of the group and the text after the closing [**]. *)
Fixpoint close_bold (s : jsstring) : option (jsstring * jsstring) :=
  match s with
  | [] => None
  | c :: s' =>
    match s' with
    | d :: rest =>
      if (c =? STAR) && (d =? STAR) then Some ([], rest)
      else if isLineTerminator c then None
      else match close_bold s' with
           | Some (g, r) => Some (c :: g, r)
           | None => None
           end
    | [] => None
    end
  end.

(** A match of the whole pattern anchored at the head of [s]: the
    captured group and the text after the match. *)
Definition match_bold (s : jsstring) : option (jsstring * jsstring) :=
  match s with
  | a :: b :: c :: s' =>
    if (a =? STAR) && (b =? STAR) && negb (isLineTerminator c) then
      match close_bold s' with
      | Some (g, r) => Some (c :: g, r)
      | None => None
      end
    else None
  | _ => None
  end.

(** [text.replace(/\*\*(.+?)\*\*/g, '<strong>$1</strong>')]: scan from the
    left; at a match emit the replacement and resume after the match,
    otherwise copy one code unit.  Every step consumes at least one code
    unit, so [length s] steps are enough ([replace_bold_from_enough]). *)
Fixpoint replace_bold_from (fuel : nat) (s : jsstring) : jsstring :=
  match fuel with
  | O => s
  | S fuel' =>
    match s with
    | [] => []
    | c :: s' =>
      match match_bold s with
      | Some (g, r) =>
        STRONG_OPEN ++ g ++ STRONG_CLOSE ++ replace_bold_from fuel' r
      | None => c :: replace_bold_from fuel' s'
      end
    end
  end.

Definition replace_bold (s : jsstring) : jsstring :=
  replace_bold_from (length s) s.

(** The loop variables [inList] and [html]. *)
Record render_state : Type := RenderState {
  inList : bool;
  html : jsstring
}.

Definition BULLET : jsstring := lit "* ".

(** One iteration of the [for] loop over [lines]. *)
Definition render_line (st : render_state) (raw : jsstring) : render_state :=
  let line := trim raw in
  if startsWith line BULLET then
    let html1 := if negb (inList st) then html st ++ UL_OPEN else html st in
    let listItem := trim (substring 2 line) in
    RenderState true (html1 ++ LI_OPEN ++ listItem ++ LI_CLOSE)
  else
    let html1 := if inList st then html st ++ UL_CLOSE else html st in
    RenderState false
      (if truthy line then html1 ++ P_OPEN ++ line ++ P_CLOSE else html1).

(** The loop, then the closing of a list left open. *)
Definition render_lines (lines : list jsstring) : jsstring :=
  let st := foldl render_line (RenderState false []) lines in
  if inList st then html st ++ UL_CLOSE else html st.

(** [None] is an absent argument ([undefined]); it and the empty string
    are the falsy inputs of the first line. *)
Definition markdownToHtml (text : option jsstring) : jsstring :=
  match text with
  | None => []
  | Some [] => []
  | Some t => render_lines (split_lf (replace_bold t))
  end.

(** *** [addMessage]

    The children of [#chatbot-messages].  An element's content records
    which DOM setter filled it: [innerHTML] hands the string to the HTML
    parser, [textContent] stores it as a literal text node.  [Detached c]
    is the content [c] after [removeTypingIndicator] has taken out of it
    the first element whose id is [typing-indicator]. *)

Inductive dom_content : Type :=
| InnerHTML (markup : jsstring)
| TextContent (text : jsstring)
| Detached (c : dom_content).

Record message_wrapper : Type := MessageWrapper {
  wrapper_classes : list jsstring;
  avatar_src : jsstring;
  message_classes : list jsstring;
  content : dom_content;
  timestamp : dom_content;
  avatar_first : bool
}.

Definition set_content (c : dom_content) (m : message_wrapper)
    : message_wrapper :=
  MessageWrapper (wrapper_classes m) (avatar_src m) (message_classes m) c
    (timestamp m) (avatar_first m).

(** Both kinds of child carry the class [message-wrapper]; the typing
    indicator is the one the script gives the id [typing-indicator]. *)
Inductive node : Type :=
| MessageNode (m : message_wrapper)
| TypingIndicator.

(** The HTML parser, as far as the script depends on it.  Message text
    reaches the transcript through [innerHTML], so the markup of a message
    can itself hold elements whose id is [typing-indicator].
    [typing_ids markup] is the number of times that
    [getElementById("typing-indicator")] followed by [remove()] succeeds
    inside the elements the parser makes of [markup]. *)
Class HtmlParser : Type := { typing_ids : jsstring -> nat }.

Definition BOT : jsstring := lit "bot".
Definition USER : jsstring := lit "user".

(** [classList.add] throws on an empty token and on one that contains
    ASCII whitespace. *)
Definition isAsciiWhitespace (c : char16) : bool :=
  (c =? 9) || (c =? 10) || (c =? 12) || (c =? 13) || (c =? 32).

Definition valid_token (s : jsstring) : bool :=
  truthy s && forallb (fun c => negb (isAsciiWhitespace c)) s.

(** String conversion of the value assigned to [innerHTML]. *)
Definition to_markup (text : option jsstring) : jsstring :=
  match text with
  | Some t => t
  | None => lit "undefined"
  end.

(** [addMessage(text, sender)], with the result of [getCurrentTime()]
    passed in as [now].  [None]: the call threw before appending. *)
Definition addMessage (now : jsstring) (text : option jsstring)
    (sender : jsstring) (messages : list node) : option (list node) :=
  if valid_token sender then
    let is_bot := eqb sender BOT in
    let htmlContent := if is_bot then markdownToHtml text else to_markup text in
    Some (messages ++ [MessageNode {|
      wrapper_classes := [lit "message-wrapper"; sender];
      avatar_src := if is_bot then lit "/static/img/bot.png"
                    else lit "/static/img/user.png";
      message_classes := [lit "message"; sender];
      content := InnerHTML htmlContent;
      timestamp := TextContent now;
      avatar_first := is_bot |}])
  else None.

Definition showTypingIndicator (messages : list node) : list node :=
  messages ++ [TypingIndicator].

Section Dom.

Context {parser : HtmlParser}.

(** The elements with the id [typing-indicator] left in a content. *)
Fixpoint indicators (c : dom_content) : nat :=
  match c with
  | InnerHTML markup => typing_ids markup
  | TextContent _ => O
  | Detached c' => pred (indicators c')
  end.

(** [getElementById] finds the first element with the id in tree order,
    be it the indicator or an element inside the content of a message
    before it, and [remove()] detaches it.  (The page around the
    transcript holds no element with that id.) *)
Fixpoint removeTypingIndicator (messages : list node) : list node :=
  match messages with
  | [] => []
  | TypingIndicator :: rest => rest
  | MessageNode m :: rest =>
    match indicators (content m) with
    | O => MessageNode m :: removeTypingIndicator rest
    | S _ => MessageNode (set_content (Detached (content m)) m) :: rest
    end
  end.

(** *** Session state

    Timers registered with [setTimeout] and not yet fired or cleared. *)

Inductive timer_kind : Type :=
| GreetingTimer        (* the delayed welcome message *)
| InactivityTimer      (* () => handleSessionTimeout() *)
| FarewellTimer        (* the await inside handleSessionTimeout *)
| AutoSubmitTimer.     (* the delayed send after a final voice transcript *)

Record timer : Type := Timer {
  kind : timer_kind;
  delay : N              (* milliseconds *)
}.

Definition INACTIVITY_TIMEOUT : N := 2 * 60 * 1000.

Inductive request : Type :=
| PostSendMessage (text : jsstring)
| PostClearChat.

Record chat : Type := Chat {
  display_flex : bool;            (* chatBox.style.display === "flex" *)
  greeted : bool;
  sessionTimeout : option nat;    (* null or a timer handle *)
  sessionActive : bool;
  timers : gmap nat timer;
  next_timer : nat;               (* the handle setTimeout returns next *)
  messages : list node;
  input_value : jsstring;
  requests : list request;        (* fetches issued, oldest first *)
  sends_in_flight : nat;          (* sendMessage calls awaiting their fetch *)
  clears_in_flight : nat;         (* clearConversation calls awaiting theirs *)
  clears_settling : nat           (* handleSessionTimeout resuming after it *)
}.

Definition set_display_flex (v : bool) (s : chat) : chat :=
  Chat v (greeted s) (sessionTimeout s) (sessionActive s) (timers s)
    (next_timer s) (messages s) (input_value s) (requests s)
    (sends_in_flight s) (clears_in_flight s) (clears_settling s).
Definition set_greeted (v : bool) (s : chat) : chat :=
  Chat (display_flex s) v (sessionTimeout s) (sessionActive s) (timers s)
    (next_timer s) (messages s) (input_value s) (requests s)
    (sends_in_flight s) (clears_in_flight s) (clears_settling s).
Definition set_sessionTimeout (v : option nat) (s : chat) : chat :=
  Chat (display_flex s) (greeted s) v (sessionActive s) (timers s)
    (next_timer s) (messages s) (input_value s) (requests s)
    (sends_in_flight s) (clears_in_flight s) (clears_settling s).
Definition set_sessionActive (v : bool) (s : chat) : chat :=
  Chat (display_flex s) (greeted s) (sessionTimeout s) v (timers s)
    (next_timer s) (messages s) (input_value s) (requests s)
    (sends_in_flight s) (clears_in_flight s) (clears_settling s).
Definition set_timers (v : gmap nat timer) (s : chat) : chat :=
  Chat (display_flex s) (greeted s) (sessionTimeout s) (sessionActive s) v
    (next_timer s) (messages s) (input_value s) (requests s)
    (sends_in_flight s) (clears_in_flight s) (clears_settling s).
Definition set_next_timer (v : nat) (s : chat) : chat :=
  Chat (display_flex s) (greeted s) (sessionTimeout s) (sessionActive s)
    (timers s) v (messages s) (input_value s) (requests s)
    (sends_in_flight s) (clears_in_flight s) (clears_settling s).
Definition set_messages (v : list node) (s : chat) : chat :=
  Chat (display_flex s) (greeted s) (sessionTimeout s) (sessionActive s)
    (timers s) (next_timer s) v (input_value s) (requests s)
    (sends_in_flight s) (clears_in_flight s) (clears_settling s).
Definition set_input_value (v : jsstring) (s : chat) : chat :=
  Chat (display_flex s) (greeted s) (sessionTimeout s) (sessionActive s)
    (timers s) (next_timer s) (messages s) v (requests s)
    (sends_in_flight s) (clears_in_flight s) (clears_settling s).
Definition set_requests (v : list request) (s : chat) : chat :=
  Chat (display_flex s) (greeted s) (sessionTimeout s) (sessionActive s)
    (timers s) (next_timer s) (messages s) (input_value s) v
    (sends_in_flight s) (clears_in_flight s) (clears_settling s).
Definition set_sends_in_flight (v : nat) (s : chat) : chat :=
  Chat (display_flex s) (greeted s) (sessionTimeout s) (sessionActive s)
    (timers s) (next_timer s) (messages s) (input_value s) (requests s)
    v (clears_in_flight s) (clears_settling s).
Definition set_clears_in_flight (v : nat) (s : chat) : chat :=
  Chat (display_flex s) (greeted s) (sessionTimeout s) (sessionActive s)
    (timers s) (next_timer s) (messages s) (input_value s) (requests s)
    (sends_in_flight s) v (clears_settling s).
Definition set_clears_settling (v : nat) (s : chat) : chat :=
  Chat (display_flex s) (greeted s) (sessionTimeout s) (sessionActive s)
    (timers s) (next_timer s) (messages s) (input_value s) (requests s)
    (sends_in_flight s) (clears_in_flight s) v.

(** [setTimeout(callback, delay)]: registers the timer under a fresh
    handle and returns the handle. *)
Definition setTimeout (k : timer_kind) (ms : N) (s : chat) : nat * chat :=
  let id := next_timer s in
  (id, set_next_timer (S id) (set_timers (<[id := Timer k ms]> (timers s)) s)).

Definition clearTimeout (id : nat) (s : chat) : chat :=
  set_timers (delete id (timers s)) s.

(** [if (sessionTimeout) clearTimeout(sessionTimeout)]: a handle is
    truthy unless it is [null] or [0]. *)
Definition clear_sessionTimeout (s : chat) : chat :=
  match sessionTimeout s with
  | Some (S n) => clearTimeout (S n) s
  | _ => s
  end.

Definition resetInactivityTimer (s : chat) : chat :=
  let s1 := clear_sessionTimeout s in
  if sessionActive s1 then
    let '(id, s2) := setTimeout InactivityTimer INACTIVITY_TIMEOUT s1 in
    set_sessionTimeout (Some id) s2
  else s1.

(** A call of [addMessage] on the transcript of the state.  The senders
    the script passes are valid class tokens, so the call appends. *)
Definition say (now : jsstring) (text : option jsstring) (sender : jsstring)
    (s : chat) : chat :=
  match addMessage now text sender (messages s) with
  | Some ms => set_messages ms s
  | None => s
  end.

Definition GREETING : jsstring :=
  lit "👋 ¡Hola! Soy el Asistente Virtual de Becas UTPL. Estoy aquí para ayudarte con postulación, renovación, requisitos o cualquier consulta. ¿En qué puedo ayudarte hoy?".

Definition FAREWELL : jsstring :=
  lit "👋 He notado que has estado inactivo. Por motivos de seguridad y eficiencia, voy a cerrar esta conversación. Si necesitas más ayuda, no dudes en escribirme de nuevo. ¡Que tengas un excelente día!".

Definition SERVER_ERROR_PREFIX : jsstring := lit "⚠️ ".
Definition DEFAULT_SERVER_ERROR : jsstring :=
  lit "Hubo un error al procesar tu consulta.".
Definition CONNECTION_ERROR : jsstring :=
  lit "❌ Error de conexión. Por favor intenta de nuevo.".

(** The two click listeners of [#chatbot-btn], in registration order.
    The second one reads [chatBox.style.display] after the first one has
    already toggled it. *)
Definition chatBtn_toggle (s : chat) : chat :=
  let isOpen := display_flex s in
  if isOpen then set_display_flex false s
  else
    let s1 := set_display_flex true s in
    if negb (greeted s1) then
      let '(_, s2) := setTimeout GreetingTimer 300 s1 in
      set_greeted true s2
    else s1.

Definition chatBtn_session (s : chat) : chat :=
  let isOpen := display_flex s in
  if negb isOpen then resetInactivityTimer s
  else clear_sessionTimeout s.

Definition chatBtn_click (s : chat) : chat :=
  chatBtn_session (chatBtn_toggle s).

(** The guarded reset installed by [monitorUserActivity]. *)
Definition activity (s : chat) : chat :=
  if sessionActive s then resetInactivityTimer s else s.

(** The [catch] block of [sendMessage]. *)
Definition sendMessage_catch (now : jsstring) (s : chat) : chat :=
  let s1 := set_messages (removeTypingIndicator (messages s)) s in
  say now (Some CONNECTION_ERROR) BOT s1.

(** [sendMessage()] up to its first [await].  The request body is built
    inside the [try], and [encodeURIComponent(text)] throws on a text that
    is not well formed: then no request is issued and the [catch] block
    runs before the call returns. *)
Definition sendMessage (now : jsstring) (s : chat) : chat :=
  let text := trim (input_value s) in
  if eqb text [] then s
  else
    let s1 := resetInactivityTimer s in
    let s2 := say now (Some text) USER s1 in
    let s3 := set_input_value [] s2 in
    let s4 := set_messages (showTypingIndicator (messages s3)) s3 in
    if isWellFormed text then
      let s5 := set_requests (requests s4 ++ [PostSendMessage text]) s4 in
      set_sends_in_flight (S (sends_in_flight s5)) s5
    else sendMessage_catch now s4.

(** What the awaited [/send-message/] exchange delivers: a JSON body
    with a truthy [success], one with a falsy [success], or a rejection
    (network failure, body that is not JSON).  The backend keeps to its
    protocol: the body is an object, and [sources.pdf_sources], when
    present, maps names to arrays of pages. *)
Inductive send_outcome : Type :=
| SendOk (response : option jsstring)
| SendRefused (error : option jsstring)
| SendFailed.

(** [data.error || "Hubo un error ..."] *)
Definition error_text (error : option jsstring) : jsstring :=
  match error with
  | Some (c :: e) => c :: e
  | _ => DEFAULT_SERVER_ERROR
  end.

(** [sendMessage()] after the [await]s.  The block that assembles
    [sourcesText] only builds a local string.  For [SendFailed] this is
    the [catch] block, [sendMessage_catch]. *)
Definition sendMessage_resume (now : jsstring) (o : send_outcome) (s : chat)
    : chat :=
  let s1 := set_messages (removeTypingIndicator (messages s)) s in
  match o with
  | SendOk response => resetInactivityTimer (say now response BOT s1)
  | SendRefused error =>
    say now (Some (SERVER_ERROR_PREFIX ++ error_text error)) BOT s1
  | SendFailed => say now (Some CONNECTION_ERROR) BOT s1
  end.

(** [handleSessionTimeout()] up to its first [await]. *)
Definition handleSessionTimeout (now : jsstring) (s : chat) : chat :=
  let s1 := set_sessionActive false s in
  let s2 := say now (Some FAREWELL) BOT s1 in
  snd (setTimeout FarewellTimer 2000 s2).

(** ... then [clearConversation()] up to its [await fetch]. *)
Definition clearConversation (s : chat) : chat :=
  let s1 := set_requests (requests s ++ [PostClearChat]) s in
  set_clears_in_flight (S (clears_in_flight s1)) s1.

Inductive clear_outcome : Type :=
| ClearOk          (* data.success truthy *)
| ClearRefused     (* data.success falsy *)
| ClearFailed.     (* fetch or response.json() rejected *)

(** Removes every [.message-wrapper] except the last one. *)
Definition keep_last (ms : list node) : list node :=
  match last ms with
  | Some n => [n]
  | None => []
  end.

(** [clearConversation()] after its [await]s. *)
Definition clearConversation_resume (o : clear_outcome) (s : chat) : chat :=
  let s1 :=
    match o with
    | ClearOk => set_messages (keep_last (messages s)) s
    | ClearRefused | ClearFailed => s
    end in
  set_clears_settling (S (clears_settling s1)) s1.

(** [handleSessionTimeout()] after [await clearConversation()], reached
    both when the call returned and when it threw. *)
Definition handleSessionTimeout_resume (s : chat) : chat :=
  set_greeted false (set_sessionActive true s).

(** *** The event loop *)

Inductive event : Type :=
| ClickChatBtn                         (* 'click' on #chatbot-btn *)
| ClickCloseBtn                        (* 'click' on #chatbot-close *)
| InputEdit (value : jsstring)         (* 'input' on the text field *)
| ClickChatBox                         (* 'click' reaching #chatbot-box *)
| ClickSend                            (* 'click' on #chatbot-send *)
| Keypress (key : jsstring)            (* 'keypress' on the text field *)
| VoiceInterim (transcript : jsstring) (* onresult, interim transcript *)
| VoiceFinal (transcript : jsstring)   (* onresult, final transcript *)
| TimerFire (id : nat)                 (* a pending timer elapses *)
| SendResponse (o : send_outcome)      (* sendMessage resumes *)
| ClearResponse (o : clear_outcome)    (* clearConversation resumes *)
| ClearSettled.                        (* handleSessionTimeout resumes *)

Definition ENTER : jsstring := lit "Enter".

(** One callback run to completion; [None] when the browser cannot
    deliver the event in this state (no such timer, no such request).  A
    timer that fires leaves the table of pending timers before its callback
    runs. *)
Definition step (now : jsstring) (e : event) (s : chat) : option chat :=
  match e with
  | ClickChatBtn => Some (chatBtn_click s)
  | ClickCloseBtn => Some (set_display_flex false s)
  | InputEdit v => Some (activity (set_input_value v s))
  | ClickChatBox => Some (activity s)
  | ClickSend => Some (activity (sendMessage now s))
  | Keypress key =>
    Some (if eqb key ENTER then sendMessage now s else s)
  | VoiceInterim v => Some (set_input_value v s)
  | VoiceFinal v =>
    Some (if truthy v
          then snd (setTimeout AutoSubmitTimer 500 (set_input_value v s))
          else s)
  | TimerFire id =>
    match timers s !! id with
    | None => None
    | Some t =>
      let s1 := clearTimeout id s in
      Some match kind t with
           | GreetingTimer => say now (Some GREETING) BOT s1
           | InactivityTimer => handleSessionTimeout now s1
           | FarewellTimer => clearConversation s1
           | AutoSubmitTimer =>
             if truthy (trim (input_value s1)) then sendMessage now s1
             else s1
           end
    end
  | SendResponse o =>
    match sends_in_flight s with
    | O => None
    | S n => Some (sendMessage_resume now o (set_sends_in_flight n s))
    end
  | ClearResponse o =>
    match clears_in_flight s with
    | O => None
    | S n => Some (clearConversation_resume o (set_clears_in_flight n s))
    end
  | ClearSettled =>
    match clears_settling s with
    | O => None
    | S n => Some (handleSessionTimeout_resume (set_clears_settling n s))
    end
  end.

(** A trace pairs every event with the clock reading at its time. *)
Fixpoint run (tr : list (jsstring * event)) (s : chat) : option chat :=
  match tr with
  | [] => Some s
  | (now, e) :: tr' =>
    match step now e s with
    | Some s' => run tr' s'
    | None => None
    end
  end.

(** The state when the script has been evaluated: the module-level
    [let]s at their initial values, nothing scheduled, nothing sent. *)
Definition page_load (flex : bool) (ms : list node) (inp : jsstring) : chat :=
  Chat flex false None true ∅ 1 ms inp [] 0 0 0.

Definition reachable (s : chat) : Prop :=
  exists flex ms inp tr, run tr (page_load flex ms inp) = Some s.

Definition inactivity_pending (s : chat) : Prop :=
  exists id d, timers s !! id = Some (Timer InactivityTimer d).

(** The events whose callbacks can reach a call of
    [resetInactivityTimer]. *)
Definition resets (e : event) (s : chat) : bool :=
  match e with
  | ClickChatBtn | InputEdit _ | ClickChatBox | ClickSend => true
  | Keypress key => eqb key ENTER
  | TimerFire id =>
    match kind <$> timers s !! id with
    | Some AutoSubmitTimer => true
    | _ => false
    end
  | SendResponse (SendOk _) => true
  | _ => false
  end.

(** Among them, the events of the user: a keystroke in the field, a
    click in the chat box, a send (the button or Enter), a click on the
    toggle. *)
Definition user_reset (e : event) : bool :=
  match e with
  | ClickChatBtn | InputEdit _ | ClickChatBox | ClickSend => true
  | Keypress key => eqb key ENTER
  | _ => false
  end.

End Dom.

(** *** Vocabulary of the statements about the renderer *)

Definition STARS : jsstring := [STAR; STAR].

Definition no_terminator (g : jsstring) : bool :=
  forallb (fun c => negb (isLineTerminator c)) g.

(** Whether some position of the text starts a bold span. *)
Fixpoint has_bold_span (s : jsstring) : bool :=
  match s with
  | [] => false
  | _ :: s' =>
    match match_bold s with
    | Some _ => true
    | None => has_bold_span s'
    end
  end.

(** A line that [trim] empties. *)
Definition is_blank (s : jsstring) : bool := forallb isTrimmable s.

(** A line the loop treats as a list item. *)
Definition is_bullet_line (raw : jsstring) : bool :=
  startsWith (trim raw) BULLET.

(** What the loop emits for a bullet line and for any other line. *)
Definition list_item (raw : jsstring) : jsstring :=
  LI_OPEN ++ trim (substring 2 (trim raw)) ++ LI_CLOSE.

Definition paragraph (raw : jsstring) : jsstring :=
  if is_blank raw then [] else P_OPEN ++ trim raw ++ P_CLOSE.

(** The statement after the loop. *)
Definition finish (st : render_state) : jsstring :=
  if inList st then html st ++ UL_CLOSE else html st.

(** *** Vocabulary of the statements about the session *)

(** At most one inactivity timer is pending, it is the one whose handle
    [sessionTimeout] holds, and none is pending while a timeout sequence
    runs; at most one such sequence runs at a time; handles are fresh. *)
Record inv (s : chat) : Prop := Inv {
  inv_inactivity : forall id d,
    timers s !! id = Some (Timer InactivityTimer d) ->
    sessionTimeout s = Some id /\ sessionActive s = true;
  inv_active : sessionActive s = true ->
    (forall id d, timers s !! id <> Some (Timer FarewellTimer d))
    /\ clears_in_flight s = O /\ clears_settling s = O;
  inv_farewell_unique : forall id id' d d',
    timers s !! id = Some (Timer FarewellTimer d) ->
    timers s !! id' = Some (Timer FarewellTimer d') -> id = id';
  inv_farewell : forall id d,
    timers s !! id = Some (Timer FarewellTimer d) ->
    clears_in_flight s = O /\ clears_settling s = O;
  inv_clears : (clears_in_flight s + clears_settling s <= 1)%nat;
  inv_handles : timers s !! O = None /\ (1 <= next_timer s)%nat;
  inv_fresh : forall id, sessionTimeout s = Some id -> (id < next_timer s)%nat
}.

(** No inactivity timer of [s'] is new with respect to [s]. *)
Definition none_scheduled (s s' : chat) : Prop :=
  forall id d, timers s' !! id = Some (Timer InactivityTimer d) ->
               timers s !! id = Some (Timer InactivityTimer d).

End Chatbot.

Import Chatbot.

(* ===================================================================== *)
(** ** spa.js *)
(* ===================================================================== *)

Module Spa.

Local Open Scope N_scope.

(** The one listener the router installs on links: the arrow function
    of [initNavigationLinks]. *)
Inductive listener : Type := NavClick.

(** An element of the document that one of the router's two selectors
    can match, with what the router reads and writes on it. *)
Record element : Type := Element {
  is_data_link : bool;          (* matches 'a[data-link]' *)
  is_sidebar_nav : bool;        (* matches '.sidebar .nav-link' *)
  href : option jsstring;       (* getAttribute('href'), null if absent *)
  active : bool;                (* classList contains 'active' *)
  listeners : list listener     (* click listeners, in registration order *)
}.

Definition set_active (v : bool) (e : element) : element :=
  Element (is_data_link e) (is_sidebar_nav e) (href e) v (listeners e).
Definition set_listeners (v : list listener) (e : element) : element :=
  Element (is_data_link e) (is_sidebar_nav e) (href e) (active e) v.

(** [cloneNode(true)] copies attributes and classes, never listeners;
    elements created by the HTML parser have none either. *)
Definition cloneNode (e : element) : element := set_listeners [] e.

(** What [#dynamic-content] holds: one of the two literals the loader
    writes, or a fragment (from the server). *)
Inductive view : Type :=
| Loading
| Fragment (html : jsstring)
| ErrorPanel.

Definition LOADING_HTML : jsstring :=
  lit "<p style=" ++ dq ++ lit "text-align:center; padding:40px; opacity:0.7;"
    ++ dq ++ lit ">⏳ Cargando...</p>".

Definition ERROR_HTML : jsstring :=
  [LF] ++ lit "        <div class=" ++ dq ++ lit "alert alert-danger" ++ dq
    ++ lit " style=" ++ dq ++ lit "margin: 20px;" ++ dq ++ lit ">"
  ++ [LF] ++ lit "          <i class=" ++ dq ++ lit "bi bi-exclamation-triangle"
    ++ dq ++ lit "></i>"
  ++ [LF] ++ lit "          ⚠️ No se pudo cargar el contenido."
  ++ [LF] ++ lit "        </div>".

Definition innerHTML (v : view) : jsstring :=
  match v with
  | Loading => LOADING_HTML
  | Fragment html => html
  | ErrorPanel => ERROR_HTML
  end.

Inductive load_error : Type :=
| HttpStatusError (status : N)      (* thrown on !res.ok *)
| TransportError                    (* fetch() or res.text() rejected *)
| SecurityError.                    (* thrown by history.pushState *)

Inductive console_error : Type :=
| ContainerMissing
| SpaError (err : load_error).

Inductive history_call : Type :=
| ReplaceState (url : jsstring)
| PushState (url : jsstring).

(** A fetch issued by [loadPartial], with the variables its callbacks
    close over. *)
Record fetch : Type := Fetch {
  fetch_url : jsstring;
  fetch_push : bool
}.

Record page : Type := Page {
  has_container : bool;            (* getElementById("dynamic-content") *)
  container : view;
  outer : list element;            (* elements outside the container *)
  inner : list element;            (* elements inside the container *)
  history : list history_call;     (* calls on window.history, oldest first *)
  in_flight : gmap nat fetch;      (* keyed by issue number *)
  issued : nat;                    (* fetches issued so far *)
  navigated : list jsstring;       (* 'spa:navigate' events, detail.url *)
  errors : list console_error;     (* console.error calls *)
  resizes : nat                    (* delayed 'resize' dispatches scheduled *)
}.

Definition set_container (v : view) (els : list element) (s : page) : page :=
  Page (has_container s) v (outer s) els (history s) (in_flight s)
    (issued s) (navigated s) (errors s) (resizes s).
Definition set_elements (o i : list element) (s : page) : page :=
  Page (has_container s) (container s) o i (history s) (in_flight s)
    (issued s) (navigated s) (errors s) (resizes s).
Definition set_history (v : list history_call) (s : page) : page :=
  Page (has_container s) (container s) (outer s) (inner s) v (in_flight s)
    (issued s) (navigated s) (errors s) (resizes s).
Definition set_in_flight (v : gmap nat fetch) (n : nat) (s : page) : page :=
  Page (has_container s) (container s) (outer s) (inner s) (history s) v
    n (navigated s) (errors s) (resizes s).
Definition set_navigated (v : list jsstring) (s : page) : page :=
  Page (has_container s) (container s) (outer s) (inner s) (history s)
    (in_flight s) (issued s) v (errors s) (resizes s).
Definition set_errors (v : list console_error) (s : page) : page :=
  Page (has_container s) (container s) (outer s) (inner s) (history s)
    (in_flight s) (issued s) (navigated s) v (resizes s).
Definition set_resizes (v : nat) (s : page) : page :=
  Page (has_container s) (container s) (outer s) (inner s) (history s)
    (in_flight s) (issued s) (navigated s) (errors s) v.

(** Every element of the document, for [querySelectorAll]. *)
Definition document (s : page) : list element := outer s ++ inner s.

(** [linkHref === url] *)
Definition href_is (e : element) (url : jsstring) : bool :=
  match href e with
  | Some h => eqb h url
  | None => false
  end.

Section Router.

(** The HTML parser: the elements a fragment contributes. *)
Variable parse : jsstring -> list element.

(** [history.pushState(state, "", url)] throws a [SecurityError] for a
    url it does not accept: one that does not parse, or one of another
    origin than the document's.  The state the router passes can always be
    cloned, so the url decides. *)
Variable pushState_throws : jsstring -> bool.

Definition elements_of (v : view) : list element :=
  match v with
  | Fragment html => map cloneNode (parse html)
  | Loading | ErrorPanel => []     (* no link in either literal *)
  end.

(** [container.innerHTML = ...] *)
Definition fill (v : view) (s : page) : page :=
  set_container v (elements_of v) s.

(** The body of the [forEach] in [setActiveNav]. *)
Definition mark (url : jsstring) (e : element) : element :=
  if is_sidebar_nav e then
    let e1 := set_active false e in
    if href_is e1 url then set_active true e1 else e1
  else e.

Definition setActiveNav (url : jsstring) (s : page) : page :=
  set_elements (map (mark url) (outer s)) (map (mark url) (inner s)) s.

(** The two [forEach] passes of [initNavigationLinks]. *)
Definition replace_by_clone (e : element) : element :=
  if is_data_link e then cloneNode e else e.

Definition bind (e : element) : element :=
  if is_data_link e then set_listeners (listeners e ++ [NavClick]) e else e.

Definition initNavigationLinks (s : page) : page :=
  let s1 := set_elements (map replace_by_clone (outer s))
                         (map replace_by_clone (inner s)) s in
  set_elements (map bind (outer s1)) (map bind (inner s1)) s1.

(** [loadPartial(url, push)] up to the [fetch] call. *)
Definition loadPartial (url : jsstring) (push : bool) (s : page) : page :=
  if negb (has_container s) then
    set_errors (errors s ++ [ContainerMissing]) s
  else
    let s1 := fill Loading s in
    set_in_flight (<[issued s1 := Fetch url push]> (in_flight s1))
                  (S (issued s1)) s1.

(** What a fetch delivers: a response with its status and the result
    of reading its body, or a rejection. *)
Inductive fetch_outcome : Type :=
| Responded (status : N) (body : option jsstring)
| Rejected.

(** [res.ok] *)
Definition ok (status : N) : bool := (200 <=? status) && (status <=? 299).

(** The outcome as the promise chain sees it. *)
Definition settle (o : fetch_outcome) : load_error + jsstring :=
  match o with
  | Responded status body =>
    if ok status then
      match body with
      | Some html => inr html
      | None => inl TransportError
      end
    else inl (HttpStatusError status)
  | Rejected => inl TransportError
  end.

(** The [.catch] callback. *)
Definition on_error (err : load_error) (s : page) : page :=
  let s1 := fill ErrorPanel s in
  set_errors (errors s1 ++ [SpaError err]) s1.

(** Whether the success callback of a fetch calls [history.pushState]
    with a url that makes it throw. *)
Definition refused (f : fetch) : bool :=
  fetch_push f && pushState_throws (fetch_url f).

(** The second [.then] callback.  The [.catch] is chained behind it, so
    when [history.pushState] throws, the rest of the callback is skipped
    and the [.catch] callback runs on the container that has just received
    the fragment. *)
Definition on_loaded (f : fetch) (html : jsstring) (s : page) : page :=
  let url := fetch_url f in
  let s1 := fill (Fragment html) s in
  if refused f then on_error SecurityError s1
  else
    let s2 := if fetch_push f
              then set_history (history s1 ++ [PushState url]) s1 else s1 in
    let s3 := setActiveNav url s2 in
    let s4 := initNavigationLinks s3 in
    let s5 := set_navigated (navigated s4 ++ [url]) s4 in
    set_resizes (S (resizes s5)) s5.

(** The click listener. *)
Definition nav_click (e : element) (s : page) : page :=
  match href e with
  | Some (c :: u) => loadPartial (c :: u) true s
  | _ => s
  end.

(** A click dispatches to the listeners the target has at that time. *)
Definition click (e : element) (s : page) : page :=
  foldl (fun s' l => match l with NavClick => nav_click e s' end)
        s (listeners e).

(** The [popstate] listener; [state_url] is [e.state.url] when the
    entry carries one. *)
Definition popstate (state_url : option jsstring) (pathname : jsstring)
    (s : page) : page :=
  match state_url with
  | Some (c :: u) => loadPartial (c :: u) false s
  | _ => loadPartial pathname false s
  end.

(** The [DOMContentLoaded] listener.  A container whose markup is
    blank holds no [data-page] element, so the test on the markup
    decides the condition. *)
Definition domContentLoaded (currentUrl : jsstring) (s : page) : page :=
  let s1 :=
    if has_container s && eqb (trim (innerHTML (container s))) []
    then loadPartial currentUrl false s else s in
  let s2 := initNavigationLinks s1 in
  set_history (history s2 ++ [ReplaceState currentUrl]) s2.

Inductive event : Type :=
| Click (inside : bool) (i : nat)       (* on the i-th element *)
| PopState (state_url : option jsstring) (pathname : jsstring)
| FetchDone (id : nat) (o : fetch_outcome).

Definition step (e : event) (s : page) : option page :=
  match e with
  | Click inside i =>
    match (if inside then inner s else outer s) !! i with
    | Some el => Some (click el s)
    | None => None
    end
  | PopState state_url pathname => Some (popstate state_url pathname s)
  | FetchDone id o =>
    match in_flight s !! id with
    | None => None
    | Some f =>
      let s1 := set_in_flight (delete id (in_flight s)) (issued s) s in
      Some match settle o with
           | inr html => on_loaded f html s1
           | inl err => on_error err s1
           end
    end
  end.

Fixpoint run (tr : list event) (s : page) : option page :=
  match tr with
  | [] => Some s
  | e :: tr' =>
    match step e s with
    | Some s' => run tr' s'
    | None => None
    end
  end.

Definition loaded (e : event) : bool :=
  match e with
  | FetchDone _ o => match settle o with inr _ => true | inl _ => false end
  | _ => false
  end.

(** Content swaps in a trace: the fetches that completed successfully. *)
Definition swaps (tr : list event) : nat := length (filter loaded tr).

End Router.

(** The document as served, before any script has run: server-rendered
    content in the container, no listener anywhere. *)
Definition served (parse : jsstring -> list element) (present : bool)
    (html : jsstring) (chrome : list element) : page :=
  Page present (Fragment html) (map cloneNode chrome)
    (elements_of parse (Fragment html)) [] ∅ 0 [] [] 0.

(** Every [a[data-link]] of the document carries the router's listener
    and nothing else. *)
Definition bound (s : page) : Prop :=
  forall e, e ∈ document s -> is_data_link e = true -> listeners e = [NavClick].

End Spa.

(* ===================================================================== *)
(** ** Scenarios *)
(* ===================================================================== *)

Module Scenario.

Import Chatbot Spa.

Definition CLOCK : jsstring := lit "10:42".

(** A browser showing a document of another origin than
    [https://otro.example]: [history.pushState] refuses the absolute urls
    of that site. *)
Definition off_site (url : jsstring) : bool :=
  startsWith url (lit "https://otro.example/").

(** A page with two sidebar links and a parser that finds no element in
    any fragment, after [DOMContentLoaded]. *)
Definition no_elements (html : jsstring) : list element := [].

Definition link_to (url : string) : element :=
  Element true true (Some (lit url)) false [].

Definition home : page :=
  domContentLoaded no_elements (lit "/")
    (served no_elements true (lit "<h1>Inicio</h1>")
            [link_to "/corpus"; link_to "/pdf"]).

(** The user clicks both links before any response arrives. *)
Definition two_loads : page :=
  loadPartial no_elements (lit "/pdf") true
    (loadPartial no_elements (lit "/corpus") true home).

(** A parser that finds one internal link in every fragment. *)
Definition one_link (html : jsstring) : list element :=
  [Element true false (Some (lit "/messages")) false []].

Definition swap_trace : list Spa.event :=
  [Click false 0; FetchDone 0 (Responded 200 (Some (lit "<a data-link>")))].

Definition after_swap : page :=
  default home
    (Spa.run one_link off_site swap_trace
       (domContentLoaded one_link (lit "/")
          (served one_link true (lit "<h1>Inicio</h1>") [link_to "/corpus"]))).

(** A parser for transcripts of plain text: it finds no element with the
    id [typing-indicator] in any markup. *)
Definition no_decoys : HtmlParser := {| typing_ids := fun _ => O |}.

#[local] Existing Instance no_decoys.

(** The chat after a keystroke, and after the inactivity timer that the
    keystroke started has fired. *)
Definition typing : list (jsstring * Chatbot.event) :=
  [(CLOCK, InputEdit (lit "hola"))].

Definition typed : chat :=
  default (page_load true [] []) (Chatbot.run typing (page_load true [] [])).

Definition timing_out : list (jsstring * Chatbot.event) :=
  typing ++ [(CLOCK, TimerFire 1)].

Definition timed_out : chat :=
  default (page_load true [] [])
    (Chatbot.run timing_out (page_load true [] [])).

(** A message sent during the farewell delay, the timeout sequence run
    to its end, and the reply that arrives afterwards. *)
Definition late_reply_trace : list (jsstring * Chatbot.event) :=
  timing_out ++ [(CLOCK, ClickSend); (CLOCK, TimerFire 2);
                 (CLOCK, ClearResponse ClearOk); (CLOCK, ClearSettled)].

Definition cleared : chat :=
  default (page_load true [] [])
    (Chatbot.run late_reply_trace (page_load true [] [])).

Definition late_reply : Chatbot.event :=
  SendResponse (SendOk (Some (lit "Hola"))).

(** A page whose sidebar marks the link of the page shown and holds a
    link to another site. *)
Definition abroad : page :=
  domContentLoaded no_elements (lit "/corpus")
    (served no_elements true (lit "<h1>Corpus</h1>")
            [Element true true (Some (lit "/corpus")) true [];
             link_to "https://otro.example/becas"]).

End Scenario.

(* ===================================================================== *)
(** ** [getCookie] (chatbot.js and admin.js) *)
(* ===================================================================== *)

Module Cookies.

Local Open Scope N_scope.

Definition SEMICOLON : char16 := 59.
Definition EQUALS : char16 := 61.

(** [s.split(sep)] for a separator of one code unit. *)
Fixpoint split_on (sep : char16) (s : jsstring) : list jsstring :=
  match s with
  | [] => [[]]
  | c :: s' =>
    if c =? sep then [] :: split_on sep s'
    else
      match split_on sep s' with
      | [] => [[c]]
      | l :: ls => (c :: l) :: ls
      end
  end.

(** What a call returns: it throws, or yields [null] or a string. *)
Inductive lookup_result : Type :=
| Threw
| Null
| Value (v : jsstring).

Section GetCookie.

(** [decodeURIComponent]; [None] when it throws a [URIError]. *)
Variable decodeURIComponent : jsstring -> option jsstring.

(** The [for] loop over [cookies], with its [break]. *)
Fixpoint scan (name : jsstring) (cookies : list jsstring) : lookup_result :=
  match cookies with
  | [] => Null
  | c :: rest =>
    let cookie := trim c in
    if eqb (take (length name + 1) cookie) (name ++ [EQUALS]) then
      match decodeURIComponent (substring (length name + 1) cookie) with
      | Some v => Value v
      | None => Threw
      end
    else scan name rest
  end.

(** [getCookie(name)], with [document.cookie] passed in. *)
Definition getCookie (name : jsstring) (document_cookie : jsstring)
    : lookup_result :=
  if truthy document_cookie && negb (eqb document_cookie []) then
    scan name (split_on SEMICOLON document_cookie)
  else Null.

(** The decoded value, as the caller of [getCookie] sees it. *)
Definition decoded (v : jsstring) : lookup_result :=
  match decodeURIComponent v with
  | Some d => Value d
  | None => Threw
  end.

End GetCookie.

(** The cookie string the browser shows for a list of name/value pairs:
    [name=value] entries joined by a semicolon and a space. *)
Definition entry (kv : jsstring * jsstring) : jsstring :=
  kv.1 ++ [EQUALS] ++ kv.2.

Fixpoint cookie_string (kvs : list (jsstring * jsstring)) : jsstring :=
  match kvs with
  | [] => []
  | [kv] => entry kv
  | kv :: rest => entry kv ++ [SEMICOLON; SPACE] ++ cookie_string rest
  end.

(** The first value stored under a name. *)
Fixpoint assoc (name : jsstring) (kvs : list (jsstring * jsstring))
    : option jsstring :=
  match kvs with
  | [] => None
  | kv :: rest => if eqb kv.1 name then Some kv.2 else assoc name rest
  end.

(** A pair the browser can store: no separator in it, no [=] in the name,
    nothing for [trim] to strip around the entry. *)
Definition storable (kv : jsstring * jsstring) : bool :=
  forallb (fun c => negb (c =? SEMICOLON) && negb (c =? EQUALS)) kv.1
  && forallb (fun c => negb (c =? SEMICOLON)) kv.2
  && eqb (trim (entry kv)) (entry kv).

End Cookies.

(* ===================================================================== *)
(** ** [recognition.onresult] (chatbot.js) *)
(* ===================================================================== *)

Module Voice.

Import Chatbot.

(** [event.results[i]]: its [isFinal] flag and the transcript of its first
    alternative. *)
Record speech_result : Type := SpeechResult {
  isFinal : bool;
  transcript : jsstring
}.

(** One iteration of the loop: the local [transcript] and the page. *)
Definition hear (acc : jsstring * chat) (r : speech_result) : jsstring * chat :=
  if isFinal r then (acc.1 ++ transcript r, acc.2)
  else (acc.1, set_input_value (transcript r) acc.2).

(** The handler: the loop from [event.resultIndex], then the final
    transcript, if any, goes to the field and the delayed send is
    scheduled. *)
Definition onresult (results : list speech_result) (resultIndex : nat)
    (s : chat) : chat :=
  let acc := foldl hear ([], s) (drop resultIndex results) in
  if truthy acc.1
  then snd (setTimeout AutoSubmitTimer 500 (set_input_value acc.1 acc.2))
  else acc.2.

(** The interim transcripts and the concatenated final transcript of the
    results the handler reads. *)
Definition interims (results : list speech_result) : list jsstring :=
  map transcript (List.filter (fun r => negb (isFinal r)) results).

Definition finals (results : list speech_result) : jsstring :=
  concat (map transcript (List.filter isFinal results)).

End Voice.

(* ===================================================================== *)
(** ** Vocabulary of further statements *)
(* ===================================================================== *)

Module Properties.

Import Chatbot Spa.

(** *** The renderer *)

(** The blocks of a rendered text: a paragraph per line that is not a
    bullet line (empty for a blank one), a list per maximal run of
    bullet lines. *)
Inductive block : Type :=
| Plain (line : jsstring)
| Bullets (items : list jsstring).

Fixpoint blocks (lines : list jsstring) : list block :=
  match lines with
  | [] => []
  | l :: rest =>
    if is_bullet_line l then
      match blocks rest with
      | Bullets items :: bs => Bullets (l :: items) :: bs
      | bs => Bullets [l] :: bs
      end
    else Plain l :: blocks rest
  end.

Definition render_block (b : block) : jsstring :=
  match b with
  | Plain l => paragraph l
  | Bullets items => UL_OPEN ++ concat (map list_item items) ++ UL_CLOSE
  end.

(** What follows inside a list that is open. *)
Definition open_tail (bs : list block) : jsstring :=
  match bs with
  | Bullets items :: rest =>
    concat (map list_item items) ++ UL_CLOSE ++ concat (map render_block rest)
  | _ => UL_CLOSE ++ concat (map render_block bs)
  end.

(** *** The transcript *)

Section Transcripts.

Context {parser : HtmlParser}.

(** No message of the transcript holds an element with the id of the
    typing indicator. *)
Definition no_decoy (ms : list node) : Prop :=
  forall m, MessageNode m ∈ ms -> indicators (content m) = O.

End Transcripts.

(** *** The session *)

(** Beyond [inv]: handles in use are below the next handle; the farewell
    delay was scheduled after the handle [sessionTimeout] holds; and while
    [sessionActive] is false a timeout sequence is under way. *)
Definition beyond (s : chat) : Prop :=
  (forall id t, timers s !! id = Some t -> (id < next_timer s)%nat)
  /\ (forall fid d id,
        timers s !! fid = Some (Timer FarewellTimer d) ->
        sessionTimeout s = Some id -> (id < fid)%nat)
  /\ (sessionActive s = false ->
        (exists fid, timers s !! fid = Some (Timer FarewellTimer 2000))
        \/ clears_in_flight s = 1%nat \/ clears_settling s = 1%nat).

(** The texts the page has posted to /send-message/. *)
Definition sent (s : chat) : list jsstring :=
  omap (fun r => match r with
                 | PostSendMessage t => Some t
                 | PostClearChat => None
                 end) (requests s).

(** No timer of kind [k] of [s'] is new with respect to [s]. *)
Definition none_new (k : timer_kind) (s s' : chat) : Prop :=
  forall id d, timers s' !! id = Some (Timer k d) ->
               timers s !! id = Some (Timer k d).

(** A trimmed text that is not empty. *)
Definition tidy (t : jsstring) : Prop := t <> [] /\ trim t = t.

(** *** The router *)

(** Issue numbers in use are below the next one. *)
Definition numbered (s : page) : Prop :=
  forall id f, in_flight s !! id = Some f -> (id < issued s)%nat.

(** The urls the router has pushed onto the history. *)
Definition pushed (s : page) : list jsstring :=
  omap (fun c => match c with
                 | PushState u => Some u
                 | ReplaceState _ => None
                 end) (history s).

(** The page after [n] loads that found no container. *)
Definition logged (n : nat) (s : page) : page :=
  set_errors (errors s ++ replicate n ContainerMissing) s.

(** Bookkeeping of the successful loads: one delayed resize per navigation
    event, and no url pushed without its navigation event. *)
Definition accounted (s : page) : Prop :=
  resizes s = length (navigated s)
  /\ forall u, u ∈ pushed s -> u ∈ navigated s.

End Properties.

(* ===================================================================== *)
(** ** Further scenarios *)
(* ===================================================================== *)

Module Journeys.

Import Chatbot Spa Scenario Cookies.

#[local] Existing Instance no_decoys.

(** A page whose only link has no href. *)
Definition bare : page :=
  domContentLoaded no_elements (lit "/")
    (served no_elements true (lit "<h1>Inicio</h1>")
            [Element true true None false []]).

(** A page served without [#dynamic-content], and what two navigation
    attempts leave of it. *)
Definition headless : page :=
  domContentLoaded no_elements (lit "/")
    (served no_elements false [] [link_to "/corpus"]).

Definition attempts : list Spa.event :=
  [Click false 0; PopState None (lit "/")].

Definition after_attempts : page :=
  default headless (Spa.run no_elements off_site attempts headless).

(** A page served with an empty container. *)
Definition empty_shell : page :=
  served no_elements true [] [link_to "/corpus"].

(** The chat after the user has typed a question and clicked send. *)
Definition asking : list (jsstring * Chatbot.event) :=
  typing ++ [(CLOCK, ClickSend)].

Definition asked : chat :=
  default (page_load true [] []) (Chatbot.run asking (page_load true [] [])).

(** The chat, closed when the page loads, after a click on the toggle. *)
Definition opened : chat :=
  default (page_load false [] [])
    (Chatbot.run [(CLOCK, ClickChatBtn)] (page_load false [] [])).

(** The chat after the inactivity timer has fired and the whole timeout
    sequence has run, the backend confirming the clear. *)
Definition whole_timeout : list (jsstring * Chatbot.event) :=
  [(CLOCK, TimerFire 1); (CLOCK, TimerFire (next_timer typed));
   (CLOCK, ClearResponse ClearOk); (CLOCK, ClearSettled)].

(** A field whose text ends with a leading surrogate that has lost its
    trailing one. *)
Definition lone : jsstring := lit "hola " ++ [55357%N].

(** A user message whose markup holds an element with the id of the
    typing indicator, and a parser that finds it. *)
Definition DECOY : jsstring := lit "<i id=typing-indicator></i>".

Definition finds_decoy : HtmlParser :=
  {| typing_ids := fun markup => if eqb markup DECOY then 1%nat else O |}.

(** A cookie string with two cookies, and a decoder that leaves its
    argument as it is. *)
Definition jar : list (jsstring * jsstring) :=
  [(lit "csrftoken_old", lit "abc"); (lit "csrftoken", lit "tok")].

Definition plain_decode (s : jsstring) : option jsstring := Some s.

End Journeys.

Import Scenario.

Import Spa.

(* ===================================================================== *)
(** ** Facts about the string operations *)
(* ===================================================================== *)

Section StringFacts.

Local Open Scope N_scope.

Lemma eqb_eq (a b : jsstring) : eqb a b = true <-> a = b.
Proof.
  revert b; induction a as [|x a IH]; intros [|y b]; simpl; try easy.
  rewrite andb_true_iff, N.eqb_eq, IH. split.
  - intros [-> ->]; reflexivity.
  - intros [= -> ->]; auto.
Qed.

Lemma eqb_refl (a : jsstring) : eqb a a = true.
Proof. apply eqb_eq; reflexivity. Qed.

Lemma eqb_neq (a b : jsstring) : eqb a b = false <-> a <> b.
Proof.
  rewrite <- eqb_eq. destruct (eqb a b); split; congruence.
Qed.

Lemma split_lf_nonempty (s : jsstring) : split_lf s <> [].
Proof.
  destruct s as [|c s]; simpl; [easy|].
  destruct (c =? LF); [easy|]. destruct (split_lf s); easy.
Qed.

Lemma split_lf_cons (c : char16) (s : jsstring) :
  c <> LF ->
  exists l ls, split_lf s = l :: ls /\ split_lf (c :: s) = (c :: l) :: ls.
Proof.
  intros Hc. simpl. apply N.eqb_neq in Hc; rewrite Hc.
  destruct (split_lf s) as [|l ls] eqn:E.
  - exfalso; eapply split_lf_nonempty; eauto.
  - eauto.
Qed.

(** Splitting at a line feed: the pieces of the two sides. *)
Lemma split_lf_app (a b : jsstring) :
  split_lf (a ++ LF :: b) = split_lf a ++ split_lf b.
Proof.
  induction a as [|c a IH]; simpl; [reflexivity|].
  destruct (c =? LF); simpl; [now rewrite IH|].
  rewrite IH. destruct (split_lf a) as [|l ls] eqn:E; [|reflexivity].
  exfalso; eapply split_lf_nonempty; eauto.
Qed.

Lemma split_lf_single (s : jsstring) : LF ∉ s -> split_lf s = [s].
Proof.
  induction s as [|c s IH]; intros H; simpl; [reflexivity|].
  apply not_elem_of_cons in H as [Hc Hs].
  destruct (N.eqb_spec c LF); [congruence|]. now rewrite IH.
Qed.

(** A text is one line, or a first line, a line feed and the rest. *)
Lemma first_line (s : jsstring) :
  LF ∉ s \/ exists a b, s = a ++ LF :: b /\ LF ∉ a.
Proof.
  destruct (decide (LF ∈ s)) as [H|H]; [right|now left].
  apply list_elem_of_split_l in H as (a & b & -> & Ha). eauto.
Qed.

Lemma trimEnd_cons_keep (c : char16) (s : jsstring) :
  isTrimmable c = false -> trimEnd (c :: s) = c :: trimEnd s.
Proof. intros H; simpl. rewrite H. destruct (trimEnd s); reflexivity. Qed.

Lemma trimEnd_blank (s : jsstring) :
  forallb isTrimmable s = true -> trimEnd s = [].
Proof.
  induction s as [|c s IH]; simpl; [easy|].
  intros [Hc Hs]%andb_true_iff. now rewrite IH, Hc.
Qed.

Lemma trimEnd_nil_blank (s : jsstring) :
  trimEnd s = [] -> forallb isTrimmable s = true.
Proof.
  induction s as [|c s IH]; simpl; [easy|].
  destruct (trimEnd s) eqn:E; [|easy].
  destruct (isTrimmable c); [auto|easy].
Qed.

Lemma trimStart_blank (s : jsstring) :
  forallb isTrimmable s = true -> trimStart s = [].
Proof.
  induction s as [|c s IH]; simpl; [easy|].
  intros [Hc Hs]%andb_true_iff. rewrite Hc; auto.
Qed.

(** The shape of a text around its first code unit that [trim] keeps. *)
Lemma trimStart_split (s : jsstring) :
  forallb isTrimmable s = true \/
  exists ws c rest, s = ws ++ c :: rest /\ forallb isTrimmable ws = true
                    /\ isTrimmable c = false /\ trimStart s = c :: rest.
Proof.
  induction s as [|c s IH]; simpl; [now left|].
  destruct (isTrimmable c) eqn:Hc.
  - destruct IH as [H|(ws & d & rest & -> & Hws & Hd & E)]; [now left|right].
    exists (c :: ws), d, rest. simpl. rewrite Hc. auto.
  - right. exists [], c, s. auto.
Qed.

Lemma trimStart_app_blank (ws s : jsstring) :
  forallb isTrimmable ws = true -> trimStart (ws ++ s) = trimStart s.
Proof.
  induction ws as [|c ws IH]; simpl; [easy|].
  intros [Hc Hs]%andb_true_iff. rewrite Hc; auto.
Qed.

Lemma trim_blank (s : jsstring) :
  forallb isTrimmable s = true -> trim s = [].
Proof. intros H. unfold trim. now rewrite trimStart_blank. Qed.

(** What [trimEnd] cuts off is blank, and what it leaves ends with a
    code unit that is not. *)
Lemma trimEnd_split (s : jsstring) :
  exists ws, s = trimEnd s ++ ws /\ forallb isTrimmable ws = true
             /\ (trimEnd s = [] \/
                 exists r c, trimEnd s = r ++ [c] /\ isTrimmable c = false).
Proof.
  induction s as [|c s (ws & E & Hws & Hend)]; [exists []; auto|].
  cbn [trimEnd]. destruct (trimEnd s) as [|d t] eqn:Et.
  - cbn [app] in E. subst ws. destruct (isTrimmable c) eqn:Hc.
    + exists (c :: s). cbn [app forallb]. rewrite Hc, Hws. auto.
    + exists s. split; [reflexivity|]. split; [exact Hws|].
      right. exists [], c. auto.
  - exists ws. split; [cbn [app]; now rewrite E at 1|]. split; [exact Hws|].
    right. destruct Hend as [Hend|(r & c' & Hr & Hc')]; [discriminate|].
    exists (c :: r), c'. rewrite Hr. auto.
Qed.

(** [trim] removes a blank prefix and a blank suffix, and what it leaves
    of a text that is not blank begins and ends with a code unit that is
    not blank. *)
Lemma trim_split (s : jsstring) :
  forallb isTrimmable s = false ->
  exists pre post,
    s = pre ++ trim s ++ post
    /\ forallb isTrimmable pre = true /\ forallb isTrimmable post = true
    /\ (exists c r, trim s = c :: r /\ isTrimmable c = false)
    /\ (exists r c, trim s = r ++ [c] /\ isTrimmable c = false).
Proof.
  intros B. unfold trim.
  destruct (trimStart_split s) as [H|(ws & c & rest & -> & Hws & Hc & E)];
    [congruence|].
  rewrite E. destruct (trimEnd_split (c :: rest)) as (post & Es & Hpost & Hend).
  exists ws, post. split; [now rewrite <- Es|]. split; [exact Hws|].
  split; [exact Hpost|]. rewrite trimEnd_cons_keep in * by exact Hc.
  split; [eauto|]. destruct Hend as [Hend|Hend]; [discriminate|exact Hend].
Qed.

Lemma trim_nil_blank (s : jsstring) :
  trim s = [] -> forallb isTrimmable s = true.
Proof.
  unfold trim. destruct (trimStart_split s) as [H|(ws & c & r & -> & Hws & Hc & E)];
    [easy|].
  rewrite E, trimEnd_cons_keep by easy. easy.
Qed.

End StringFacts.

(* ===================================================================== *)
(** ** The bold pass of [markdownToHtml] *)
(* ===================================================================== *)

Section BoldFacts.

Local Open Scope N_scope.

Arguments match_bold : simpl never.
Arguments replace_bold : simpl never.

Lemma close_bold_eq (c d : char16) (rest : jsstring) :
  close_bold (c :: d :: rest) =
  if (c =? STAR) && (d =? STAR) then Some ([], rest)
  else if isLineTerminator c then None
  else match close_bold (d :: rest) with
       | Some (g, r) => Some (c :: g, r)
       | None => None
       end.
Proof. reflexivity. Qed.

Lemma match_bold_eq (a b c : char16) (s : jsstring) :
  match_bold (a :: b :: c :: s) =
  if (a =? STAR) && (b =? STAR) && negb (isLineTerminator c) then
    match close_bold s with
    | Some (g, r) => Some (c :: g, r)
    | None => None
    end
  else None.
Proof. reflexivity. Qed.

(** A match of [close_bold] splits the text at a closing pair of
    asterisks. *)
Lemma close_bold_split (s g r : jsstring) :
  close_bold s = Some (g, r) ->
  s = g ++ STARS ++ r /\ no_terminator g = true.
Proof.
  revert g r; induction s as [|c s IH]; intros g r; [easy|].
  destruct s as [|d rest]; [easy|]. rewrite close_bold_eq.
  destruct ((c =? STAR) && (d =? STAR)) eqn:E.
  - intros [= <- <-]. apply andb_true_iff in E as [->%N.eqb_eq ->%N.eqb_eq].
    easy.
  - destruct (isLineTerminator c) eqn:Hc; [easy|].
    destruct (close_bold (d :: rest)) as [[g' r']|] eqn:E'; [|easy].
    intros [= <- <-]. destruct (IH _ _ eq_refl) as [-> Hg].
    split; [reflexivity|]. unfold no_terminator in *. cbn [forallb].
    now rewrite Hc, Hg.
Qed.

Lemma match_bold_split (s g r : jsstring) :
  match_bold s = Some (g, r) ->
  s = STARS ++ g ++ STARS ++ r /\ g <> [] /\ no_terminator g = true.
Proof.
  destruct s as [|a [|b [|c s]]]; try easy. rewrite match_bold_eq.
  destruct ((a =? STAR) && (b =? STAR) && negb (isLineTerminator c)) eqn:E;
    [|easy].
  destruct (close_bold s) as [[g' r']|] eqn:E'; [|easy].
  intros [= <- <-].
  apply andb_true_iff in E as [[->%N.eqb_eq ->%N.eqb_eq]%andb_true_iff Hc].
  apply close_bold_split in E' as [-> Hg].
  repeat split; [easy|]. unfold no_terminator in *. cbn [forallb].
  now rewrite Hc, Hg.
Qed.

Lemma match_bold_shorter (s g r : jsstring) :
  match_bold s = Some (g, r) -> (length r < length s)%nat.
Proof.
  intros H. apply match_bold_split in H as [-> _].
  unfold STARS. repeat (rewrite length_app || cbn [length app]). lia.
Qed.

(** The closing pair is found behind any group free of terminators. *)
Lemma close_bold_finds (g r : jsstring) :
  no_terminator g = true -> is_Some (close_bold (g ++ STARS ++ r)).
Proof.
  induction g as [|c g IH]; [simpl; eauto|].
  intros [Hc Hg]%andb_true_iff. apply negb_true_iff in Hc.
  destruct (IH Hg) as [[g' r'] Hgr]. rewrite <- app_comm_cons.
  destruct (g ++ STARS ++ r) as [|d rest] eqn:E; [discriminate|].
  rewrite close_bold_eq.
  destruct ((c =? STAR) && (d =? STAR)); [eauto|]. rewrite Hc, Hgr. eauto.
Qed.

Lemma match_bold_finds (g r : jsstring) :
  g <> [] -> no_terminator g = true ->
  is_Some (match_bold (STARS ++ g ++ STARS ++ r)).
Proof.
  destruct g as [|c g]; [easy|]. intros _ [Hc Hg]%andb_true_iff.
  unfold STARS at 1. cbn [app]. rewrite match_bold_eq, !N.eqb_refl, Hc.
  destruct (close_bold_finds g r Hg) as [[g' r'] ->]. simpl; eauto.
Qed.

Lemma match_bold_head (c : char16) (s : jsstring) :
  c <> STAR -> match_bold (c :: s) = None.
Proof.
  intros H. destruct s as [|b [|d s]]; try easy.
  rewrite match_bold_eq. apply N.eqb_neq in H. now rewrite H.
Qed.

Lemma match_bold_second (c d : char16) (s : jsstring) :
  d <> STAR -> match_bold (c :: d :: s) = None.
Proof.
  intros H. destruct s as [|e s]; try easy.
  rewrite match_bold_eq. apply N.eqb_neq in H. now rewrite H, andb_false_r.
Qed.

(** More fuel than the length of the text changes nothing. *)
Lemma replace_bold_from_enough (n m : nat) (s : jsstring) :
  (length s <= n)%nat -> (length s <= m)%nat ->
  replace_bold_from n s = replace_bold_from m s.
Proof.
  revert m s; induction n as [|n IH]; intros m s Hn Hm.
  - destruct s; simpl in Hn; [|lia]. destruct m; reflexivity.
  - destruct s as [|c s]; [destruct m; reflexivity|].
    destruct m as [|m]; simpl in Hn, Hm; [lia|].
    cbn [replace_bold_from].
    destruct (match_bold (c :: s)) as [[g r]|] eqn:E.
    + apply match_bold_shorter in E; simpl in E.
      do 3 f_equal. apply IH; lia.
    + f_equal. apply IH; lia.
Qed.

Lemma replace_bold_nil : replace_bold [] = [].
Proof. reflexivity. Qed.

(** The defining equation of the bold pass. *)
Lemma replace_bold_cons (c : char16) (s : jsstring) :
  replace_bold (c :: s) =
  match match_bold (c :: s) with
  | Some (g, r) => STRONG_OPEN ++ g ++ STRONG_CLOSE ++ replace_bold r
  | None => c :: replace_bold s
  end.
Proof.
  unfold replace_bold. cbn [length replace_bold_from].
  destruct (match_bold (c :: s)) as [[g r]|] eqn:E; [|reflexivity].
  apply match_bold_shorter in E; simpl in E.
  do 3 f_equal. apply replace_bold_from_enough; lia.
Qed.

(** Induction along the scan. *)
Lemma replace_bold_ind (P : jsstring -> jsstring -> Prop) :
  P [] [] ->
  (forall c s g r, match_bold (c :: s) = Some (g, r) ->
     P r (replace_bold r) ->
     P (c :: s) (STRONG_OPEN ++ g ++ STRONG_CLOSE ++ replace_bold r)) ->
  (forall c s, match_bold (c :: s) = None ->
     P s (replace_bold s) -> P (c :: s) (c :: replace_bold s)) ->
  forall s, P s (replace_bold s).
Proof.
  intros Hnil Hmatch Hcopy s.
  induction s as [s IH] using (induction_ltof1 _ (@length char16)).
  unfold ltof in IH. destruct s as [|c s]; [exact Hnil|].
  rewrite replace_bold_cons.
  destruct (match_bold (c :: s)) as [[g r]|] eqn:E.
  - apply Hmatch; [exact E|]. apply IH. now apply match_bold_shorter in E.
  - apply Hcopy; [exact E|]. apply IH. simpl; lia.
Qed.

Lemma has_bold_span_spec (s : jsstring) :
  has_bold_span s = true <->
  exists pre g post,
    s = pre ++ STARS ++ g ++ STARS ++ post /\ g <> [] /\ no_terminator g = true.
Proof.
  split.
  - induction s as [|c s IH]; cbn [has_bold_span]; [easy|].
    destruct (match_bold (c :: s)) as [[g r]|] eqn:E.
    + intros _. apply match_bold_split in E as (-> & Hg & Hg').
      exists [], g, r. auto.
    + intros H. destruct (IH H) as (pre & g & post & -> & Hg & Hg').
      exists (c :: pre), g, post. auto.
  - intros (pre & g & post & -> & Hg & Hg').
    induction pre as [|c pre IH].
    + destruct (match_bold_finds g post Hg Hg') as [p E].
      unfold STARS in *. cbn [app has_bold_span] in *. now rewrite E.
    + cbn [app has_bold_span].
      destruct (match_bold (c :: pre ++ STARS ++ g ++ STARS ++ post)); auto.
Qed.

(** Without a span the bold pass is the identity. *)
Lemma replace_bold_no_span (s : jsstring) :
  has_bold_span s = false -> replace_bold s = s.
Proof.
  induction s as [|c s IH]; [reflexivity|].
  cbn [has_bold_span]. rewrite replace_bold_cons.
  destruct (match_bold (c :: s)) as [p|] eqn:E; [easy|].
  intros H. now rewrite IH.
Qed.

Example replace_bold_lazy :
  replace_bold (lit "x **bo*ld** y **z**") =
  lit "x <strong>bo*ld</strong> y <strong>z</strong>".
Proof. vm_compute. reflexivity. Qed.

Example replace_bold_unclosed :
  replace_bold (lit "**sin cerrar" ++ [LF] ++ lit "cierre**") =
  lit "**sin cerrar" ++ [LF] ++ lit "cierre**".
Proof. vm_compute. reflexivity. Qed.

Example replace_bold_stars :
  replace_bold (lit "**** ***a**") = lit "<strong>** </strong>*a**".
Proof. vm_compute. reflexivity. Qed.

(** No match crosses a line feed. *)
Lemma close_bold_lf (a b : jsstring) :
  close_bold (a ++ LF :: b) =
  (fun p => (p.1, p.2 ++ LF :: b)) <$> close_bold a.
Proof.
  induction a as [|c a IH].
  - destruct b; reflexivity.
  - destruct a as [|d a].
    + cbn [app]. rewrite close_bold_eq. cbn [app] in IH. rewrite IH.
      replace (LF =? STAR) with false by reflexivity.
      rewrite andb_false_r. destruct (isLineTerminator c); reflexivity.
    + rewrite <- !app_comm_cons, !close_bold_eq.
      destruct ((c =? STAR) && (d =? STAR)); [reflexivity|].
      destruct (isLineTerminator c); [reflexivity|].
      rewrite <- !app_comm_cons in IH. rewrite IH.
      destruct (close_bold (d :: a)) as [[g r]|]; reflexivity.
Qed.

Lemma match_bold_lf (a b : jsstring) :
  match_bold (a ++ LF :: b) =
  (fun p => (p.1, p.2 ++ LF :: b)) <$> match_bold a.
Proof.
  destruct a as [|x [|y [|c a]]].
  - destruct b as [|? [|? ?]]; reflexivity.
  - destruct b as [|? ?]; [reflexivity|]. cbn [app].
    rewrite match_bold_eq. replace (LF =? STAR) with false by reflexivity.
    now rewrite andb_false_r.
  - cbn [app]. rewrite match_bold_eq.
    replace (isLineTerminator LF) with true by reflexivity.
    now rewrite andb_false_r.
  - rewrite <- !app_comm_cons, !match_bold_eq.
    destruct ((x =? STAR) && (y =? STAR) && negb (isLineTerminator c));
      [|reflexivity].
    rewrite close_bold_lf. destruct (close_bold a) as [[g r]|]; reflexivity.
Qed.

Lemma replace_bold_lf (a b : jsstring) :
  replace_bold (a ++ LF :: b) = replace_bold a ++ LF :: replace_bold b.
Proof.
  induction a as [a IH] using (induction_ltof1 _ (@length char16)).
  unfold ltof in IH. destruct a as [|c a].
  - simpl. rewrite replace_bold_cons, match_bold_head; easy.
  - rewrite <- app_comm_cons, !replace_bold_cons.
    rewrite (app_comm_cons a), match_bold_lf.
    destruct (match_bold (c :: a)) as [[g r]|] eqn:E; simpl.
    + rewrite IH by (now apply match_bold_shorter in E).
      now rewrite <- !app_assoc.
    + rewrite IH by (simpl; lia). reflexivity.
Qed.

Lemma replace_bold_keeps_line (s : jsstring) :
  LF ∉ s -> LF ∉ replace_bold s.
Proof.
  apply (replace_bold_ind (fun s out => LF ∉ s -> LF ∉ out)).
  - easy.
  - intros c s' g r E IH H. apply match_bold_split in E as (E & _ & _).
    rewrite E in H. unfold STARS in H.
    rewrite !not_elem_of_app in *. destruct H as (_ & Hg & _ & Hr).
    repeat split; auto.
    + vm_compute. intros H; repeat (apply elem_of_cons in H as [H|H]; [discriminate|]). inversion H.
    + vm_compute. intros H; repeat (apply elem_of_cons in H as [H|H]; [discriminate|]). inversion H.
  - intros c s' E IH H. apply not_elem_of_cons in H as [? ?].
    apply not_elem_of_cons; auto.
Qed.

(** The bold pass works line by line. *)
Lemma split_lf_replace_bold (s : jsstring) :
  split_lf (replace_bold s) = map replace_bold (split_lf s).
Proof.
  induction s as [s IH] using (induction_ltof1 _ (@length char16)).
  unfold ltof in IH.
  destruct (first_line s) as [H|(a & b & -> & Ha)].
  - rewrite (split_lf_single s H).
    now rewrite (split_lf_single _ (replace_bold_keeps_line s H)).
  - rewrite replace_bold_lf, !split_lf_app, List.map_app.
    rewrite (split_lf_single a Ha).
    rewrite (split_lf_single _ (replace_bold_keeps_line a Ha)).
    rewrite IH; [reflexivity|]. rewrite length_app; simpl; lia.
Qed.

End BoldFacts.

Section LineFacts.

Local Open Scope N_scope.
Arguments match_bold : simpl never.
Arguments replace_bold : simpl never.

Lemma truthy_trim (s : jsstring) : truthy (trim s) = negb (is_blank s).
Proof.
  unfold is_blank. destruct (trim s) eqn:E; simpl.
  - now rewrite (trim_nil_blank s E).
  - destruct (forallb isTrimmable s) eqn:B; [|reflexivity].
    now rewrite trim_blank in E.
Qed.

Lemma trimmable_not_star (c : char16) : isTrimmable c = true -> c <> STAR.
Proof. intros H ->. discriminate H. Qed.

Lemma replace_bold_app_blank (ws s : jsstring) :
  is_blank ws = true -> replace_bold (ws ++ s) = ws ++ replace_bold s.
Proof.
  induction ws as [|c ws IH]; [reflexivity|].
  intros [Hc Hws]%andb_true_iff. rewrite <- !app_comm_cons.
  rewrite replace_bold_cons, match_bold_head by now apply trimmable_not_star.
  now rewrite IH.
Qed.

Lemma replace_bold_blank (s : jsstring) :
  is_blank s = true -> replace_bold s = s.
Proof.
  intros H. rewrite <- (app_nil_r s) at 1.
  rewrite replace_bold_app_blank by easy. now rewrite replace_bold_nil, app_nil_r.
Qed.

Lemma STRONG_OPEN_head : exists t, STRONG_OPEN = 60 :: t.
Proof. eexists. vm_compute. reflexivity. Qed.

Lemma replace_bold_is_blank (s : jsstring) :
  is_blank (replace_bold s) = is_blank s.
Proof.
  destruct (is_blank s) eqn:B; [now rewrite replace_bold_blank|].
  revert B. apply (replace_bold_ind (fun s out =>
    is_blank s = false -> is_blank out = false)).
  - easy.
  - intros c s' g r _ _ _. destruct STRONG_OPEN_head as [t ->]. reflexivity.
  - intros c s' _ IH. unfold is_blank; cbn [forallb].
    destruct (isTrimmable c); [exact IH|reflexivity].
Qed.

(** A bullet line: blanks, an asterisk, a space and a rest that is not
    blank (the space would be trimmed away otherwise). *)
Lemma is_bullet_line_split (ws : jsstring) (c : char16) (r : jsstring) :
  is_blank ws = true -> isTrimmable c = false ->
  is_bullet_line (ws ++ c :: r) =
  (c =? STAR) && match r with
                 | d :: rest => (d =? SPACE) && negb (is_blank rest)
                 | [] => false
                 end.
Proof.
  intros Hws Hc. unfold is_bullet_line, trim.
  rewrite trimStart_app_blank by easy. cbn [trimStart]. rewrite Hc.
  rewrite trimEnd_cons_keep by easy.
  change BULLET with [STAR; SPACE]. cbn [startsWith]. f_equal.
  destruct r as [|d rest]; [reflexivity|]. cbn [trimEnd].
  destruct (trimEnd rest) eqn:E.
  - rewrite (trimEnd_nil_blank rest E : is_blank rest = true).
    rewrite andb_false_r. destruct (isTrimmable d) eqn:Hd; [reflexivity|].
    cbn [startsWith]. destruct (N.eqb_spec d SPACE) as [->|]; [discriminate|].
    reflexivity.
  - cbn [startsWith]. f_equal.
    destruct (is_blank rest) eqn:B; [|reflexivity].
    now rewrite (trimEnd_blank rest B) in E.
Qed.

Lemma is_bullet_line_blank (s : jsstring) :
  is_blank s = true -> is_bullet_line s = false.
Proof. intros H. unfold is_bullet_line. now rewrite trim_blank. Qed.

(** The bold pass turns no line into a bullet line and no bullet line
    into something else. *)
Lemma replace_bold_is_bullet (l : jsstring) :
  is_bullet_line (replace_bold l) = is_bullet_line l.
Proof.
  destruct (trimStart_split l) as [B|(ws & c & r & -> & Hws & Hc & _)].
  { now rewrite replace_bold_blank. }
  rewrite replace_bold_app_blank by easy.
  rewrite (is_bullet_line_split ws c r) by easy.
  destruct STRONG_OPEN_head as [so Hso].
  rewrite replace_bold_cons.
  destruct (match_bold (c :: r)) as [[g r']|] eqn:E.
  - (* the line starts with a bold span *)
    rewrite Hso, <- app_comm_cons, is_bullet_line_split by easy.
    apply match_bold_split in E as (E & _ & _). injection E as -> ->.
    reflexivity.
  - rewrite is_bullet_line_split by easy.
    destruct (N.eqb_spec c STAR) as [->|Hne]; [|reflexivity].
    cbn [andb]. destruct r as [|d rest].
    { now rewrite replace_bold_nil. }
    rewrite replace_bold_cons.
    destruct (match_bold (d :: rest)) as [[g r']|] eqn:E'.
    + rewrite Hso, <- app_comm_cons.
      apply match_bold_split in E' as (E' & _ & _). injection E' as -> ->.
      reflexivity.
    + now rewrite replace_bold_is_blank.
Qed.

(** *** The loop over the lines *)

Lemma render_lines_eq (ls : list jsstring) :
  render_lines ls = finish (foldl render_line (RenderState false []) ls).
Proof. reflexivity. Qed.

Lemma render_line_prefix (b : bool) (h : jsstring) (l : jsstring) :
  render_line (RenderState b h) l =
  let st := render_line (RenderState b []) l in
  RenderState (inList st) (h ++ html st).
Proof.
  unfold render_line; cbn [inList html].
  destruct (startsWith (trim l) BULLET); cbn [inList html].
  - destruct b; cbn [negb app]; now rewrite ?app_assoc.
  - destruct b, (truthy (trim l)); cbn [app]; now rewrite ?app_assoc, ?app_nil_r.
Qed.

Lemma foldl_render_prefix (ls : list jsstring) (b : bool) (h : jsstring) :
  foldl render_line (RenderState b h) ls =
  let st := foldl render_line (RenderState b []) ls in
  RenderState (inList st) (h ++ html st).
Proof.
  revert b h; induction ls as [|l ls IH]; intros b h; cbn [foldl].
  - cbn. now rewrite app_nil_r.
  - rewrite render_line_prefix. cbn zeta.
    destruct (render_line (RenderState b []) l) as [b' h'] eqn:E.
    cbn [inList html]. rewrite IH. rewrite (IH b' h'). cbn zeta.
    cbn [inList html]. now rewrite app_assoc.
Qed.

(** A line that is not a bullet line closes the list and leaves the loop
    in its initial mode: the lines behind it render on their own. *)
Lemma render_lines_break (ls1 : list jsstring) (l : jsstring)
    (ls2 : list jsstring) :
  is_bullet_line l = false ->
  render_lines (ls1 ++ l :: ls2) =
  render_lines ls1 ++ paragraph l ++ render_lines ls2.
Proof.
  intros Hl. rewrite !render_lines_eq, foldl_app. cbn [foldl].
  destruct (foldl render_line (RenderState false []) ls1) as [b h].
  unfold render_line at 2. cbn [inList html].
  unfold is_bullet_line in Hl. rewrite Hl. rewrite truthy_trim.
  rewrite foldl_render_prefix. cbn zeta.
  unfold finish at 1 2. cbn [inList html].
  unfold paragraph.
  destruct (foldl render_line (RenderState false []) ls2) as [b2 h2].
  unfold finish; cbn [inList html].
  destruct b, (is_blank l), b2; cbn [negb app]; now rewrite <- ?app_assoc.
Qed.

Lemma render_lines_paragraphs (ls : list jsstring) :
  forallb (fun l => negb (is_bullet_line l)) ls = true ->
  render_lines ls = concat (map paragraph ls).
Proof.
  induction ls as [|l ls IH]; [reflexivity|]. cbn [forallb map concat].
  intros [Hl Hls]%andb_true_iff. apply negb_true_iff in Hl.
  change (l :: ls) with ([] ++ l :: ls).
  rewrite (render_lines_break [] l ls Hl). cbn [app]. now rewrite IH.
Qed.

(** Inside a run of bullet lines. *)
Lemma foldl_render_bullets (bs : list jsstring) (h : jsstring) :
  forallb is_bullet_line bs = true ->
  foldl render_line (RenderState true h) bs =
  RenderState true (h ++ concat (map list_item bs)).
Proof.
  revert h; induction bs as [|l bs IH]; intros h; cbn [forallb foldl map concat].
  - intros _. now rewrite app_nil_r.
  - intros [Hl Hbs]%andb_true_iff. unfold render_line at 2.
    cbn [inList html negb]. unfold is_bullet_line in Hl. rewrite Hl.
    rewrite IH by easy. unfold list_item. now rewrite <- !app_assoc.
Qed.

Lemma render_lines_bullets (bs : list jsstring) :
  bs <> [] -> forallb is_bullet_line bs = true ->
  render_lines bs = UL_OPEN ++ concat (map list_item bs) ++ UL_CLOSE.
Proof.
  destruct bs as [|l bs]; [easy|]. intros _ [Hl Hbs]%andb_true_iff.
  rewrite render_lines_eq. cbn [foldl]. unfold render_line at 2.
  cbn [inList html negb app]. unfold is_bullet_line in Hl. rewrite Hl.
  rewrite foldl_render_bullets by easy. unfold finish; cbn [inList html map concat].
  unfold list_item. now rewrite <- !app_assoc.
Qed.

Lemma render_lines_last_bullet (ls : list jsstring) (l : jsstring) :
  is_bullet_line l = true ->
  exists body, render_lines (ls ++ [l]) = body ++ list_item l ++ UL_CLOSE.
Proof.
  intros Hl. rewrite render_lines_eq, foldl_app. cbn [foldl].
  destruct (foldl render_line (RenderState false []) ls) as [b h].
  unfold render_line. cbn [inList html]. unfold is_bullet_line in Hl; rewrite Hl.
  unfold finish; cbn [inList html]. unfold list_item.
  eexists (if negb b then h ++ UL_OPEN else h). now rewrite <- !app_assoc.
Qed.

(** The renderer in terms of the lines of its input. *)
Lemma markdownToHtml_lines (t : jsstring) :
  markdownToHtml (Some t) = render_lines (map replace_bold (split_lf t)).
Proof.
  destruct t as [|c t]; [reflexivity|].
  unfold markdownToHtml. now rewrite split_lf_replace_bold.
Qed.

End LineFacts.

Section RendererClaims.

Local Open Scope N_scope.

(** C3 (amended).  For an input with no bold span and no bullet line the
    output is, line by line, one paragraph per line that is not blank,
    holding that line trimmed; so a one-line input that is not blank
    yields its trimmed text wrapped in one paragraph.  (Rendering is not
    idempotent: see [markdownToHtml_not_idempotent].) *)
Theorem markdownToHtml_plain (t : jsstring) :
  has_bold_span t = false ->
  forallb (fun l => negb (is_bullet_line l)) (split_lf t) = true ->
  markdownToHtml (Some t) = concat (map paragraph (split_lf t))
  /\ (LF ∉ t -> is_blank t = false ->
      markdownToHtml (Some t) = P_OPEN ++ trim t ++ P_CLOSE).
Proof.
  intros Hb Hl.
  assert (markdownToHtml (Some t) = concat (map paragraph (split_lf t))) as E.
  { rewrite markdownToHtml_lines.
    assert (map replace_bold (split_lf t) = split_lf t) as ->.
    { rewrite <- split_lf_replace_bold. now rewrite replace_bold_no_span. }
    now apply render_lines_paragraphs. }
  split; [exact E|]. intros Hlf Hnb. rewrite E, split_lf_single by easy.
  cbn [map concat]. unfold paragraph. rewrite Hnb. now rewrite app_nil_r.
Qed.

Lemma markdownToHtml_plain_witness :
  let t := lit "  Hola, " ++ [LF] ++ [LF] ++ lit "mundo" in
  has_bold_span t = false
  /\ forallb (fun l => negb (is_bullet_line l)) (split_lf t) = true
  /\ markdownToHtml (Some t) =
     P_OPEN ++ lit "Hola," ++ P_CLOSE ++ P_OPEN ++ lit "mundo" ++ P_CLOSE.
Proof.
  intros t. split; [reflexivity|]. split; [reflexivity|].
  exact (eq_trans (proj1 (markdownToHtml_plain t eq_refl eq_refl)) eq_refl).
Defined.

(** C3, as stated, fails: rendering the rendered text again wraps it
    in a second paragraph, and an input of two lines is not wrapped in one
    paragraph. *)
Lemma markdownToHtml_not_idempotent :
  let a := lit "a" in
  let ab := lit "a" ++ [LF] ++ lit "b" in
  (has_bold_span a = false
   /\ forallb (fun l => negb (is_bullet_line l)) (split_lf a) = true
   /\ markdownToHtml (Some a) = P_OPEN ++ a ++ P_CLOSE
   /\ markdownToHtml (Some (markdownToHtml (Some a)))
      = P_OPEN ++ P_OPEN ++ a ++ P_CLOSE ++ P_CLOSE
   /\ markdownToHtml (Some (markdownToHtml (Some a))) <> markdownToHtml (Some a))
  /\ (has_bold_span ab = false
      /\ forallb (fun l => negb (is_bullet_line l)) (split_lf ab) = true
      /\ markdownToHtml (Some ab)
         = P_OPEN ++ lit "a" ++ P_CLOSE ++ P_OPEN ++ lit "b" ++ P_CLOSE
      /\ markdownToHtml (Some ab) <> P_OPEN ++ ab ++ P_CLOSE).
Proof.
  vm_compute. repeat split; discriminate.
Qed.

(** C4.  On "a\n* b\n* c\nd" the renderer emits the paragraph "a", one
    list with the items "b" and "c", and the paragraph "d".  A text whose
    lines are all bullet lines becomes one list block with one item per
    line; a text whose last line is a bullet line ends with that item
    followed by the closing tag of the list. *)
Theorem markdownToHtml_lists :
  markdownToHtml
    (Some (lit "a" ++ [LF] ++ lit "* b" ++ [LF] ++ lit "* c" ++ [LF] ++ lit "d"))
  = P_OPEN ++ lit "a" ++ P_CLOSE
    ++ UL_OPEN ++ LI_OPEN ++ lit "b" ++ LI_CLOSE
               ++ LI_OPEN ++ lit "c" ++ LI_CLOSE ++ UL_CLOSE
    ++ P_OPEN ++ lit "d" ++ P_CLOSE
  /\ (forall t,
        forallb is_bullet_line (split_lf t) = true ->
        markdownToHtml (Some t) =
        UL_OPEN ++ concat (map (fun l => list_item (replace_bold l)) (split_lf t))
                ++ UL_CLOSE)
  /\ (forall t l,
        last (split_lf t) = Some l -> is_bullet_line l = true ->
        exists body,
          markdownToHtml (Some t) =
          body ++ list_item (replace_bold l) ++ UL_CLOSE).
Proof.
  split; [vm_compute; reflexivity|]. split.
  - intros t Hb. rewrite markdownToHtml_lines.
    rewrite render_lines_bullets.
    + now rewrite List.map_map.
    + pose proof (split_lf_nonempty t). now destruct (split_lf t).
    + rewrite forallb_forall in *. intros l' Hl'.
      apply List.in_map_iff in Hl' as (l & <- & Hl).
      rewrite replace_bold_is_bullet. now apply Hb.
  - intros t l Hlast Hb. rewrite markdownToHtml_lines.
    apply last_Some in Hlast as [ls ->].
    rewrite List.map_app. cbn [map].
    apply render_lines_last_bullet. now rewrite replace_bold_is_bullet.
Qed.

Lemma markdownToHtml_lists_witness :
  let t := lit "Requisitos:" ++ [LF] ++ lit "* **cedula**" in
  last (split_lf t) = Some (lit "* **cedula**")
  /\ is_bullet_line (lit "* **cedula**") = true
  /\ exists body,
       markdownToHtml (Some t) =
       body ++ list_item (replace_bold (lit "* **cedula**")) ++ UL_CLOSE.
Proof.
  intros t. split; [reflexivity|]. split; [reflexivity|].
  exact (proj2 (proj2 markdownToHtml_lists) t (lit "* **cedula**")
           eq_refl eq_refl).
Defined.

(** C10.  The renderer returns the empty string for an absent and for an
    empty input.  A blank line of the input adds nothing to the output: the
    output is the rendering of the lines before it (a list open there is
    closed) followed by the rendering of the lines after it.  A line that
    is neither blank nor a bullet line is emitted as a paragraph between
    the renderings of the lines before and after it, and the paragraph
    holds the line, after the bold pass, without its surrounding
    whitespace: the line is a blank prefix, the text of the paragraph and
    a blank suffix, and the text of the paragraph begins and ends with a
    code unit that is not whitespace. *)
Theorem markdownToHtml_blank_and_plain_lines :
  markdownToHtml None = []
  /\ markdownToHtml (Some []) = []
  /\ (forall t ls1 b ls2,
        split_lf t = ls1 ++ b :: ls2 -> is_blank b = true ->
        markdownToHtml (Some t) =
        render_lines (map replace_bold ls1) ++ render_lines (map replace_bold ls2))
  /\ (forall t ls1 l ls2,
        split_lf t = ls1 ++ l :: ls2 ->
        is_bullet_line l = false -> is_blank l = false ->
        exists pre body post,
          replace_bold l = pre ++ body ++ post
          /\ forallb isTrimmable pre = true
          /\ forallb isTrimmable post = true
          /\ (exists c r, body = c :: r /\ isTrimmable c = false)
          /\ (exists r c, body = r ++ [c] /\ isTrimmable c = false)
          /\ body = trim (replace_bold l)
          /\ markdownToHtml (Some t) =
             render_lines (map replace_bold ls1)
             ++ P_OPEN ++ body ++ P_CLOSE
             ++ render_lines (map replace_bold ls2)).
Proof.
  split; [reflexivity|]. split; [reflexivity|]. split.
  - intros t ls1 b ls2 Hs Hb.
    rewrite markdownToHtml_lines, Hs, List.map_app. cbn [map].
    rewrite render_lines_break
      by (rewrite replace_bold_is_bullet; now apply is_bullet_line_blank).
    unfold paragraph. now rewrite replace_bold_is_blank, Hb.
  - intros t ls1 l ls2 Hs Hl Hb.
    assert (forallb isTrimmable (replace_bold l) = false) as Hb'
      by (fold (is_blank (replace_bold l)); now rewrite replace_bold_is_blank).
    destruct (trim_split (replace_bold l) Hb')
      as (pre & post & E & Hpre & Hpost & Hhead & Hlast).
    exists pre, (trim (replace_bold l)), post.
    split; [exact E|]. split; [exact Hpre|]. split; [exact Hpost|].
    split; [exact Hhead|]. split; [exact Hlast|]. split; [reflexivity|].
    rewrite markdownToHtml_lines, Hs, List.map_app. cbn [map].
    rewrite render_lines_break by (now rewrite replace_bold_is_bullet).
    unfold paragraph. rewrite replace_bold_is_blank, Hb.
    now rewrite <- !app_assoc.
Qed.

Lemma markdownToHtml_blank_and_plain_lines_witness :
  let t := lit "* uno" ++ [LF] ++ lit "   " ++ [LF] ++ lit "  **dos** " in
  (split_lf t = [lit "* uno"] ++ lit "   " :: [lit "  **dos** "]
   /\ is_blank (lit "   ") = true
   /\ markdownToHtml (Some t) =
      (UL_OPEN ++ LI_OPEN ++ lit "uno" ++ LI_CLOSE ++ UL_CLOSE)
      ++ (P_OPEN ++ lit "<strong>dos</strong>" ++ P_CLOSE))
  /\ (split_lf t = [lit "* uno"; lit "   "] ++ lit "  **dos** " :: []
      /\ is_bullet_line (lit "  **dos** ") = false
      /\ is_blank (lit "  **dos** ") = false
      /\ replace_bold (lit "  **dos** ")
         = lit "  " ++ lit "<strong>dos</strong>" ++ lit " "
      /\ markdownToHtml (Some t) =
         (UL_OPEN ++ LI_OPEN ++ lit "uno" ++ LI_CLOSE ++ UL_CLOSE)
         ++ P_OPEN ++ lit "<strong>dos</strong>" ++ P_CLOSE).
Proof.
  intros t.
  destruct markdownToHtml_blank_and_plain_lines as (_ & _ & Hblank & Hplain).
  split.
  - split; [reflexivity|]. split; [reflexivity|].
    exact (eq_trans
             (Hblank t [lit "* uno"] (lit "   ") [lit "  **dos** "]
                eq_refl eq_refl)
             eq_refl).
  - split; [reflexivity|]. split; [reflexivity|]. split; [reflexivity|].
    split; [vm_compute; reflexivity|].
    destruct (Hplain t [lit "* uno"; lit "   "] (lit "  **dos** ") []
                eq_refl eq_refl eq_refl)
      as (pre & body & post & _ & _ & _ & _ & _ & Hbody & E).
    subst body. exact (eq_trans E eq_refl).
Defined.

End RendererClaims.

(* ===================================================================== *)
(** ** The chat session *)
(* ===================================================================== *)

Section SessionFacts.

Context {parser : HtmlParser}.

Implicit Types (s : chat) (id : nat) (d : N) (e : Chatbot.event).

(** The invariant reads six fields only. *)
Lemma inv_frame s s' :
  timers s' = timers s -> sessionTimeout s' = sessionTimeout s ->
  sessionActive s' = sessionActive s ->
  clears_in_flight s' = clears_in_flight s ->
  clears_settling s' = clears_settling s ->
  next_timer s' = next_timer s ->
  inv s -> inv s'.
Proof.
  intros Ht Hst Ha Hf Hs Hn [H1 H2 H3 H4 H5 H6 H7].
  split; rewrite ?Ht, ?Hst, ?Ha, ?Hf, ?Hs, ?Hn; assumption.
Qed.

Lemma inv_page_load flex ms inp : inv (page_load flex ms inp).
Proof.
  split; cbn.
  - intros id d H. now rewrite lookup_empty in H.
  - intros _. repeat split. intros id d H. now rewrite lookup_empty in H.
  - intros id id' d d' H. now rewrite lookup_empty in H.
  - intros id d H. now rewrite lookup_empty in H.
  - lia.
  - split; [apply lookup_empty|lia].
  - easy.
Qed.

Lemma inv_say now text sender s : inv s -> inv (say now text sender s).
Proof.
  unfold say. destruct (addMessage _ _ _ _); [|easy].
  apply inv_frame; reflexivity.
Qed.

Lemma inv_clearTimeout id s : inv s -> inv (clearTimeout id s).
Proof.
  intros [H1 H2 H3 H4 H5 H6 H7]. split; cbn.
  - intros i d [_ H]%lookup_delete_Some; eauto.
  - intros Ha. destruct (H2 Ha) as (Hf & Hc1 & Hc2). repeat split; auto.
    intros i d [_ H]%lookup_delete_Some. exact (Hf _ _ H).
  - intros i i' d d' [_ H]%lookup_delete_Some [_ H']%lookup_delete_Some; eauto.
  - intros i d [_ H]%lookup_delete_Some; eauto.
  - exact H5.
  - split; [|apply H6]. apply lookup_delete_None. right; apply H6.
  - exact H7.
Qed.

Lemma inv_clear_sessionTimeout s : inv s -> inv (clear_sessionTimeout s).
Proof.
  unfold clear_sessionTimeout. destruct (sessionTimeout s) as [[|n]|]; auto.
  apply inv_clearTimeout.
Qed.

Lemma clear_sessionTimeout_fields s :
  sessionTimeout (clear_sessionTimeout s) = sessionTimeout s
  /\ sessionActive (clear_sessionTimeout s) = sessionActive s
  /\ next_timer (clear_sessionTimeout s) = next_timer s.
Proof.
  unfold clear_sessionTimeout.
  destruct (sessionTimeout s) as [[|n]|] eqn:E; cbn; auto.
Qed.

(** After the guard-and-clear no inactivity timer is left. *)
Lemma clear_sessionTimeout_none s id d :
  inv s -> timers (clear_sessionTimeout s) !! id <> Some (Timer InactivityTimer d).
Proof.
  intros I H. unfold clear_sessionTimeout in H.
  destruct (sessionTimeout s) as [[|n]|] eqn:E;
    unfold clearTimeout in H; cbn [timers set_timers] in H.
  - destruct (inv_inactivity s I _ _ H) as [Hid _].
    rewrite E in Hid. injection Hid as <-.
    destruct (inv_handles s I) as [H0 _]. congruence.
  - apply lookup_delete_Some in H as [Hne H].
    destruct (inv_inactivity s I _ _ H) as [Hid _]. congruence.
  - destruct (inv_inactivity s I _ _ H) as [Hid _]. congruence.
Qed.

(** Scheduling a timer that is neither the inactivity timer nor the
    farewell delay. *)
Lemma inv_setTimeout_other k d s :
  k <> InactivityTimer -> k <> FarewellTimer ->
  inv s -> inv (setTimeout k d s).2.
Proof.
  intros Hk1 Hk2 [H1 H2 H3 H4 H5 H6 H7]. split; cbn.
  - intros i d' [[_ [=]]|[_ H]]%lookup_insert_Some; [congruence|eauto].
  - intros Ha. destruct (H2 Ha) as (Hf & Hc1 & Hc2). repeat split; auto.
    intros i d' [[_ [=]]|[_ H]]%lookup_insert_Some; [congruence|].
    exact (Hf _ _ H).
  - intros i i' d1 d2 [[_ [=]]|[_ H]]%lookup_insert_Some; [congruence|].
    intros [[_ [=]]|[_ H']]%lookup_insert_Some; [congruence|eauto].
  - intros i d' [[_ [=]]|[_ H]]%lookup_insert_Some; [congruence|eauto].
  - exact H5.
  - split; [|lia]. apply lookup_insert_None. split; [apply H6|lia].
  - intros i Hi. specialize (H7 _ Hi). lia.
Qed.

Lemma inv_resetInactivityTimer s : inv s -> inv (resetInactivityTimer s).
Proof.
  intros I. unfold resetInactivityTimer.
  pose proof (inv_clear_sessionTimeout s I) as I1.
  pose proof (clear_sessionTimeout_none s) as Hnone.
  destruct (sessionActive (clear_sessionTimeout s)) eqn:Ha; [|exact I1].
  set (s1 := clear_sessionTimeout s) in *.
  destruct I1 as [H1 H2 H3 H4 H5 H6 H7]. destruct (H2 Ha) as (Hf & Hc1 & Hc2).
  split; cbn.
  - intros i d' [[<- _]|[_ H]]%lookup_insert_Some; [auto|].
    exfalso; exact (Hnone _ _ I H).
  - intros _. repeat split; auto.
    intros i d' [[_ [=]]|[_ H]]%lookup_insert_Some. exact (Hf _ _ H).
  - intros i i' d1 d2 [[_ [=]]|[_ H]]%lookup_insert_Some.
    exfalso; exact (Hf _ _ H).
  - intros i d' [[_ [=]]|[_ H]]%lookup_insert_Some. eauto.
  - exact H5.
  - split; [|lia]. apply lookup_insert_None. split; [apply H6|lia].
  - intros i [= <-]. lia.
Qed.

Lemma inv_activity s : inv s -> inv (activity s).
Proof.
  unfold activity. destruct (sessionActive s); auto using inv_resetInactivityTimer.
Qed.

Lemma inv_sendMessage_catch now s : inv s -> inv (sendMessage_catch now s).
Proof.
  intros I. unfold sendMessage_catch. apply inv_say.
  revert I; apply inv_frame; reflexivity.
Qed.

Lemma inv_sendMessage now s : inv s -> inv (sendMessage now s).
Proof.
  intros I. unfold sendMessage. destruct (eqb _ _); [exact I|].
  pose proof (inv_say now (Some (trim (input_value s))) USER _
                (inv_resetInactivityTimer s I)) as I2.
  cbv zeta. destruct (isWellFormed _).
  - revert I2; apply inv_frame; reflexivity.
  - apply inv_sendMessage_catch. revert I2; apply inv_frame; reflexivity.
Qed.

Lemma inv_sendMessage_resume now o s : inv s -> inv (sendMessage_resume now o s).
Proof.
  intros I. unfold sendMessage_resume.
  assert (inv (set_messages (removeTypingIndicator (messages s)) s)) as I1
    by (revert I; apply inv_frame; reflexivity).
  destruct o; auto using inv_say, inv_resetInactivityTimer.
Qed.

Lemma inv_chatBtn_click s : inv s -> inv (chatBtn_click s).
Proof.
  intros I. unfold chatBtn_click.
  assert (inv (chatBtn_toggle s)) as I1.
  { unfold chatBtn_toggle. destruct (display_flex s).
    - revert I; apply inv_frame; reflexivity.
    - cbn [greeted set_display_flex]. destruct (greeted s); cbn [negb].
      + revert I; apply inv_frame; reflexivity.
      + assert (inv (set_display_flex true s)) as I'
          by (revert I; apply inv_frame; reflexivity).
        apply (inv_setTimeout_other GreetingTimer 300) in I'; [|easy..].
        destruct (setTimeout _ _ _) as [i s2]. revert I'.
        apply inv_frame; reflexivity. }
  unfold chatBtn_session.
  destruct (display_flex _); cbn [negb];
    auto using inv_resetInactivityTimer, inv_clear_sessionTimeout.
Qed.

(** The timer callback that starts the timeout sequence. *)
Lemma inv_handleSessionTimeout now id d s :
  timers s !! id = Some (Timer InactivityTimer d) ->
  inv s -> inv (handleSessionTimeout now (clearTimeout id s)).
Proof.
  intros Hid I. destruct (inv_inactivity s I _ _ Hid) as [Hst Ha].
  destruct (inv_active s I Ha) as (Hf & Hc1 & Hc2).
  pose proof (inv_handles s I) as [H0 Hn].
  unfold handleSessionTimeout, say.
  destruct (addMessage _ _ _ _) as [ms|]; split; cbn;
    try solve
      [ intros i d' [[_ [=]]|[_ [Hne H]%lookup_delete_Some]]%lookup_insert_Some;
        destruct (inv_inactivity s I _ _ H) as [Hst' _]; congruence
      | easy
      | intros i i' d1 d2 [[<- _]|[_ [_ H]%lookup_delete_Some]]%lookup_insert_Some;
        [|exfalso; exact (Hf _ _ H)];
        intros [[<- _]|[_ [_ H]%lookup_delete_Some]]%lookup_insert_Some;
        [reflexivity|exfalso; exact (Hf _ _ H)]
      | lia
      | split; [|lia]; apply lookup_insert_None; split; [|lia];
        apply lookup_delete_None; auto
      | intros i Hi; pose proof (inv_fresh s I i Hi); lia ].
Qed.

(** The timer callback that issues the clear request. *)
Lemma inv_clearConversation id d s :
  timers s !! id = Some (Timer FarewellTimer d) ->
  inv s -> inv (clearConversation (clearTimeout id s)).
Proof.
  intros Hid I. destruct (inv_farewell s I _ _ Hid) as [Hc1 Hc2].
  assert (sessionActive s = false) as Ha.
  { destruct (sessionActive s) eqn:Ha; [|reflexivity].
    destruct (inv_active s I Ha) as (Hf & _). exfalso; exact (Hf _ _ Hid). }
  destruct I as [H1 H2 H3 H4 H5 H6 H7]. split; cbn; [| | | | | |exact H7].
  - intros i d' [_ H]%lookup_delete_Some; eauto.
  - congruence.
  - intros i i' d1 d2 [_ H]%lookup_delete_Some [_ H']%lookup_delete_Some; eauto.
  - intros i d' [Hne H]%lookup_delete_Some.
    exfalso; apply Hne. eapply H3; eauto.
  - lia.
  - split; [|apply H6]. apply lookup_delete_None. right; apply H6.
Qed.

Lemma inv_clearConversation_resume o n s :
  clears_in_flight s = S n ->
  inv s -> inv (clearConversation_resume o (set_clears_in_flight n s)).
Proof.
  intros Hn [H1 H2 H3 H4 H5 H6 H7].
  assert (n = O /\ clears_settling s = O) as [-> Hs] by lia.
  assert (inv (set_clears_settling 1 (set_clears_in_flight O s))) as I.
  { split; cbn.
    - exact H1.
    - intros Ha. destruct (H2 Ha) as (_ & ? & _). congruence.
    - exact H3.
    - intros i d H. destruct (H4 _ _ H). congruence.
    - lia.
    - exact H6.
    - exact H7. }
  unfold clearConversation_resume.
  destruct o; cbn [clears_settling set_messages set_clears_in_flight];
    rewrite Hs; revert I; apply inv_frame; reflexivity.
Qed.

Lemma inv_handleSessionTimeout_resume n s :
  clears_settling s = S n ->
  inv s -> inv (handleSessionTimeout_resume (set_clears_settling n s)).
Proof.
  intros Hn [H1 H2 H3 H4 H5 H6 H7].
  assert (n = O /\ clears_in_flight s = O) as [-> Hs] by lia.
  assert (sessionActive s = false) as Ha.
  { destruct (sessionActive s) eqn:Ha; [|reflexivity].
    destruct (H2 eq_refl) as (_ & _ & ?). congruence. }
  split; cbn.
  - intros i d H. destruct (H1 _ _ H). congruence.
  - intros _. repeat split; auto.
    intros i d H. destruct (H4 _ _ H). congruence.
  - exact H3.
  - intros i d H. destruct (H4 _ _ H). congruence.
  - lia.
  - exact H6.
  - exact H7.
Qed.

Lemma inv_step now e s s' : Chatbot.step now e s = Some s' -> inv s -> inv s'.
Proof.
  intros Hstep I. destruct e; unfold Chatbot.step in Hstep.
  - injection Hstep as <-. now apply inv_chatBtn_click.
  - injection Hstep as <-. revert I; apply inv_frame; reflexivity.
  - injection Hstep as <-. apply inv_activity.
    revert I; apply inv_frame; reflexivity.
  - injection Hstep as <-. now apply inv_activity.
  - injection Hstep as <-. now apply inv_activity, inv_sendMessage.
  - injection Hstep as <-. destruct (eqb key ENTER); auto using inv_sendMessage.
  - injection Hstep as <-. revert I; apply inv_frame; reflexivity.
  - injection Hstep as <-. destruct (truthy transcript); [|exact I].
    apply (inv_setTimeout_other AutoSubmitTimer 500
             (set_input_value transcript s)); [easy..|].
    revert I; apply inv_frame; reflexivity.
  - destruct (timers s !! id) as [[k d]|] eqn:Hid; [|easy].
    injection Hstep as <-. cbn [kind]. destruct k.
    + now apply inv_say, inv_clearTimeout.
    + now apply (inv_handleSessionTimeout now id d).
    + now apply (inv_clearConversation id d).
    + destruct (truthy _); auto using inv_sendMessage, inv_clearTimeout.
  - destruct (sends_in_flight s) as [|n] eqn:Hn; [easy|].
    injection Hstep as <-. apply inv_sendMessage_resume.
    revert I; apply inv_frame; reflexivity.
  - destruct (clears_in_flight s) as [|n] eqn:Hn; [easy|].
    injection Hstep as <-. now apply inv_clearConversation_resume.
  - destruct (clears_settling s) as [|n] eqn:Hn; [easy|].
    injection Hstep as <-. now apply inv_handleSessionTimeout_resume.
Qed.

Lemma inv_run tr s s' : Chatbot.run tr s = Some s' -> inv s -> inv s'.
Proof.
  revert s; induction tr as [|[now e] tr IH]; intros s; cbn [Chatbot.run].
  - now intros [= <-].
  - destruct (Chatbot.step now e s) as [s1|] eqn:E; [|easy].
    intros H I. apply (IH s1 H). exact (inv_step now e s s1 E I).
Qed.

Lemma run_app (tr1 tr2 : list (jsstring * Chatbot.event)) s :
  Chatbot.run (tr1 ++ tr2) s =
  match Chatbot.run tr1 s with
  | Some s' => Chatbot.run tr2 s'
  | None => None
  end.
Proof.
  revert s; induction tr1 as [|[now e] tr1 IH]; intros s;
    cbn [Chatbot.run app]; [reflexivity|].
  destruct (Chatbot.step now e s); [apply IH|reflexivity].
Qed.

Lemma inv_reachable s : reachable s -> inv s.
Proof.
  intros (flex & ms & inp & tr & H).
  exact (inv_run tr _ s H (inv_page_load flex ms inp)).
Qed.

Lemma reachable_step now e s s' :
  reachable s -> Chatbot.step now e s = Some s' -> reachable s'.
Proof.
  intros (flex & ms & inp & tr & H) Hstep.
  exists flex, ms, inp, (tr ++ [(now, e)]).
  revert H. generalize (page_load flex ms inp) as s0.
  induction tr as [|[now' e'] tr IH]; intros s0; cbn [Chatbot.run app].
  - intros [= ->]. now rewrite Hstep.
  - destruct (Chatbot.step now' e' s0); [apply IH|easy].
Qed.

End SessionFacts.

Ltac chat_fields :=
  cbn [display_flex greeted sessionTimeout sessionActive timers next_timer
       messages input_value requests sends_in_flight clears_in_flight
       clears_settling set_display_flex set_greeted set_sessionTimeout
       set_sessionActive set_timers set_next_timer set_messages
       set_input_value set_requests set_sends_in_flight set_clears_in_flight
       set_clears_settling setTimeout clearTimeout fst snd negb].

Section TranscriptFacts.

Context {parser : HtmlParser}.

Lemma valid_token_BOT : valid_token BOT = true.
Proof. vm_compute. reflexivity. Qed.

Lemma valid_token_USER : valid_token USER = true.
Proof. vm_compute. reflexivity. Qed.

(** What [addMessage] appends for the bot. *)
Lemma addMessage_bot (now : jsstring) (text : option jsstring) (ms : list node) :
  exists m,
    addMessage now text BOT ms = Some (ms ++ [MessageNode m])
    /\ wrapper_classes m = [lit "message-wrapper"; BOT]
    /\ content m = InnerHTML (markdownToHtml text)
    /\ timestamp m = TextContent now.
Proof.
  unfold addMessage. rewrite valid_token_BOT. cbv zeta.
  rewrite (eqb_refl BOT). eexists. split; [reflexivity|]. cbn [wrapper_classes content timestamp]. auto.
Qed.

Lemma say_bot (now : jsstring) (text : option jsstring) (s : chat) :
  exists m,
    say now text BOT s = set_messages (messages s ++ [MessageNode m]) s
    /\ wrapper_classes m = [lit "message-wrapper"; BOT]
    /\ content m = InnerHTML (markdownToHtml text)
    /\ timestamp m = TextContent now.
Proof.
  destruct (addMessage_bot now text (messages s)) as (m & E & H).
  exists m. unfold say. now rewrite E.
Qed.

(** [say] touches the transcript only. *)
Lemma say_fields (now : jsstring) (text : option jsstring) (sender : jsstring)
    (s : chat) :
  let s' := say now text sender s in
  display_flex s' = display_flex s /\ greeted s' = greeted s
  /\ sessionTimeout s' = sessionTimeout s /\ sessionActive s' = sessionActive s
  /\ timers s' = timers s /\ next_timer s' = next_timer s
  /\ requests s' = requests s /\ clears_in_flight s' = clears_in_flight s
  /\ clears_settling s' = clears_settling s.
Proof.
  unfold say. destruct (addMessage _ _ _ _); chat_fields; repeat split; reflexivity.
Qed.

(** The [catch] block of [sendMessage] touches the transcript only. *)
Lemma sendMessage_catch_fields (now : jsstring) (s : chat) :
  let s' := sendMessage_catch now s in
  display_flex s' = display_flex s /\ greeted s' = greeted s
  /\ sessionTimeout s' = sessionTimeout s /\ sessionActive s' = sessionActive s
  /\ timers s' = timers s /\ next_timer s' = next_timer s
  /\ requests s' = requests s /\ clears_in_flight s' = clears_in_flight s
  /\ clears_settling s' = clears_settling s
  /\ sends_in_flight s' = sends_in_flight s /\ input_value s' = input_value s.
Proof.
  unfold sendMessage_catch, say. cbv zeta.
  destruct (addMessage _ _ _ _); chat_fields; repeat split; reflexivity.
Qed.

(** A call of [sendMessage] with a field that is not blank leaves the
    session as its [resetInactivityTimer] leaves it. *)
Lemma sendMessage_session (now : jsstring) (s : chat) :
  eqb (trim (input_value s)) [] = false ->
  let r := resetInactivityTimer s in
  let s' := sendMessage now s in
  display_flex s' = display_flex r /\ greeted s' = greeted r
  /\ sessionTimeout s' = sessionTimeout r /\ sessionActive s' = sessionActive r
  /\ timers s' = timers r /\ next_timer s' = next_timer r
  /\ clears_in_flight s' = clears_in_flight r
  /\ clears_settling s' = clears_settling r.
Proof.
  intros E. unfold sendMessage. rewrite E. cbv zeta.
  destruct (say_fields now (Some (trim (input_value s))) USER
              (resetInactivityTimer s))
    as (H1 & H2 & H3 & H4 & H5 & H6 & H7 & H8 & H9).
  cbv zeta in H1, H2, H3, H4, H5, H6, H7, H8, H9.
  destruct (isWellFormed _).
  - chat_fields. repeat split; assumption.
  - match goal with |- context [sendMessage_catch now ?x] =>
      destruct (sendMessage_catch_fields now x)
        as (K1 & K2 & K3 & K4 & K5 & K6 & K7 & K8 & K9 & _) end.
    cbv zeta in K1, K2, K3, K4, K5, K6, K7, K8, K9.
    rewrite K1, K2, K3, K4, K5, K6, K8, K9. chat_fields.
    repeat split; assumption.
Qed.

End TranscriptFacts.

Section TimeoutFacts.

Context {parser : HtmlParser}.

Implicit Types (s : chat) (id : nat) (d : N) (e : Chatbot.event).

Lemma none_scheduled_refl s s' : timers s' = timers s -> none_scheduled s s'.
Proof. intros E id d. now rewrite E. Qed.

Lemma none_scheduled_pending s s' :
  none_scheduled s s' -> ~ inactivity_pending s -> ~ inactivity_pending s'.
Proof. intros H Hn (id & d & Hid). apply Hn. exists id, d. auto. Qed.

Lemma inactive_none_pending s :
  inv s -> sessionActive s = false -> ~ inactivity_pending s.
Proof.
  intros I Ha (id & d & Hid).
  destruct (inv_inactivity s I _ _ Hid) as [_ Ha']. congruence.
Qed.

Lemma resetInactivityTimer_active s :
  sessionActive (resetInactivityTimer s) = sessionActive s.
Proof.
  unfold resetInactivityTimer.
  destruct (clear_sessionTimeout_fields s) as (_ & Ha & _).
  destruct (sessionActive (clear_sessionTimeout s)) eqn:E; [|congruence].
  chat_fields. congruence.
Qed.

Lemma sendMessage_active now s :
  sessionActive (sendMessage now s) = sessionActive s.
Proof.
  destruct (eqb (trim (input_value s)) []) eqn:E.
  - unfold sendMessage. now rewrite E.
  - destruct (sendMessage_session now s E) as (_ & _ & _ & Ha & _).
    cbv zeta in Ha. rewrite Ha. apply resetInactivityTimer_active.
Qed.

Lemma activity_active s : sessionActive (activity s) = sessionActive s.
Proof.
  unfold activity. destruct (sessionActive s) eqn:E; [|exact E].
  now rewrite resetInactivityTimer_active.
Qed.

Lemma chatBtn_click_active s :
  sessionActive (chatBtn_click s) = sessionActive s.
Proof.
  unfold chatBtn_click, chatBtn_session.
  assert (sessionActive (chatBtn_toggle s) = sessionActive s) as E.
  { unfold chatBtn_toggle. destruct (display_flex s); [reflexivity|].
    chat_fields. destruct (greeted s); reflexivity. }
  destruct (display_flex (chatBtn_toggle s)); cbn [negb].
  - destruct (clear_sessionTimeout_fields (chatBtn_toggle s)) as (_ & Ha & _).
    congruence.
  - now rewrite resetInactivityTimer_active.
Qed.

(** An event that resets the timer leaves the [sessionActive] flag as
    it found it. *)
Lemma resets_active now e s s' :
  resets e s = true -> Chatbot.step now e s = Some s' ->
  sessionActive s' = sessionActive s.
Proof.
  intros Hr Hstep. destruct e; unfold Chatbot.step in Hstep;
    unfold resets in Hr; try discriminate.
  - injection Hstep as <-. apply chatBtn_click_active.
  - injection Hstep as <-. now rewrite activity_active.
  - injection Hstep as <-. apply activity_active.
  - injection Hstep as <-. now rewrite activity_active, sendMessage_active.
  - injection Hstep as <-. rewrite Hr. apply sendMessage_active.
  - destruct (timers s !! id) as [[k d]|] eqn:Hid; [|easy].
    cbn [fmap option_fmap option_map kind] in Hr. destruct k; try discriminate.
    injection Hstep as <-. cbn [kind].
    destruct (truthy _); [now rewrite sendMessage_active|reflexivity].
  - destruct o; try discriminate.
    destruct (sends_in_flight s) as [|n]; [easy|]. injection Hstep as <-.
    unfold sendMessage_resume. rewrite resetInactivityTimer_active.
    destruct (say_fields now response BOT
      (set_messages (removeTypingIndicator (messages (set_sends_in_flight n s)))
         (set_sends_in_flight n s))) as (_ & _ & _ & Ha & _).
    exact Ha.
Qed.

(** An event that does not reset the timer schedules no inactivity
    timer. *)
Lemma quiet_none_scheduled now e s s' :
  resets e s = false -> Chatbot.step now e s = Some s' ->
  none_scheduled s s'.
Proof.
  intros Hr Hstep. destruct e; unfold Chatbot.step in Hstep;
    unfold resets in Hr; try discriminate.
  - injection Hstep as <-. now apply none_scheduled_refl.
  - injection Hstep as <-. rewrite Hr. now apply none_scheduled_refl.
  - injection Hstep as <-. now apply none_scheduled_refl.
  - injection Hstep as <-. destruct (truthy transcript);
      [|now apply none_scheduled_refl].
    intros i d. chat_fields. now intros [[_ [=]]|[_ H]]%lookup_insert_Some.
  - destruct (timers s !! id) as [[k d]|] eqn:Hid; [|easy].
    cbn [fmap option_fmap option_map kind] in Hr.
    injection Hstep as <-. cbn [kind]. destruct k; try discriminate.
    + intros i d'.
      destruct (say_fields now (Some GREETING) BOT (clearTimeout id s))
        as (_ & _ & _ & _ & Ht & _). rewrite Ht. chat_fields.
      now intros [_ H]%lookup_delete_Some.
    + intros i d'. unfold handleSessionTimeout. chat_fields.
      destruct (say_fields now (Some FAREWELL) BOT
                  (set_sessionActive false (clearTimeout id s)))
        as (_ & _ & _ & _ & Ht & _). rewrite Ht. chat_fields.
      now intros [[_ [=]]|[_ [_ H]%lookup_delete_Some]]%lookup_insert_Some.
    + intros i d'. unfold clearConversation. chat_fields.
      now intros [_ H]%lookup_delete_Some.
  - destruct (sends_in_flight s) as [|n]; [easy|]. injection Hstep as <-.
    unfold sendMessage_resume. destruct o; try discriminate.
    + destruct (say_fields now (Some (SERVER_ERROR_PREFIX ++ error_text error)) BOT
        (set_messages (removeTypingIndicator (messages (set_sends_in_flight n s)))
           (set_sends_in_flight n s))) as (_ & _ & _ & _ & Ht & _).
      now apply none_scheduled_refl.
    + destruct (say_fields now (Some CONNECTION_ERROR) BOT
        (set_messages (removeTypingIndicator (messages (set_sends_in_flight n s)))
           (set_sends_in_flight n s))) as (_ & _ & _ & _ & Ht & _).
      now apply none_scheduled_refl.
  - destruct (clears_in_flight s) as [|n]; [easy|]. injection Hstep as <-.
    apply none_scheduled_refl. unfold clearConversation_resume.
    destruct o; reflexivity.
  - destruct (clears_settling s) as [|n]; [easy|]. injection Hstep as <-.
    now apply none_scheduled_refl.
Qed.

End TimeoutFacts.

Section ChatClaims.

Context {parser : HtmlParser}.

Implicit Types (s : chat) (id : nat) (d : N) (e : Chatbot.event).

(** C2 (amended).  [addMessage] runs the text through [markdownToHtml]
    exactly when the sender is ["bot"]; for every other sender the text is
    assigned unchanged, with no conversion and no escaping, to the
    [innerHTML] of the content element, the same setter the bot's HTML
    goes through, so the browser parses it as markup.  Only the
    timestamp is set through [textContent]. *)
Theorem addMessage_content (now : jsstring) (text : option jsstring)
    (sender : jsstring) (ms : list node) :
  valid_token sender = true ->
  exists m,
    addMessage now text sender ms = Some (ms ++ [MessageNode m])
    /\ content m = InnerHTML (if eqb sender BOT then markdownToHtml text
                              else to_markup text)
    /\ (sender <> BOT -> forall t, text = Some t -> content m = InnerHTML t)
    /\ timestamp m = TextContent now.
Proof.
  intros Hv. unfold addMessage. rewrite Hv. cbv zeta.
  eexists. split; [reflexivity|]. cbn [content timestamp].
  repeat split. intros Hne t ->. apply eqb_neq in Hne. now rewrite Hne.
Qed.

Lemma addMessage_content_witness :
  valid_token USER = true /\
  exists m,
    addMessage (lit "10:42") (Some (lit "**hola**")) USER []
      = Some [MessageNode m]
    /\ content m = InnerHTML (lit "**hola**").
Proof.
  split; [reflexivity|].
  destruct (addMessage_content (lit "10:42") (Some (lit "**hola**")) USER []
              eq_refl) as (m & E & _ & Hc & _).
  exists m. split; [exact E|]. apply Hc; [discriminate|reflexivity].
Defined.

(** C2, as stated, fails: text a user typed reaches the transcript
    through [innerHTML], not as a literal text node. *)
Lemma addMessage_user_markup :
  exists m,
    addMessage (lit "10:42") (Some (lit "<img src=x onerror=alert(1)>")) USER []
      = Some [MessageNode m]
    /\ content m = InnerHTML (lit "<img src=x onerror=alert(1)>")
    /\ content m <> TextContent (lit "<img src=x onerror=alert(1)>").
Proof.
  eexists. split; [vm_compute; reflexivity|]. split; [reflexivity|discriminate].
Qed.

(** Opening a closed chat that has not greeted yet schedules the
    greeting. *)
Lemma open_greets s :
  inv s -> display_flex s = false -> greeted s = false ->
  let s' := chatBtn_click s in
  display_flex s' = true /\ greeted s' = true
  /\ timers s' !! next_timer s = Some (Timer GreetingTimer 300).
Proof.
  intros I Hd Hg. unfold chatBtn_click, chatBtn_toggle. rewrite Hd.
  cbn [greeted set_display_flex]. rewrite Hg. cbn [negb setTimeout].
  unfold chatBtn_session. cbn [display_flex set_greeted set_next_timer
    set_timers set_display_flex negb].
  unfold clear_sessionTimeout.
  cbn [sessionTimeout set_greeted set_next_timer set_timers set_display_flex].
  destruct (sessionTimeout s) as [[|n]|] eqn:E; chat_fields;
    repeat split; try apply lookup_insert_eq.
  rewrite lookup_delete_ne, lookup_insert_eq; [reflexivity|].
  pose proof (inv_fresh s I _ E). lia.
Qed.

(** C6.  When the inactivity timer fires, the handler sets
    [sessionActive] to false and appends the farewell as a bot message,
    issuing no request yet; it waits on a 2000 ms timer; when that timer
    fires it issues the POST to /clear-chat/; when the request has
    completed, whatever its outcome, it sets [sessionActive] to true and
    [greeted] to false, so that opening the chat again schedules the
    greeting. *)
Theorem handleSessionTimeout_sequence (now : jsstring) s id d
    (o : clear_outcome) :
  reachable s ->
  timers s !! id = Some (Timer InactivityTimer d) ->
  exists s1 s2 s3 s4 fid farewell,
    Chatbot.step now (TimerFire id) s = Some s1
    /\ sessionActive s1 = false
    /\ messages s1 = messages s ++ [MessageNode farewell]
    /\ wrapper_classes farewell = [lit "message-wrapper"; BOT]
    /\ content farewell = InnerHTML (markdownToHtml (Some FAREWELL))
    /\ requests s1 = requests s
    /\ timers s1 !! fid = Some (Timer FarewellTimer 2000)
    /\ Chatbot.step now (TimerFire fid) s1 = Some s2
    /\ sessionActive s2 = false
    /\ requests s2 = requests s ++ [PostClearChat]
    /\ Chatbot.step now (ClearResponse o) s2 = Some s3
    /\ sessionActive s3 = false
    /\ Chatbot.step now ClearSettled s3 = Some s4
    /\ sessionActive s4 = true /\ greeted s4 = false
    /\ exists s5 s6 gid,
         Chatbot.run ((if display_flex s4 then [(now, ClickChatBtn)] else [])
                        ++ [(now, ClickChatBtn)]) s4 = Some s6
         /\ display_flex s6 = true /\ greeted s6 = true
         /\ timers s6 !! gid = Some (Timer GreetingTimer 300)
         /\ Chatbot.step now (TimerFire gid) s6 = Some s5
         /\ exists g, messages s5 = messages s6 ++ [MessageNode g]
              /\ content g = InnerHTML (markdownToHtml (Some GREETING)).
Proof.
  intros R Hid.
  (* the inactivity timer fires *)
  set (s1 := handleSessionTimeout now (clearTimeout id s)).
  assert (Chatbot.step now (TimerFire id) s = Some s1) as E1
    by (unfold Chatbot.step; now rewrite Hid).
  pose proof (reachable_step _ _ _ _ R E1) as R1.
  destruct (say_bot now (Some FAREWELL)
              (set_sessionActive false (clearTimeout id s)))
    as (farewell & Hsay & Hw & Hc & _).
  assert (s1 = (setTimeout FarewellTimer 2000
                  (set_messages (messages s ++ [MessageNode farewell])
                     (set_sessionActive false (clearTimeout id s)))).2) as Hs1
    by (unfold s1, handleSessionTimeout; now rewrite Hsay).
  set (fid := next_timer s).
  assert (timers s1 !! fid = Some (Timer FarewellTimer 2000)) as Hfid
    by (rewrite Hs1; chat_fields; apply lookup_insert_eq).
  (* the farewell delay elapses *)
  set (s2 := clearConversation (clearTimeout fid s1)).
  assert (Chatbot.step now (TimerFire fid) s1 = Some s2) as E2
    by (unfold Chatbot.step; now rewrite Hfid).
  pose proof (reachable_step _ _ _ _ R1 E2) as R2.
  (* the clear request completes *)
  set (s3 := clearConversation_resume o
               (set_clears_in_flight (clears_in_flight s1) s2)).
  assert (Chatbot.step now (ClearResponse o) s2 = Some s3) as E3 by reflexivity.
  pose proof (reachable_step _ _ _ _ R2 E3) as R3.
  set (s4 := handleSessionTimeout_resume
               (set_clears_settling (clears_settling s2) s3)).
  assert (Chatbot.step now ClearSettled s3 = Some s4) as E4
    by (unfold Chatbot.step, s3, clearConversation_resume; now destruct o).
  pose proof (reachable_step _ _ _ _ R3 E4) as R4.
  assert (sessionActive s1 = false /\ requests s1 = requests s
          /\ messages s1 = messages s ++ [MessageNode farewell])
    as (Ha1 & Hr1 & Hm1) by (rewrite Hs1; repeat split; reflexivity).
  assert (sessionActive s2 = false /\ requests s2 = requests s ++ [PostClearChat])
    as (Ha2 & Hr2).
  { unfold s2, clearConversation. chat_fields. now rewrite Ha1, Hr1. }
  assert (sessionActive s3 = false) as Ha3
    by (unfold s3, clearConversation_resume; destruct o; exact Ha2).
  assert (sessionActive s4 = true /\ greeted s4 = false) as [Ha4 Hg4]
    by (split; reflexivity).
  exists s1, s2, s3, s4, fid, farewell.
  split; [exact E1|]. split; [exact Ha1|]. split; [exact Hm1|].
  split; [exact Hw|]. split; [exact Hc|]. split; [exact Hr1|].
  split; [exact Hfid|]. split; [exact E2|]. split; [exact Ha2|].
  split; [exact Hr2|]. split; [exact E3|]. split; [exact Ha3|].
  split; [exact E4|]. split; [exact Ha4|]. split; [exact Hg4|].
  clearbody s4. clear - R4 Ha4 Hg4.
  (* the next opening of the chat *)
  assert (exists s5, Chatbot.run (if display_flex s4
                                  then [(now, ClickChatBtn)] else []) s4
                     = Some s5
                     /\ reachable s5 /\ display_flex s5 = false
                     /\ greeted s5 = false) as (s5 & E5 & R5 & Hd5 & Hg5).
  { destruct (display_flex s4) eqn:Hd4.
    - exists (chatBtn_click s4). split; [reflexivity|].
      split; [exact (reachable_step now ClickChatBtn _ _ R4 eq_refl)|].
      unfold chatBtn_click, chatBtn_toggle. rewrite Hd4.
      unfold chatBtn_session. cbn [display_flex set_display_flex negb].
      unfold resetInactivityTimer, clear_sessionTimeout.
      cbn [sessionTimeout set_display_flex].
      destruct (sessionTimeout s4) as [[|n]|]; chat_fields; rewrite ?Ha4;
        chat_fields; auto.
    - exists s4. auto. }
  pose proof (open_greets s5 (inv_reachable s5 R5) Hd5 Hg5) as (Hd6 & Hg6 & Hgid).
  set (s6 := chatBtn_click s5) in *.
  destruct (say_bot now (Some GREETING) (clearTimeout (next_timer s5) s6))
    as (g & Hsayg & _ & Hcg & _).
  exists (say now (Some GREETING) BOT (clearTimeout (next_timer s5) s6)),
         s6, (next_timer s5).
  split.
  { rewrite run_app, E5. reflexivity. }
  split; [exact Hd6|]. split; [exact Hg6|]. split; [exact Hgid|].
  split; [unfold Chatbot.step; now rewrite Hgid|].
  exists g. rewrite Hsayg. split; [reflexivity|exact Hcg].
Qed.

(** C9 (amended).  In every state the page can reach: while a timeout
    sequence runs ([sessionActive] is false) no inactivity timer is
    pending, so the timeout cannot fire again, and every event that resets
    the timer leaves the flag false and no inactivity timer pending; when
    the sequence completes no inactivity timer is pending, and none
    becomes pending until an event whose callback reaches
    [resetInactivityTimer] occurs.  Such an event is an event of the user,
    or the successful reply to a message sent earlier, or the delayed send
    of a voice transcript. *)
Theorem timeout_sequence_has_no_timer s :
  reachable s ->
  (sessionActive s = false ->
     ~ inactivity_pending s
     /\ forall now e s',
          resets e s = true -> Chatbot.step now e s = Some s' ->
          sessionActive s' = false /\ ~ inactivity_pending s')
  /\ (forall now s',
        Chatbot.step now ClearSettled s = Some s' ->
        sessionActive s' = true /\ ~ inactivity_pending s')
  /\ (forall now e s',
        ~ inactivity_pending s -> resets e s = false ->
        Chatbot.step now e s = Some s' -> ~ inactivity_pending s')
  /\ (forall now e s',
        ~ inactivity_pending s -> Chatbot.step now e s = Some s' ->
        inactivity_pending s' ->
        user_reset e = true
        \/ (exists response, e = SendResponse (SendOk response))
        \/ (exists id d, e = TimerFire id
                         /\ timers s !! id = Some (Timer AutoSubmitTimer d))).
Proof.
  intros R. pose proof (inv_reachable s R) as I. split; [|split; [|split]].
  - intros Ha. split; [now apply inactive_none_pending|].
    intros now e s' Hr Hstep.
    assert (sessionActive s' = false) as Ha'
      by (now rewrite (resets_active now e s s')).
    split; [exact Ha'|]. apply inactive_none_pending; [|exact Ha'].
    exact (inv_reachable s' (reachable_step now e s s' R Hstep)).
  - intros now s' Hstep.
    assert (sessionActive s = false) as Ha.
    { unfold Chatbot.step in Hstep.
      destruct (clears_settling s) eqn:E; [easy|].
      destruct (sessionActive s) eqn:Ha; [|reflexivity].
      destruct (inv_active s I Ha) as (_ & _ & ?). congruence. }
    split.
    + unfold Chatbot.step in Hstep. destruct (clears_settling s); [easy|].
      now injection Hstep as <-.
    + apply (none_scheduled_pending s s').
      * now apply (quiet_none_scheduled now ClearSettled).
      * now apply inactive_none_pending.
  - intros now e s' Hp Hr Hstep.
    apply (none_scheduled_pending s s'); [|exact Hp].
    now apply (quiet_none_scheduled now e).
  - intros now e s' Hp Hstep Hp'. destruct (resets e s) eqn:Hr.
    + destruct e as [| |v| | |key|v|v|id|o|o|]; unfold resets in Hr;
        unfold user_reset; try discriminate; auto.
      * destruct (timers s !! id) as [[k d]|] eqn:Hid;
          cbn [fmap option_fmap option_map kind] in Hr; [|discriminate].
        destruct k; try discriminate.
        right; right. exists id, d. split; [reflexivity|exact Hid].
      * destruct o as [response| |]; try discriminate.
        right; left. exists response. reflexivity.
    + exfalso. revert Hp'. apply (none_scheduled_pending s s'); [|exact Hp].
      now apply (quiet_none_scheduled now e).
Qed.

End ChatClaims.

(* ===================================================================== *)
(** ** The router *)
(* ===================================================================== *)

Section RouterFacts.

Variable parse : jsstring -> list element.
Variable pushState_throws : jsstring -> bool.

Implicit Types (s : page) (e : element) (url : jsstring).

Ltac page_fields :=
  unfold document, fill;
  cbn [has_container container outer inner history in_flight issued
       navigated errors resizes set_container set_elements set_history
       set_in_flight set_navigated set_errors set_resizes document fill].

Lemma bind_clone e :
  is_data_link e = true ->
  listeners (bind (replace_by_clone e)) = [NavClick]
  /\ is_data_link (bind (replace_by_clone e)) = true.
Proof.
  intros H. unfold replace_by_clone. rewrite H.
  unfold bind. cbn. rewrite H. cbn. auto.
Qed.

Lemma bind_clone_attrs e :
  let e' := bind (replace_by_clone e) in
  is_data_link e' = is_data_link e /\ is_sidebar_nav e' = is_sidebar_nav e
  /\ href e' = href e /\ active e' = active e.
Proof.
  unfold replace_by_clone, bind.
  destruct (is_data_link e) eqn:H; cbn; rewrite H; cbn; auto.
Qed.

Lemma document_initNavigationLinks s :
  document (initNavigationLinks s) =
  map (fun e => bind (replace_by_clone e)) (document s).
Proof.
  unfold initNavigationLinks. page_fields.
  now rewrite List.map_app, !List.map_map.
Qed.

(** One call of [initNavigationLinks] binds every link exactly once,
    whatever listeners the links had. *)
Lemma initNavigationLinks_bound s : bound (initNavigationLinks s).
Proof.
  intros e He Hd. rewrite document_initNavigationLinks in He.
  apply list_elem_of_In, List.in_map_iff in He as (e0 & <- & _).
  destruct (bind_clone_attrs e0) as (Hdl & _). cbn zeta in Hdl.
  rewrite Hdl in Hd. now apply bind_clone.
Qed.

Lemma bound_frame s s' : document s' = document s -> bound s -> bound s'.
Proof. intros E H e. rewrite E. apply H. Qed.

Lemma bound_emptied (v : view) s :
  elements_of parse v = [] -> bound s -> bound (fill parse v s).
Proof.
  intros E H e. unfold fill. page_fields. rewrite E, app_nil_r.
  intros He. apply H. unfold document. apply elem_of_app. now left.
Qed.

Lemma bound_loadPartial url (push : bool) s :
  bound s -> bound (loadPartial parse url push s).
Proof.
  intros H. unfold loadPartial. destruct (has_container s); cbn [negb].
  - apply (bound_frame (fill parse Loading s)); [reflexivity|].
    now apply bound_emptied.
  - revert H. now apply bound_frame.
Qed.

Lemma bound_nav_click e s : bound s -> bound (nav_click parse e s).
Proof.
  unfold nav_click. destruct (href e) as [[|c u]|]; auto using bound_loadPartial.
Qed.

Lemma bound_click e s : bound s -> bound (click parse e s).
Proof.
  unfold click. generalize (listeners e) as ls.
  intros ls; revert s; induction ls as [|[] ls IH]; intros s H; cbn [foldl].
  - exact H.
  - apply IH. now apply bound_nav_click.
Qed.

Lemma bound_popstate st path s : bound s -> bound (popstate parse st path s).
Proof.
  unfold popstate. destruct st as [[|c u]|]; auto using bound_loadPartial.
Qed.

Lemma bound_on_error (err : load_error) s :
  bound s -> bound (on_error parse err s).
Proof.
  intros H. unfold on_error. cbv zeta.
  apply (bound_frame (fill parse ErrorPanel s)); [reflexivity|].
  now apply bound_emptied.
Qed.

(** The two ways the success callback ends: in the [.catch] callback
    when [history.pushState] is called and throws, and at its own end
    otherwise. *)
Lemma on_loaded_refused (f : fetch) (html : jsstring) s :
  refused pushState_throws f = true ->
  on_loaded parse pushState_throws f html s = on_error parse SecurityError s.
Proof. unfold refused. intros H. unfold on_loaded, refused. cbv zeta. now rewrite H. Qed.

Lemma on_loaded_accepted (f : fetch) (html : jsstring) s :
  refused pushState_throws f = false ->
  on_loaded parse pushState_throws f html s =
  let url := fetch_url f in
  let s1 := fill parse (Fragment html) s in
  let s2 := if fetch_push f
            then set_history (history s1 ++ [PushState url]) s1 else s1 in
  let s4 := initNavigationLinks (setActiveNav url s2) in
  let s5 := set_navigated (navigated s4 ++ [url]) s4 in
  set_resizes (S (resizes s5)) s5.
Proof. unfold refused. intros H. unfold on_loaded, refused. cbv zeta. now rewrite H. Qed.

Lemma bound_on_loaded (f : fetch) (html : jsstring) s :
  bound s -> bound (on_loaded parse pushState_throws f html s).
Proof.
  intros H. destruct (refused pushState_throws f) eqn:E.
  - rewrite on_loaded_refused by exact E. now apply bound_on_error.
  - rewrite on_loaded_accepted by exact E. cbv zeta.
    eapply bound_frame; [|apply initNavigationLinks_bound]. reflexivity.
Qed.

Lemma bound_step (ev : Spa.event) s s' :
  Spa.step parse pushState_throws ev s = Some s' -> bound s -> bound s'.
Proof.
  intros Hstep H. destruct ev as [inside i|st path|id o]; cbn [Spa.step] in Hstep.
  - destruct ((if inside then inner s else outer s) !! i); [|easy].
    injection Hstep as <-. now apply bound_click.
  - injection Hstep as <-. now apply bound_popstate.
  - destruct (in_flight s !! id) as [f|]; [|easy]. injection Hstep as <-.
    destruct (settle o).
    + apply bound_on_error. revert H. now apply bound_frame.
    + apply bound_on_loaded. revert H. now apply bound_frame.
Qed.

Lemma bound_run (tr : list Spa.event) s s' :
  Spa.run parse pushState_throws tr s = Some s' -> bound s -> bound s'.
Proof.
  revert s; induction tr as [|ev tr IH]; intros s; cbn [Spa.run].
  - now intros [= <-].
  - destruct (Spa.step parse pushState_throws ev s) as [s1|] eqn:E; [|easy].
    intros Hrun H. apply (IH s1 Hrun). exact (bound_step ev s s1 E H).
Qed.

Lemma bound_domContentLoaded url s : bound (domContentLoaded parse url s).
Proof.
  unfold domContentLoaded. cbv zeta.
  eapply bound_frame; [|apply initNavigationLinks_bound]. reflexivity.
Qed.

(** With a single listener a click is one run of the handler. *)
Lemma click_once e s :
  listeners e = [NavClick] -> click parse e s = nav_click parse e s.
Proof. intros H. unfold click. now rewrite H. Qed.

(** *** [setActiveNav] *)





End RouterFacts.

Section RouterClaims.

Variable parse : jsstring -> list element.
Variable pushState_throws : jsstring -> bool.

Implicit Types (s : page) (e : element) (url : jsstring).

(** C1 (amended).  A navigation request at once replaces the container
    with the loading placeholder, and every fetch that completes, the
    most recently issued one or an older one alike, replaces the
    container with its own result: the body on success, the error panel
    on failure and when [history.pushState] refuses the url of a pushing
    load.  With overlapping loads the container shows the response that
    completed last. *)
Theorem every_completion_fills_container s (id : nat) (o : fetch_outcome)
    (f : fetch) :
  in_flight s !! id = Some f ->
  exists s',
    Spa.step parse pushState_throws (FetchDone id o) s = Some s'
    /\ container s' = match settle o with
                      | inr html =>
                        if fetch_push f && pushState_throws (fetch_url f)
                        then ErrorPanel else Fragment html
                      | inl _ => ErrorPanel
                      end
    /\ in_flight s' = delete id (in_flight s)
    /\ forall url (push : bool),
         has_container s' = true ->
         container (loadPartial parse url push s') = Loading.
Proof.
  intros Hid. unfold Spa.step. rewrite Hid. eexists. split; [reflexivity|].
  assert (forall s0 url (push : bool), has_container s0 = true ->
            container (loadPartial parse url push s0) = Loading) as Hload.
  { intros s0 url push Hc. unfold loadPartial. now rewrite Hc. }
  destruct (settle o) as [err|html]; [repeat split; apply Hload|].
  fold (refused pushState_throws f).
  destruct (refused pushState_throws f) eqn:E.
  - rewrite on_loaded_refused by exact E. repeat split. apply Hload.
  - rewrite on_loaded_accepted by exact E. cbv zeta. repeat split.
    + destruct (fetch_push f); reflexivity.
    + destruct (fetch_push f); reflexivity.
    + apply Hload.
Qed.

(** C5.  When the fetch of a load fails, by a status outside 200-299 or
    by a rejected promise, the container is replaced by the error panel,
    the error is logged, and neither [history.pushState] is called nor
    'spa:navigate' dispatched, whatever the [push] flag of the load. *)
Theorem failed_load_shows_error s s' (id : nat) (o : fetch_outcome) :
  Spa.step parse pushState_throws (FetchDone id o) s = Some s' ->
  (o = Rejected \/ exists status body,
                     o = Responded status body /\ ok status = false) ->
  container s' = ErrorPanel
  /\ innerHTML (container s') = ERROR_HTML
  /\ (exists err, settle o = inl err /\ errors s' = errors s ++ [SpaError err])
  /\ history s' = history s
  /\ navigated s' = navigated s.
Proof.
  intros Hstep Hfail. unfold Spa.step in Hstep.
  destruct (in_flight s !! id) as [f|]; [|easy]. injection Hstep as <-.
  assert (exists err, settle o = inl err) as [err E].
  { destruct Hfail as [->|(status & body & -> & Hok)]; cbn; [eauto|].
    rewrite Hok. eauto. }
  rewrite E. repeat split. exists err. split; reflexivity.
Qed.


(** C8.  After the page has initialised and [N] content swaps have
    re-bound the links, for any [N], every internal navigation link of
    the document carries exactly one click listener, so a click on it runs
    the handler once. *)
Theorem one_handler_per_click (N : nat) (currentUrl : jsstring) (s0 s : page)
    (tr : list Spa.event) :
  Spa.run parse pushState_throws tr (domContentLoaded parse currentUrl s0) = Some s ->
  swaps tr = N ->
  forall e, e ∈ document s -> is_data_link e = true ->
    listeners e = [NavClick]
    /\ length (listeners e) = 1%nat
    /\ click parse e s = nav_click parse e s.
Proof.
  intros Hrun _ e He Hd.
  pose proof (bound_run parse pushState_throws tr _ s Hrun
                (bound_domContentLoaded parse currentUrl s0) e He Hd) as H.
  split; [exact H|]. split; [now rewrite H|]. now apply click_once.
Qed.

End RouterClaims.

Section RouterExamples.

(** C1, as stated, fails.  The user clicks the first link, then the
    second; the second response arrives first and is shown; when the first
    response arrives it overwrites the container although the request
    issued last was the second one. *)
Lemma stale_response_overwrites :
  exists s2 s3 s4,
    Spa.run no_elements off_site [Click false 0; Click false 1] home = Some s2
    /\ issued s2 = 2%nat
    /\ in_flight s2 !! 0%nat = Some (Fetch (lit "/corpus") true)
    /\ in_flight s2 !! 1%nat = Some (Fetch (lit "/pdf") true)
    /\ Spa.step no_elements off_site
         (FetchDone 1 (Responded 200 (Some (lit "<h1>PDF</h1>")))) s2 = Some s3
    /\ container s3 = Fragment (lit "<h1>PDF</h1>")
    /\ in_flight s3 !! 0%nat = Some (Fetch (lit "/corpus") true)
    /\ Spa.step no_elements off_site
         (FetchDone 0 (Responded 200 (Some (lit "<h1>Corpus</h1>")))) s3 = Some s4
    /\ container s4 = Fragment (lit "<h1>Corpus</h1>")
    /\ container s4 <> container s3.
Proof.
  do 3 eexists.
  split; [vm_compute; reflexivity|].
  split; [reflexivity|]. split; [vm_compute; reflexivity|].
  split; [vm_compute; reflexivity|].
  split; [vm_compute; reflexivity|].
  split; [reflexivity|]. split; [vm_compute; reflexivity|].
  split; [vm_compute; reflexivity|].
  split; [reflexivity|]. discriminate.
Qed.


End RouterExamples.

(* ===================================================================== *)
(** ** The statements on the scenarios *)
(* ===================================================================== *)

Section Scenarios.

Existing Instance no_decoys.

Lemma every_completion_fills_container_witness :
  (in_flight two_loads !! 0%nat = Some (Fetch (lit "/corpus") true)
   /\ (exists s',
         Spa.step no_elements off_site (FetchDone 0 (Responded 404 None)) two_loads
         = Some s'
         /\ container s' = ErrorPanel)
   /\ (exists s',
         Spa.step no_elements off_site
           (FetchDone 0 (Responded 200 (Some (lit "<h1>Corpus</h1>")))) two_loads
         = Some s'
         /\ container s' = Fragment (lit "<h1>Corpus</h1>")))
  /\ (let s := loadPartial no_elements (lit "https://otro.example/becas") true
                 abroad in
      in_flight s !! 0%nat = Some (Fetch (lit "https://otro.example/becas") true)
      /\ exists s',
           Spa.step no_elements off_site
             (FetchDone 0 (Responded 200 (Some (lit "<h1>Becas</h1>")))) s
           = Some s'
           /\ container s' = ErrorPanel).
Proof.
  split.
  - assert (in_flight two_loads !! 0%nat = Some (Fetch (lit "/corpus") true))
      as H by (vm_compute; reflexivity).
    split; [exact H|]. split.
    + destruct (every_completion_fills_container no_elements off_site two_loads 0
                  (Responded 404 None) _ H) as (s' & E & Hc & _).
      exists s'. split; [exact E|exact Hc].
    + destruct (every_completion_fills_container no_elements off_site two_loads 0
                  (Responded 200 (Some (lit "<h1>Corpus</h1>"))) _ H)
        as (s' & E & Hc & _).
      exists s'. split; [exact E|exact Hc].
  - intros s.
    assert (in_flight s !! 0%nat
            = Some (Fetch (lit "https://otro.example/becas") true))
      as H by (vm_compute; reflexivity).
    split; [exact H|].
    destruct (every_completion_fills_container no_elements off_site s 0
                (Responded 200 (Some (lit "<h1>Becas</h1>"))) _ H)
      as (s' & E & Hc & _).
    exists s'. split; [exact E|exact Hc].
Defined.

Lemma failed_load_shows_error_witness :
  let o := Responded 500 (Some (lit "Server Error")) in
  let s' := on_error no_elements (HttpStatusError 500)
              (set_in_flight (delete 0%nat (in_flight two_loads))
                             (issued two_loads) two_loads) in
  Spa.step no_elements off_site (FetchDone 0 o) two_loads = Some s'
  /\ (o = Rejected \/ exists status body,
                        o = Responded status body /\ ok status = false)
  /\ container s' = ErrorPanel
  /\ history s' = history two_loads
  /\ navigated s' = navigated two_loads.
Proof.
  intros o s'.
  assert (Spa.step no_elements off_site (FetchDone 0 o) two_loads = Some s') as E
    by (vm_compute; reflexivity).
  assert (o = Rejected \/ exists status body,
                            o = Responded status body /\ ok status = false) as F
    by (right; eexists _, _; split; reflexivity).
  split; [exact E|]. split; [exact F|].
  destruct (failed_load_shows_error no_elements off_site two_loads s' 0 o E F)
    as (Hc & _ & _ & Hh & Hn).
  auto.
Defined.


Lemma one_handler_per_click_witness :
  let e := Element true false (Some (lit "/messages")) false [NavClick] in
  Spa.run one_link off_site swap_trace
    (domContentLoaded one_link (lit "/")
       (served one_link true (lit "<h1>Inicio</h1>") [link_to "/corpus"]))
  = Some after_swap
  /\ swaps swap_trace = 1%nat
  /\ e ∈ document after_swap
  /\ is_data_link e = true
  /\ length (listeners e) = 1%nat.
Proof.
  intros e.
  assert (Spa.run one_link off_site swap_trace
            (domContentLoaded one_link (lit "/")
               (served one_link true (lit "<h1>Inicio</h1>") [link_to "/corpus"]))
          = Some after_swap) as Hrun by (vm_compute; reflexivity).
  assert (swaps swap_trace = 1%nat) as Hn by (vm_compute; reflexivity).
  assert (e ∈ document after_swap) as He
    by (vm_compute; apply list_elem_of_further, list_elem_of_here).
  split; [exact Hrun|]. split; [exact Hn|]. split; [exact He|].
  split; [reflexivity|].
  exact (proj1 (proj2 (one_handler_per_click one_link off_site 1 (lit "/") _ after_swap
                         swap_trace Hrun Hn e He eq_refl))).
Defined.

Lemma handleSessionTimeout_sequence_witness :
  reachable typed
  /\ timers typed !! 1%nat = Some (Timer InactivityTimer INACTIVITY_TIMEOUT)
  /\ exists s1,
       Chatbot.step CLOCK (TimerFire 1) typed = Some s1
       /\ sessionActive s1 = false.
Proof.
  assert (reachable typed) as R
    by (exists true, [], [], typing; vm_compute; reflexivity).
  assert (timers typed !! 1%nat = Some (Timer InactivityTimer INACTIVITY_TIMEOUT))
    as H by (vm_compute; reflexivity).
  split; [exact R|]. split; [exact H|].
  destruct (handleSessionTimeout_sequence CLOCK typed 1 _ ClearOk R H)
    as (s1 & _ & _ & _ & _ & _ & E & Ha & _).
  exists s1. split; [exact E|exact Ha].
Defined.

Lemma timeout_sequence_has_no_timer_witness :
  reachable timed_out
  /\ sessionActive timed_out = false
  /\ ~ inactivity_pending timed_out
  /\ resets ClickChatBox timed_out = true
  /\ exists s',
       Chatbot.step CLOCK ClickChatBox timed_out = Some s'
       /\ sessionActive s' = false /\ ~ inactivity_pending s'.
Proof.
  assert (reachable timed_out) as R
    by (exists true, [], [], timing_out; vm_compute; reflexivity).
  split; [exact R|]. split; [reflexivity|].
  destruct (proj1 (timeout_sequence_has_no_timer timed_out R) eq_refl)
    as [Hp Hreset].
  split; [exact Hp|]. split; [reflexivity|].
  exists (activity timed_out). split; [reflexivity|].
  exact (Hreset CLOCK ClickChatBox (activity timed_out) eq_refl eq_refl).
Defined.

(** C9, as stated, fails.  The user sends a message during the farewell
    delay; the timeout sequence runs to its end, after which no timer is
    pending; then the reply to the message arrives, and its handler, which
    is none of the reset events, starts the inactivity timer. *)
Lemma reply_after_clear_starts_timer :
  Chatbot.run late_reply_trace (page_load true [] []) = Some cleared
  /\ sessionActive cleared = true
  /\ timers cleared = ∅
  /\ user_reset late_reply = false
  /\ exists s',
       Chatbot.step CLOCK late_reply cleared = Some s'
       /\ timers s' !! 3%nat = Some (Timer InactivityTimer INACTIVITY_TIMEOUT)
       /\ inactivity_pending s'.
Proof.
  split; [vm_compute; reflexivity|]. split; [reflexivity|].
  split; [vm_compute; reflexivity|]. split; [reflexivity|].
  eexists. split; [vm_compute; reflexivity|].
  split; [vm_compute; reflexivity|].
  exists 3%nat, INACTIVITY_TIMEOUT. vm_compute. reflexivity.
Qed.

End Scenarios.

(* ===================================================================== *)
(** ** Further properties of the scripts *)
(* ===================================================================== *)

Import Cookies.
Import Voice.
Import Properties.
Import Journeys.

Ltac router_fields :=
  unfold document, fill;
  cbn [has_container container outer inner history in_flight issued
       navigated errors resizes set_container set_elements set_history
       set_in_flight set_navigated set_errors set_resizes].

Section RouterLoads.

Variable parse : jsstring -> list element.
Variable pushState_throws : jsstring -> bool.

Implicit Types (s : page) (e : element) (url : jsstring).

Lemma loadPartial_issue url (push : bool) s :
  has_container s = true ->
  container (loadPartial parse url push s) = Loading
  /\ in_flight (loadPartial parse url push s)
     = <[issued s := Fetch url push]> (in_flight s)
  /\ issued (loadPartial parse url push s) = S (issued s)
  /\ history (loadPartial parse url push s) = history s
  /\ navigated (loadPartial parse url push s) = navigated s
  /\ outer (loadPartial parse url push s) = outer s.
Proof. intros H. unfold loadPartial. rewrite H. repeat split. Qed.

Lemma on_loaded_effect (f : fetch) (html : jsstring) s :
  refused pushState_throws f = false ->
  container (on_loaded parse pushState_throws f html s) = Fragment html
  /\ history (on_loaded parse pushState_throws f html s)
     = history s ++ (if fetch_push f then [PushState (fetch_url f)] else [])
  /\ navigated (on_loaded parse pushState_throws f html s) = navigated s ++ [fetch_url f]
  /\ resizes (on_loaded parse pushState_throws f html s) = S (resizes s)
  /\ in_flight (on_loaded parse pushState_throws f html s) = in_flight s
  /\ issued (on_loaded parse pushState_throws f html s) = issued s
  /\ errors (on_loaded parse pushState_throws f html s) = errors s.
Proof.
  intros E. rewrite on_loaded_accepted by exact E. cbv zeta.
  destruct (fetch_push f); router_fields; rewrite ?app_nil_r; repeat split.
Qed.

Lemma on_refused_effect (f : fetch) (html : jsstring) s :
  refused pushState_throws f = true ->
  container (on_loaded parse pushState_throws f html s) = ErrorPanel
  /\ history (on_loaded parse pushState_throws f html s) = history s
  /\ navigated (on_loaded parse pushState_throws f html s) = navigated s
  /\ resizes (on_loaded parse pushState_throws f html s) = resizes s
  /\ in_flight (on_loaded parse pushState_throws f html s) = in_flight s
  /\ issued (on_loaded parse pushState_throws f html s) = issued s
  /\ errors (on_loaded parse pushState_throws f html s)
     = errors s ++ [SpaError SecurityError]
  /\ outer (on_loaded parse pushState_throws f html s) = outer s
  /\ inner (on_loaded parse pushState_throws f html s) = [].
Proof.
  intros E. rewrite on_loaded_refused by exact E. repeat split.
Qed.

Lemma on_loaded_in_flight (f : fetch) (html : jsstring) s :
  in_flight (on_loaded parse pushState_throws f html s) = in_flight s
  /\ issued (on_loaded parse pushState_throws f html s) = issued s.
Proof.
  destruct (refused pushState_throws f) eqn:E.
  - now destruct (on_refused_effect f html s E) as (_ & _ & _ & _ & -> & -> & _).
  - now destruct (on_loaded_effect f html s E) as (_ & _ & _ & _ & -> & -> & _).
Qed.

(** A load and its successful completion, with nothing in between. *)
Lemma load_then_done url (push : bool) (o : fetch_outcome) (html : jsstring) s :
  has_container s = true -> settle o = inr html ->
  push && pushState_throws url = false ->
  exists s2,
    Spa.step parse pushState_throws (FetchDone (issued s) o) (loadPartial parse url push s) = Some s2
    /\ container s2 = Fragment html
    /\ history s2 = history s ++ (if push then [PushState url] else [])
    /\ navigated s2 = navigated s ++ [url].
Proof.
  intros Hc Ho Hp. destruct (loadPartial_issue url push s Hc)
    as (_ & Hf & _ & Hh & Hn & _).
  unfold Spa.step. rewrite Hf, lookup_insert_eq, Ho. eexists. split; [reflexivity|].
  destruct (on_loaded_effect (Fetch url push) html
              (set_in_flight
                 (delete (issued s) (<[issued s:=Fetch url push]> (in_flight s)))
                 (issued (loadPartial parse url push s))
                 (loadPartial parse url push s)) Hp)
    as (H1 & H2 & H3 & _).
  rewrite H1, H2, H3. router_fields. now rewrite Hh, Hn.
Qed.

(** A pushing load whose url [history.pushState] refuses. *)
Lemma load_then_refused url (o : fetch_outcome) (html : jsstring) s :
  has_container s = true -> settle o = inr html ->
  pushState_throws url = true ->
  exists s2,
    Spa.step parse pushState_throws (FetchDone (issued s) o)
      (loadPartial parse url true s) = Some s2
    /\ container s2 = ErrorPanel
    /\ history s2 = history s
    /\ navigated s2 = navigated s
    /\ errors s2 = errors s ++ [SpaError SecurityError]
    /\ resizes s2 = resizes s.
Proof.
  intros Hc Ho Hp. destruct (loadPartial_issue url true s Hc)
    as (_ & Hf & _ & Hh & Hn & _).
  unfold Spa.step. rewrite Hf, lookup_insert_eq, Ho. eexists. split; [reflexivity|].
  assert (refused pushState_throws (Fetch url true) = true) as E by exact Hp.
  destruct (on_refused_effect (Fetch url true) html
              (set_in_flight
                 (delete (issued s) (<[issued s:=Fetch url true]> (in_flight s)))
                 (issued (loadPartial parse url true s))
                 (loadPartial parse url true s)) E)
    as (H1 & H2 & H3 & H4 & _ & _ & H5 & _).
  rewrite H1, H2, H3, H4, H5. router_fields. rewrite Hh, Hn.
  unfold loadPartial. rewrite Hc. repeat split.
Qed.

(** X1.  back and forward.  A [popstate] loads the url recorded in the
    entry, or the current path when the entry records none, and when the
    load succeeds the history is as it was: nothing is pushed. *)
Theorem popstate_reloads_without_push (st : option jsstring)
    (pathname : jsstring) (o : fetch_outcome) (html : jsstring) s :
  has_container s = true -> settle o = inr html ->
  let url := match st with Some (c :: u) => c :: u | _ => pathname end in
  exists s1 s2,
    Spa.step parse pushState_throws (PopState st pathname) s = Some s1
    /\ container s1 = Loading
    /\ in_flight s1 !! issued s = Some (Fetch url false)
    /\ Spa.step parse pushState_throws (FetchDone (issued s) o) s1 = Some s2
    /\ container s2 = Fragment html
    /\ history s2 = history s
    /\ navigated s2 = navigated s ++ [url].
Proof.
  intros Hc Ho url.
  assert (popstate parse st pathname s = loadPartial parse url false s) as E
    by (unfold popstate, url; now destruct st as [[|c u]|]).
  destruct (load_then_done url false o html s Hc Ho eq_refl)
    as (s2 & E2 & H1 & H2 & H3).
  destruct (loadPartial_issue url false s Hc) as (Hl & Hf & _).
  exists (loadPartial parse url false s), s2.
  split; [cbn [Spa.step]; now rewrite E|]. split; [exact Hl|].
  split; [rewrite Hf; apply lookup_insert_eq|]. split; [exact E2|].
  split; [exact H1|]. split; [now rewrite H2, app_nil_r|exact H3].
Qed.

(** X2.  a click on a bound link.  The click issues one fetch for the href
    of the link.  When the fetch succeeds and [history.pushState] accepts
    the href, the container shows the fragment and exactly that url is
    pushed onto the history and announced; when [history.pushState] refuses
    the href, the container shows the error panel, the error is logged, and
    nothing is pushed or announced. *)
Theorem click_loads_and_pushes (inside : bool) (i : nat) e (h : jsstring)
    (o : fetch_outcome) (html : jsstring) s :
  (if inside then inner s else outer s) !! i = Some e ->
  listeners e = [NavClick] -> href e = Some h -> h <> [] ->
  has_container s = true -> settle o = inr html ->
  exists s1 s2,
    Spa.step parse pushState_throws (Click inside i) s = Some s1
    /\ in_flight s1 = <[issued s := Fetch h true]> (in_flight s)
    /\ Spa.step parse pushState_throws (FetchDone (issued s) o) s1 = Some s2
    /\ if pushState_throws h
       then container s2 = ErrorPanel
            /\ history s2 = history s
            /\ navigated s2 = navigated s
            /\ errors s2 = errors s ++ [SpaError SecurityError]
       else container s2 = Fragment html
            /\ history s2 = history s ++ [PushState h]
            /\ navigated s2 = navigated s ++ [h].
Proof.
  intros Hi Hl Hh Hne Hc Ho.
  assert (click parse e s = loadPartial parse h true s) as E.
  { unfold click. rewrite Hl. cbn [foldl]. unfold nav_click. rewrite Hh.
    now destruct h. }
  destruct (loadPartial_issue h true s Hc) as (_ & Hf & _).
  destruct (pushState_throws h) eqn:Hp.
  - destruct (load_then_refused h o html s Hc Ho Hp)
      as (s2 & E2 & H1 & H2 & H3 & H4 & _).
    exists (loadPartial parse h true s), s2.
    split; [cbn [Spa.step]; now rewrite Hi, E|].
    split; [exact Hf|]. split; [exact E2|]. repeat split; assumption.
  - destruct (load_then_done h true o html s Hc Ho Hp)
      as (s2 & E2 & H1 & H2 & H3).
    exists (loadPartial parse h true s), s2.
    split; [cbn [Spa.step]; now rewrite Hi, E|].
    split; [exact Hf|]. split; [exact E2|]. repeat split; assumption.
Qed.

(** X3.  a link without a target.  Clicking a link whose href is missing
    or empty changes nothing, however many listeners it carries. *)
Theorem click_without_href (inside : bool) (i : nat) e s :
  (if inside then inner s else outer s) !! i = Some e ->
  href e = None \/ href e = Some [] ->
  Spa.step parse pushState_throws (Click inside i) s = Some s.
Proof.
  intros Hi Hh. cbn [Spa.step]. rewrite Hi. f_equal. unfold click.
  induction (listeners e) as [|[] ls IH]; cbn [foldl]; [reflexivity|].
  unfold nav_click at 2. now destruct Hh as [-> | ->].
Qed.

Lemma loadPartial_logged url (push : bool) (n : nat) s :
  has_container s = false ->
  loadPartial parse url push (logged n s) = logged (S n) s.
Proof.
  intros Hc. unfold loadPartial, logged. router_fields. rewrite Hc. cbn [negb].
  unfold set_errors. router_fields. f_equal.
  rewrite <- app_assoc. f_equal.
  change [ContainerMissing] with (replicate 1 ContainerMissing).
  rewrite <- replicate_add. f_equal. lia.
Qed.

Lemma step_logged (ev : Spa.event) (n : nat) s s1 :
  has_container s = false -> in_flight s = ∅ ->
  Spa.step parse pushState_throws ev (logged n s) = Some s1 ->
  exists m, s1 = logged m s.
Proof.
  intros Hc Hf. destruct ev as [inside i|st path|id o]; cbn [Spa.step].
  - destruct ((if inside then inner (logged n s) else outer (logged n s)) !! i)
      as [e|]; [|easy].
    intros [= <-]. unfold click. revert n.
    induction (listeners e) as [|[] ls IH]; intros n; cbn [foldl]; [eauto|].
    unfold nav_click at 2. destruct (href e) as [[|c u]|]; auto.
    rewrite loadPartial_logged by easy. apply IH.
  - intros [= <-]. unfold popstate.
    destruct st as [[|c u]|]; rewrite loadPartial_logged by easy; eauto.
  - unfold logged. router_fields. now rewrite Hf, lookup_empty.
Qed.

(** X4.  no container.  On a page without [#dynamic-content] and with no
    fetch in flight, no sequence of events issues a fetch, changes the
    history, announces a navigation or touches the document; each attempt
    only logs the missing container. *)
Theorem without_container_nothing_loads (tr : list Spa.event) s s' :
  has_container s = false -> in_flight s = ∅ ->
  Spa.run parse pushState_throws tr s = Some s' ->
  in_flight s' = ∅ /\ issued s' = issued s
  /\ history s' = history s /\ navigated s' = navigated s
  /\ container s' = container s /\ document s' = document s
  /\ exists n, errors s' = errors s ++ replicate n ContainerMissing.
Proof.
  intros Hc Hf Hrun.
  assert (exists n, s' = logged n s) as [n ->].
  { assert (s = logged 0 s) as E0
      by (unfold logged; cbn [replicate]; rewrite app_nil_r; now destruct s).
    rewrite E0 in Hrun. revert Hrun. generalize 0%nat as n. clear E0.
    induction tr as [|ev tr IH]; intros n; cbn [Spa.run].
    - intros [= <-]. eauto.
    - destruct (Spa.step parse pushState_throws ev (logged n s)) as [s1|] eqn:E; [|easy].
      destruct (step_logged ev n s s1 Hc Hf E) as [m ->]. apply IH. }
  unfold logged. router_fields. repeat split; eauto.
Qed.

End RouterLoads.

Section RouterInvariants.

Variable parse : jsstring -> list element.
Variable pushState_throws : jsstring -> bool.

Implicit Types (s : page) (e : element) (url : jsstring).

Lemma numbered_loadPartial url (push : bool) s :
  numbered s -> numbered (loadPartial parse url push s).
Proof.
  intros H. unfold loadPartial. destruct (has_container s); cbn [negb].
  - intros id f. router_fields.
    intros [[<- _]|[_ Hid]]%lookup_insert_Some; [lia|].
    specialize (H _ _ Hid). lia.
  - exact H.
Qed.

Lemma numbered_click e s : numbered s -> numbered (click parse e s).
Proof.
  unfold click. revert s. induction (listeners e) as [|[] ls IH]; intros s H;
    cbn [foldl]; [exact H|].
  apply IH. unfold nav_click.
  destruct (href e) as [[|c u]|]; auto using numbered_loadPartial.
Qed.

Lemma numbered_step (ev : Spa.event) s s1 :
  Spa.step parse pushState_throws ev s = Some s1 -> numbered s -> numbered s1.
Proof.
  intros E H. destruct ev as [inside i|st path|id o]; cbn [Spa.step] in E.
  - destruct ((if inside then inner s else outer s) !! i); [|easy].
    injection E as <-. now apply numbered_click.
  - injection E as <-. unfold popstate.
    destruct st as [[|c u]|]; now apply numbered_loadPartial.
  - destruct (in_flight s !! id) as [f|]; [|easy]. injection E as <-.
    assert (numbered (set_in_flight (delete id (in_flight s)) (issued s) s)) as H1
      by (intros i g; router_fields; intros [_ Hi]%lookup_delete_Some;
          exact (H _ _ Hi)).
    destruct (settle o) as [err|html].
    + exact H1.
    + intros i g. destruct (on_loaded_in_flight parse pushState_throws f html
        (set_in_flight (delete id (in_flight s)) (issued s) s))
        as (-> & ->). apply H1.
Qed.

Lemma numbered_run (tr : list Spa.event) s s' :
  Spa.run parse pushState_throws tr s = Some s' -> numbered s -> numbered s'.
Proof.
  revert s; induction tr as [|ev tr IH]; intros s; cbn [Spa.run].
  - now intros [= <-].
  - destruct (Spa.step parse pushState_throws ev s) as [s1|] eqn:E; [|easy].
    intros Hrun H. apply (IH s1 Hrun). exact (numbered_step ev s s1 E H).
Qed.

Lemma numbered_domContentLoaded url s :
  numbered s -> numbered (domContentLoaded parse url s).
Proof.
  intros H. unfold domContentLoaded. cbv zeta.
  destruct (has_container s && eqb (trim (innerHTML (container s))) []).
  - exact (numbered_loadPartial url false s H).
  - exact H.
Qed.

(** X5.  issue numbers.  From the page as served, whatever happens, every
    fetch in flight has a number below the next one, so a new load never
    displaces a fetch that is still in flight; and a completed fetch is
    gone: its completion cannot be delivered a second time. *)
Theorem loads_never_collide (present : bool) (html0 : jsstring)
    (chrome : list element) (currentUrl : jsstring) (tr : list Spa.event) s :
  Spa.run parse pushState_throws tr
    (domContentLoaded parse currentUrl (served parse present html0 chrome))
    = Some s ->
  numbered s
  /\ (forall url (push : bool) id f,
        in_flight s !! id = Some f ->
        in_flight (loadPartial parse url push s) !! id = Some f)
  /\ (forall id o s1,
        Spa.step parse pushState_throws (FetchDone id o) s = Some s1 ->
        forall o', Spa.step parse pushState_throws (FetchDone id o') s1 = None).
Proof.
  intros Hrun.
  assert (numbered s) as H.
  { apply (numbered_run tr _ s Hrun), numbered_domContentLoaded.
    intros id f. cbn. now rewrite lookup_empty. }
  split; [exact H|]. split.
  - intros url push id f Hid. unfold loadPartial.
    destruct (has_container s); cbn [negb]; [|exact Hid].
    router_fields. rewrite lookup_insert_ne; [exact Hid|].
    specialize (H _ _ Hid). lia.
  - intros id o s1 E o'. cbn [Spa.step] in E |- *.
    destruct (in_flight s !! id) as [f|]; [|easy]. injection E as <-.
    assert (in_flight match settle o with
                      | inl err => on_error parse err
                          (set_in_flight (delete id (in_flight s)) (issued s) s)
                      | inr html => on_loaded parse pushState_throws f html
                          (set_in_flight (delete id (in_flight s)) (issued s) s)
                      end = delete id (in_flight s)) as ->.
    { destruct (settle o) as [err|html]; [reflexivity|].
      now destruct (on_loaded_in_flight parse pushState_throws f html
        (set_in_flight (delete id (in_flight s)) (issued s) s))
        as (-> & _). }
    now rewrite lookup_delete_eq.
Qed.

(** *** [setActiveNav] and [initNavigationLinks] as operations *)

Lemma mark_mark url1 url2 e : mark url2 (mark url1 e) = mark url2 e.
Proof.
  destruct e as [dl sn h a ls]. unfold mark, href_is, set_active. cbn.
  destruct sn; cbn; [|reflexivity].
  destruct h as [h|]; cbn; [|reflexivity].
  destruct (eqb h url1); cbn; destruct (eqb h url2); reflexivity.
Qed.

(** X6.  the marker follows the last call.  Marking for a second url
    erases what marking for a first url did; in particular marking twice
    for the same url is marking once.  Links that are not sidebar
    navigation links, and every href and listener, stay as they are. *)
Theorem setActiveNav_last_wins url1 url2 s :
  setActiveNav url2 (setActiveNav url1 s) = setActiveNav url2 s
  /\ map href (document (setActiveNav url1 s)) = map href (document s)
  /\ map listeners (document (setActiveNav url1 s)) = map listeners (document s)
  /\ (forall e, e ∈ document s -> is_sidebar_nav e = false ->
        e ∈ document (setActiveNav url1 s)).
Proof.
  unfold setActiveNav. router_fields. split; [|split; [|split]].
  - unfold set_elements. router_fields. rewrite !List.map_map.
    f_equal; apply List.map_ext; intros e; apply mark_mark.
  - rewrite <- List.map_app, List.map_map. apply List.map_ext.
    intros [dl [] h a ls]; unfold mark, set_active; cbn; [|reflexivity].
    now destruct (href_is _ _).
  - rewrite <- List.map_app, List.map_map. apply List.map_ext.
    intros [dl [] h a ls]; unfold mark, set_active; cbn; [|reflexivity].
    now destruct (href_is _ _).
  - intros e He Hn. rewrite <- List.map_app.
    apply list_elem_of_In, List.in_map_iff. exists e.
    split; [unfold mark; now rewrite Hn|now apply list_elem_of_In].
Qed.

Lemma bind_clone_idem e :
  bind (replace_by_clone (bind (replace_by_clone e))) = bind (replace_by_clone e).
Proof.
  destruct e as [[] sn h a ls]; reflexivity.
Qed.

(** X7.  re-binding is idempotent.  A second [initNavigationLinks] leaves
    the page exactly as the first one left it, and a call changes nothing
    of an element but its listeners. *)
Theorem initNavigationLinks_idempotent s :
  initNavigationLinks (initNavigationLinks s) = initNavigationLinks s
  /\ map cloneNode (document (initNavigationLinks s)) = map cloneNode (document s).
Proof.
  split.
  - unfold initNavigationLinks. router_fields. unfold set_elements. router_fields.
    rewrite !List.map_map.
    f_equal; apply List.map_ext; intros e; apply bind_clone_idem.
  - rewrite document_initNavigationLinks, List.map_map. apply List.map_ext.
    intros [[] sn h a ls]; reflexivity.
Qed.

(** *** Bookkeeping *)

Lemma accounted_frame s s' :
  resizes s' = resizes s -> navigated s' = navigated s ->
  history s' = history s -> accounted s -> accounted s'.
Proof.
  intros Hr Hn Hh [H1 H2]. unfold accounted, pushed. now rewrite Hr, Hn, Hh.
Qed.

Lemma accounted_loadPartial url (push : bool) s :
  accounted s -> accounted (loadPartial parse url push s).
Proof.
  unfold loadPartial. destruct (has_container s); cbn [negb];
    apply accounted_frame; reflexivity.
Qed.

Lemma accounted_step (ev : Spa.event) s s1 :
  Spa.step parse pushState_throws ev s = Some s1 -> accounted s -> accounted s1.
Proof.
  intros E H. destruct ev as [inside i|st path|id o]; cbn [Spa.step] in E.
  - destruct ((if inside then inner s else outer s) !! i) as [e|]; [|easy].
    injection E as <-. unfold click. revert s H.
    induction (listeners e) as [|[] ls IH]; intros s H; cbn [foldl]; [exact H|].
    apply IH. unfold nav_click.
    destruct (href e) as [[|c u]|]; auto using accounted_loadPartial.
  - injection E as <-. unfold popstate.
    destruct st as [[|c u]|]; now apply accounted_loadPartial.
  - destruct (in_flight s !! id) as [f|]; [|easy]. injection E as <-.
    destruct (settle o) as [err|html].
    + revert H. apply accounted_frame; reflexivity.
    + destruct (refused pushState_throws f) eqn:R.
      { destruct (on_refused_effect parse pushState_throws f html
          (set_in_flight (delete id (in_flight s)) (issued s) s) R)
          as (_ & Hh & Hn & Hr & _).
        revert H. apply accounted_frame; assumption. }
      destruct H as [H1 H2].
      destruct (on_loaded_effect parse pushState_throws f html
        (set_in_flight (delete id (in_flight s)) (issued s) s) R)
        as (_ & Hh & Hn & Hr & _).
      unfold accounted, pushed. rewrite Hh, Hn, Hr. router_fields.
      split; [rewrite length_app; cbn; lia|].
      intros u. rewrite omap_app, !elem_of_app.
      intros [Hu|Hu]; [left; now apply H2|right].
      destruct (fetch_push f); cbn in Hu; [exact Hu|inversion Hu].
Qed.

Lemma domContentLoaded_fields url s :
  resizes (domContentLoaded parse url s) = resizes s
  /\ navigated (domContentLoaded parse url s) = navigated s
  /\ history (domContentLoaded parse url s) = history s ++ [ReplaceState url].
Proof.
  unfold domContentLoaded. cbv zeta. unfold initNavigationLinks. router_fields.
  destruct (has_container s && _); [|auto].
  unfold loadPartial. destruct (has_container s); auto.
Qed.

(** X8.  bookkeeping of the loads.  From the page as served, whatever
    happens: the history holds the entry replaced at start-up followed by
    pushes only; every url pushed has been announced by a navigation event;
    and one delayed resize has been scheduled per navigation event. *)
Theorem loads_are_accounted (present : bool) (html0 : jsstring)
    (chrome : list element) (currentUrl : jsstring) (tr : list Spa.event) s :
  Spa.run parse pushState_throws tr
    (domContentLoaded parse currentUrl (served parse present html0 chrome))
    = Some s ->
  history s = ReplaceState currentUrl :: map PushState (pushed s)
  /\ (forall u, u ∈ pushed s -> u ∈ navigated s)
  /\ resizes s = length (navigated s).
Proof.
  set (P := fun s => accounted s
              /\ history s = ReplaceState currentUrl :: map PushState (pushed s)).
  assert (forall s s1 ev, Spa.step parse pushState_throws ev s = Some s1 -> P s -> P s1) as Hstep.
  { intros s0 s1 ev E [Ha Hh]. split; [exact (accounted_step ev s0 s1 E Ha)|].
    assert (forall url push, history (loadPartial parse url push s0) = history s0)
      as Hl by (intros; unfold loadPartial; now destruct (has_container s0)).
    destruct ev as [inside i|st path|id o]; cbn [Spa.step] in E.
    - destruct ((if inside then inner s0 else outer s0) !! i) as [e|]; [|easy].
      injection E as <-. unfold click.
      assert (forall ls s2, history s2 = history s0 ->
                history (foldl (fun s' l => match l with
                                            | NavClick => nav_click parse e s' end)
                               s2 ls) = history s0) as Hfold.
      { induction ls as [|[] ls IH]; intros s2 H2; cbn [foldl]; [exact H2|].
        apply IH. unfold nav_click. destruct (href e) as [[|c u]|]; auto.
        unfold loadPartial. now destruct (has_container s2). }
      unfold pushed. now rewrite (Hfold _ s0 eq_refl).
    - injection E as <-. unfold popstate, pushed.
      destruct st as [[|c u]|]; now rewrite Hl.
    - destruct (in_flight s0 !! id) as [f|]; [|easy]. injection E as <-.
      destruct (settle o) as [err|html]; [exact Hh|].
      destruct (refused pushState_throws f) eqn:R.
      { destruct (on_refused_effect parse pushState_throws f html
          (set_in_flight (delete id (in_flight s0)) (issued s0) s0) R)
          as (_ & Hh' & _).
        unfold pushed. rewrite Hh'. exact Hh. }
      destruct (on_loaded_effect parse pushState_throws f html
        (set_in_flight (delete id (in_flight s0)) (issued s0) s0) R)
        as (_ & Hh' & _).
      unfold pushed. rewrite Hh'. router_fields. unfold pushed in Hh.
      rewrite omap_app, List.map_app, app_comm_cons, <- Hh.
      now destruct (fetch_push f). }
  assert (forall tr s s', Spa.run parse pushState_throws tr s = Some s' -> P s -> P s') as Hrun.
  { induction tr0 as [|ev tr0 IH]; intros s0 s1; cbn [Spa.run].
    - now intros [= <-].
    - destruct (Spa.step parse pushState_throws ev s0) as [s2|] eqn:E; [|easy].
      intros Hr H. exact (IH s2 s1 Hr (Hstep _ _ _ E H)). }
  intros H. apply Hrun in H; [destruct H as [[H1 H2] H3]; auto|].
  destruct (domContentLoaded_fields currentUrl (served parse present html0 chrome))
    as (Hr & Hn & Hh).
  unfold P, accounted, pushed. rewrite Hr, Hn, Hh. cbn.
  repeat split. intros u Hu. inversion Hu.
Qed.

(** X9.  the first load.  At start-up a container with blank markup is
    filled by a load of the current url that pushes nothing, after which
    the history is exactly as start-up left it; a container that already
    has content starts no load. *)
Theorem domContentLoaded_first_load (currentUrl : jsstring) s :
  has_container s = true ->
  (is_blank (innerHTML (container s)) = true ->
     container (domContentLoaded parse currentUrl s) = Loading
     /\ in_flight (domContentLoaded parse currentUrl s)
        = <[issued s := Fetch currentUrl false]> (in_flight s)
     /\ history (domContentLoaded parse currentUrl s)
        = history s ++ [ReplaceState currentUrl]
     /\ forall o html, settle o = inr html ->
          exists s2,
            Spa.step parse pushState_throws (FetchDone (issued s) o)
              (domContentLoaded parse currentUrl s) = Some s2
            /\ container s2 = Fragment html
            /\ history s2 = history s ++ [ReplaceState currentUrl])
  /\ (is_blank (innerHTML (container s)) = false ->
        container (domContentLoaded parse currentUrl s) = container s
        /\ in_flight (domContentLoaded parse currentUrl s) = in_flight s).
Proof.
  intros Hc. unfold domContentLoaded. cbv zeta. rewrite Hc. cbn [andb].
  split; intros Hb.
  - rewrite (trim_blank _ Hb). cbn [eqb].
    destruct (loadPartial_issue parse currentUrl false s Hc)
      as (Hl & Hf & Hi & Hh & Hn & _).
    unfold initNavigationLinks. router_fields.
    split; [exact Hl|]. split; [exact Hf|]. split; [now rewrite Hh|].
    intros o html Ho. cbn [Spa.step]. router_fields.
    rewrite Hf, lookup_insert_eq, Ho. eexists. split; [reflexivity|].
    match goal with |- context [on_loaded parse pushState_throws ?f html ?s0] =>
      destruct (on_loaded_effect parse pushState_throws f html s0 eq_refl)
        as (H1 & H2 & _) end.
    rewrite H1, H2. router_fields. rewrite Hh, app_nil_r. auto.
  - assert (eqb (trim (innerHTML (container s))) [] = false) as ->.
    { apply eqb_neq. intros E. apply trim_nil_blank in E.
      unfold is_blank in Hb. congruence. }
    unfold initNavigationLinks. router_fields. auto.
Qed.

End RouterInvariants.

Section SendFacts.

Context {parser : HtmlParser}.

Implicit Types (s : chat) (id : nat) (d : N) (e : Chatbot.event).

Local Open Scope N_scope.

Lemma trimEnd_idem (x : jsstring) : trimEnd (trimEnd x) = trimEnd x.
Proof.
  induction x as [|c x IH]; [reflexivity|]. cbn [trimEnd].
  destruct (trimEnd x) as [|d t] eqn:E.
  - destruct (isTrimmable c) eqn:Hc; [reflexivity|]. cbn. now rewrite Hc.
  - cbn [trimEnd]. cbn [trimEnd] in IH. now rewrite IH.
Qed.

Lemma trim_idem (x : jsstring) : trim (trim x) = trim x.
Proof.
  unfold trim.
  destruct (trimStart_split x) as [B|(ws & c & r & -> & Hws & Hc & E)].
  - now rewrite (trimStart_blank x B).
  - rewrite E, trimEnd_cons_keep by easy. cbn [trimStart]. rewrite Hc.
    now rewrite <- trimEnd_cons_keep, trimEnd_idem by easy.
Qed.

Lemma sendMessage_blank now s :
  is_blank (input_value s) = true -> sendMessage now s = s.
Proof. intros B. unfold sendMessage. now rewrite (trim_blank _ B). Qed.

Lemma trim_not_blank (x : jsstring) :
  is_blank x = false -> eqb (trim x) [] = false /\ trim x <> [].
Proof.
  intros B. assert (trim x <> []) as H.
  { intros E. apply trim_nil_blank in E. unfold is_blank in B. congruence. }
  split; [now apply eqb_neq|exact H].
Qed.

Lemma addMessage_user (now : jsstring) (text : jsstring) (ms : list node) :
  exists m,
    addMessage now (Some text) USER ms = Some (ms ++ [MessageNode m])
    /\ wrapper_classes m = [lit "message-wrapper"; USER]
    /\ content m = InnerHTML text.
Proof.
  unfold addMessage. rewrite valid_token_USER. cbv zeta.
  replace (eqb USER BOT) with false by reflexivity.
  eexists. split; [reflexivity|]. cbn [wrapper_classes content to_markup]. auto.
Qed.

(** X10.  nothing is sent for a blank field.  With an empty or
    whitespace-only field, pressing Enter changes nothing at all, and a
    click on the send button adds no transcript entry and issues no
    request. *)
Theorem blank_message_is_not_sent (now : jsstring) s :
  is_blank (input_value s) = true ->
  Chatbot.step now (Keypress ENTER) s = Some s
  /\ exists s',
       Chatbot.step now ClickSend s = Some s'
       /\ messages s' = messages s /\ requests s' = requests s
       /\ sends_in_flight s' = sends_in_flight s
       /\ input_value s' = input_value s.
Proof.
  intros B. unfold Chatbot.step. rewrite (eqb_refl ENTER), sendMessage_blank by easy.
  split; [reflexivity|]. eexists. split; [reflexivity|].
  unfold activity, resetInactivityTimer, clear_sessionTimeout.
  destruct (sessionActive s) eqn:Ha; [|auto].
  destruct (sessionTimeout s) as [[|n]|]; chat_fields; rewrite Ha; chat_fields; auto.
Qed.

Lemma resetInactivityTimer_transcript s :
  messages (resetInactivityTimer s) = messages s
  /\ requests (resetInactivityTimer s) = requests s
  /\ sends_in_flight (resetInactivityTimer s) = sends_in_flight s
  /\ input_value (resetInactivityTimer s) = input_value s.
Proof.
  unfold resetInactivityTimer, clear_sessionTimeout.
  destruct (sessionTimeout s) as [[|n]|]; chat_fields;
    destruct (sessionActive s); chat_fields; auto.
Qed.

(** X11.  what a send does.  With a field that is not blank, [sendMessage]
    appends the trimmed text as a user message followed by the typing
    indicator and empties the field.  When the text is well formed it
    posts exactly the trimmed text and counts one more request in flight.
    When it is not (it holds a surrogate outside a pair),
    [encodeURIComponent] throws: nothing is posted, and before the call
    returns the [catch] block has run [removeTypingIndicator] and appended
    the connection error. *)
Theorem sendMessage_effect (now : jsstring) s :
  is_blank (input_value s) = false ->
  let text := trim (input_value s) in
  let s' := sendMessage now s in
  exists m,
    wrapper_classes m = [lit "message-wrapper"; USER]
    /\ content m = InnerHTML text
    /\ input_value s' = []
    /\ if isWellFormed text
       then messages s' = messages s ++ [MessageNode m; TypingIndicator]
            /\ requests s' = requests s ++ [PostSendMessage text]
            /\ sends_in_flight s' = S (sends_in_flight s)
       else requests s' = requests s
            /\ sends_in_flight s' = sends_in_flight s
            /\ exists err,
                 messages s'
                 = removeTypingIndicator
                     (messages s ++ [MessageNode m; TypingIndicator])
                   ++ [MessageNode err]
                 /\ wrapper_classes err = [lit "message-wrapper"; BOT]
                 /\ content err
                    = InnerHTML (markdownToHtml (Some CONNECTION_ERROR)).
Proof.
  intros B text s'. destruct (trim_not_blank _ B) as [E _].
  unfold s', sendMessage. rewrite E. fold text. cbv zeta.
  destruct (addMessage_user now text (messages (resetInactivityTimer s)))
    as (m & Hm & Hw & Hc).
  destruct (resetInactivityTimer_transcript s) as (Em & Er & Es & _).
  assert (say now (Some text) USER (resetInactivityTimer s)
          = set_messages (messages s ++ [MessageNode m]) (resetInactivityTimer s))
    as -> by (unfold say; now rewrite Hm, Em).
  exists m. split; [exact Hw|]. split; [exact Hc|].
  destruct (isWellFormed text).
  - chat_fields. unfold showTypingIndicator.
    rewrite Er, Es, <- app_assoc. auto.
  - unfold sendMessage_catch. cbv zeta. chat_fields.
    match goal with |- context [say now (Some CONNECTION_ERROR) BOT ?x] =>
      destruct (say_bot now (Some CONNECTION_ERROR) x)
        as (err & Hsay & Hwe & Hce & _) end.
    rewrite Hsay. chat_fields. unfold showTypingIndicator.
    rewrite Er, Es, <- app_assoc.
    split; [reflexivity|]. split; [reflexivity|]. split; [reflexivity|].
    exists err. auto.
Qed.

Lemma sent_frame s s' : requests s' = requests s -> sent s' = sent s.
Proof. unfold sent. now intros ->. Qed.

Lemma requests_resetInactivityTimer s :
  requests (resetInactivityTimer s) = requests s.
Proof.
  unfold resetInactivityTimer, clear_sessionTimeout.
  destruct (sessionTimeout s) as [[|n]|]; chat_fields;
    destruct (sessionActive s); chat_fields; auto.
Qed.

Lemma requests_say now text sender s : requests (say now text sender s) = requests s.
Proof. now destruct (say_fields now text sender s) as (_&_&_&_&_&_&H&_). Qed.

Lemma requests_activity s : requests (activity s) = requests s.
Proof.
  unfold activity. destruct (sessionActive s);
    [apply requests_resetInactivityTimer|reflexivity].
Qed.

Lemma requests_chatBtn_click s : requests (chatBtn_click s) = requests s.
Proof.
  assert (requests (chatBtn_toggle s) = requests s) as E.
  { unfold chatBtn_toggle. destruct (display_flex s); [reflexivity|].
    chat_fields. now destruct (greeted s). }
  unfold chatBtn_click, chatBtn_session.
  destruct (display_flex (chatBtn_toggle s)); cbn [negb].
  - unfold clear_sessionTimeout.
    now destruct (sessionTimeout (chatBtn_toggle s)) as [[|n]|].
  - now rewrite requests_resetInactivityTimer.
Qed.

Lemma requests_sendMessage now s :
  is_blank (input_value s) = false ->
  requests (sendMessage now s)
  = requests s ++ (if isWellFormed (trim (input_value s))
                   then [PostSendMessage (trim (input_value s))] else []).
Proof.
  intros B. destruct (trim_not_blank _ B) as [E _].
  unfold sendMessage. rewrite E. cbv zeta.
  destruct (isWellFormed _).
  - chat_fields. now rewrite requests_say, requests_resetInactivityTimer.
  - match goal with |- context [sendMessage_catch now ?x] =>
      destruct (sendMessage_catch_fields now x)
        as (_ & _ & _ & _ & _ & _ & K & _) end.
    cbv zeta in K. rewrite K. chat_fields.
    now rewrite requests_say, requests_resetInactivityTimer, app_nil_r.
Qed.

Lemma sent_sendMessage now s :
  Forall tidy (sent s) -> Forall tidy (sent (sendMessage now s)).
Proof.
  intros H. destruct (is_blank (input_value s)) eqn:B.
  - now rewrite sendMessage_blank.
  - unfold sent. rewrite (requests_sendMessage now s B), omap_app. apply Forall_app.
    split; [exact H|]. destruct (isWellFormed _); cbn; [|constructor].
    constructor; [|constructor].
    split; [apply (trim_not_blank _ B)|apply trim_idem].
Qed.

Lemma sent_step now e s s' :
  Chatbot.step now e s = Some s' -> Forall tidy (sent s) -> Forall tidy (sent s').
Proof.
  intros E H. destruct e; unfold Chatbot.step in E.
  - injection E as <-. rewrite (sent_frame s); [exact H|].
    apply requests_chatBtn_click.
  - injection E as <-. exact H.
  - injection E as <-. rewrite (sent_frame s); [exact H|].
    now rewrite requests_activity.
  - injection E as <-. rewrite (sent_frame s); [exact H|]. apply requests_activity.
  - injection E as <-. rewrite (sent_frame (sendMessage now s));
      [now apply sent_sendMessage|apply requests_activity].
  - injection E as <-. destruct (eqb key ENTER); [now apply sent_sendMessage|exact H].
  - injection E as <-. exact H.
  - injection E as <-. destruct (truthy _); exact H.
  - destruct (timers s !! id) as [[k d]|]; [|easy]. injection E as <-.
    cbn [kind]. destruct k.
    + rewrite (sent_frame s); [exact H|]. now rewrite requests_say.
    + rewrite (sent_frame s); [exact H|]. unfold handleSessionTimeout.
      chat_fields. now rewrite requests_say.
    + unfold sent, clearConversation. chat_fields. rewrite omap_app. cbn.
      now rewrite app_nil_r.
    + destruct (truthy _); [now apply sent_sendMessage|exact H].
  - destruct (sends_in_flight s) as [|n]; [easy|]. injection E as <-.
    rewrite (sent_frame s); [exact H|]. unfold sendMessage_resume.
    destruct o; rewrite ?requests_resetInactivityTimer, requests_say; reflexivity.
  - destruct (clears_in_flight s) as [|n]; [easy|]. injection E as <-.
    rewrite (sent_frame s); [exact H|]. unfold clearConversation_resume.
    now destruct o.
  - destruct (clears_settling s) as [|n]; [easy|]. injection E as <-. exact H.
Qed.

(** X12.  what reaches the backend.  Whatever the user and the timers do,
    every text the page has posted to /send-message/ is non-empty and has no
    surrounding whitespace. *)
Theorem posted_texts_are_trimmed s :
  reachable s -> forall t, t ∈ sent s -> t <> [] /\ trim t = t.
Proof.
  intros (flex & ms & inp & tr & Hrun).
  assert (Forall tidy (sent s)) as H.
  { assert (Forall tidy (sent (page_load flex ms inp))) as H0 by constructor.
    revert Hrun H0. generalize (page_load flex ms inp).
    induction tr as [|[now e] tr IH]; intros s0; cbn [Chatbot.run].
    - now intros [= <-].
    - destruct (Chatbot.step now e s0) as [s1|] eqn:E; [|easy].
      intros Hrun H0. apply (IH s1 Hrun). exact (sent_step now e s0 s1 E H0). }
  intros t Ht. exact (proj1 (Forall_forall _ _) H t Ht).
Qed.

Lemma removeTypingIndicator_skip (before rest : list node) :
  no_decoy before -> TypingIndicator ∉ before ->
  removeTypingIndicator (before ++ rest) = before ++ removeTypingIndicator rest.
Proof.
  induction before as [|n before IH]; intros Hd Hn; [reflexivity|].
  apply not_elem_of_cons in Hn as [Hn1 Hn2].
  destruct n as [m|]; [|congruence]. cbn [app removeTypingIndicator].
  rewrite (Hd m) by apply list_elem_of_here.
  rewrite IH; [reflexivity| |exact Hn2].
  intros m' Hm'. apply Hd. now apply list_elem_of_further.
Qed.

(** X13.  the typing indicator.  In a transcript none of whose messages
    holds an element with the id [typing-indicator], showing the indicator
    and removing it again restores a transcript that held no indicator, and
    removing takes the oldest indicator away and nothing else.  When a
    message before the indicator does hold such an element, that element
    is detached from the message and the indicator stays. *)
Theorem typing_indicator_round_trip (ms : list node) :
  (no_decoy ms -> TypingIndicator ∉ ms ->
   removeTypingIndicator (showTypingIndicator ms) = ms)
  /\ (forall before after,
        no_decoy before -> TypingIndicator ∉ before ->
        removeTypingIndicator (before ++ TypingIndicator :: after)
        = before ++ after)
  /\ (forall before m after,
        no_decoy before -> TypingIndicator ∉ before ->
        indicators (content m) <> O ->
        removeTypingIndicator (before ++ MessageNode m :: after)
        = before ++ MessageNode (set_content (Detached (content m)) m) :: after).
Proof.
  split; [|split].
  - intros Hd Hn. unfold showTypingIndicator.
    rewrite removeTypingIndicator_skip by assumption. cbn. apply app_nil_r.
  - intros before after Hd Hn. now rewrite removeTypingIndicator_skip.
  - intros before m after Hd Hn Hm.
    rewrite removeTypingIndicator_skip by assumption.
    cbn [removeTypingIndicator]. now destruct (indicators (content m)).
Qed.

End SendFacts.

Section SessionProgress.

Context {parser : HtmlParser}.

Implicit Types (s : chat) (id : nat) (d : N) (e : Chatbot.event).

Lemma beyond_frame s s' :
  timers s' = timers s -> sessionTimeout s' = sessionTimeout s ->
  sessionActive s' = sessionActive s ->
  clears_in_flight s' = clears_in_flight s ->
  clears_settling s' = clears_settling s ->
  next_timer s' = next_timer s ->
  beyond s -> beyond s'.
Proof.
  intros Ht Hst Ha Hf Hs Hn H. unfold beyond.
  now rewrite Ht, Hst, Ha, Hf, Hs, Hn.
Qed.

Lemma beyond_say now text sender s : beyond s -> beyond (say now text sender s).
Proof.
  unfold say. destruct (addMessage _ _ _ _); [|easy].
  apply beyond_frame; reflexivity.
Qed.

(** Removing a timer that is not the farewell delay. *)
Lemma beyond_clearTimeout id s :
  (forall d, timers s !! id <> Some (Timer FarewellTimer d)) ->
  beyond s -> beyond (clearTimeout id s).
Proof.
  intros Hid (H1 & H2 & H3). unfold beyond. chat_fields. repeat split.
  - intros i t [_ H]%lookup_delete_Some. eauto.
  - intros fid d i [_ H]%lookup_delete_Some. eauto.
  - intros Ha. destruct (H3 Ha) as [[fid Hf]|H]; [left|now right].
    exists fid. rewrite lookup_delete_ne; [exact Hf|]. intros <-. exact (Hid _ Hf).
Qed.

Lemma beyond_clear_sessionTimeout s : beyond s -> beyond (clear_sessionTimeout s).
Proof.
  intros H. unfold clear_sessionTimeout.
  destruct (sessionTimeout s) as [[|n]|] eqn:E; auto.
  apply beyond_clearTimeout; [|exact H].
  intros d Hf. destruct H as (_ & H2 & _). specialize (H2 _ _ _ Hf E). lia.
Qed.

Lemma beyond_setTimeout k ms s :
  k <> FarewellTimer -> beyond s -> beyond (setTimeout k ms s).2.
Proof.
  intros Hk (H1 & H2 & H3). unfold beyond. chat_fields. repeat split.
  - intros i t [[<- _]|[_ H]]%lookup_insert_Some; [lia|].
    specialize (H1 _ _ H). lia.
  - intros fid d i [[_ [=]]|[_ H]]%lookup_insert_Some; [congruence|eauto].
  - intros Ha. destruct (H3 Ha) as [[fid Hf]|H]; [left|now right].
    exists fid. rewrite lookup_insert_ne; [exact Hf|].
    specialize (H1 _ _ Hf). lia.
Qed.

Lemma beyond_resetInactivityTimer s :
  inv s -> beyond s -> beyond (resetInactivityTimer s).
Proof.
  intros I H. unfold resetInactivityTimer.
  pose proof (beyond_clear_sessionTimeout s H) as H1.
  pose proof (inv_clear_sessionTimeout s I) as I1.
  destruct (sessionActive (clear_sessionTimeout s)) eqn:Ha; [|exact H1].
  destruct H1 as (K1 & K2 & K3).
  destruct (inv_active _ I1 Ha) as (Hnf & _).
  unfold beyond. chat_fields. repeat split.
  - intros i t [[<- _]|[_ Hi]]%lookup_insert_Some; [lia|].
    specialize (K1 _ _ Hi). lia.
  - intros fid d i [[_ [=]]|[_ Hf]]%lookup_insert_Some. exfalso. exact (Hnf _ _ Hf).
  - congruence.
Qed.

Lemma beyond_activity s : inv s -> beyond s -> beyond (activity s).
Proof.
  unfold activity. destruct (sessionActive s); auto using beyond_resetInactivityTimer.
Qed.

Lemma beyond_sendMessage now s : inv s -> beyond s -> beyond (sendMessage now s).
Proof.
  intros I H. destruct (eqb (trim (input_value s)) []) eqn:E.
  - unfold sendMessage. now rewrite E.
  - destruct (sendMessage_session now s E)
      as (_ & _ & H3 & H4 & H5 & H6 & H7 & H8).
    cbv zeta in H3, H4, H5, H6, H7, H8.
    pose proof (beyond_resetInactivityTimer s I H) as H2.
    revert H2; apply beyond_frame; assumption.
Qed.

Lemma inv_chatBtn_toggle s : inv s -> inv (chatBtn_toggle s).
Proof.
  intros I. unfold chatBtn_toggle. destruct (display_flex s).
  - revert I; apply inv_frame; reflexivity.
  - chat_fields. destruct (greeted s); cbn [negb].
    + revert I; apply inv_frame; reflexivity.
    + assert (inv (set_display_flex true s)) as I'
        by (revert I; apply inv_frame; reflexivity).
      apply (inv_setTimeout_other GreetingTimer 300) in I'; [|easy..].
      revert I'. apply inv_frame; reflexivity.
Qed.

Lemma beyond_chatBtn_toggle s : beyond s -> beyond (chatBtn_toggle s).
Proof.
  intros H. unfold chatBtn_toggle. destruct (display_flex s).
  - revert H; apply beyond_frame; reflexivity.
  - chat_fields. destruct (greeted s); cbn [negb].
    + revert H; apply beyond_frame; reflexivity.
    + assert (beyond (set_display_flex true s)) as H'
        by (revert H; apply beyond_frame; reflexivity).
      apply (beyond_setTimeout GreetingTimer 300) in H'; [|easy].
      revert H'. apply beyond_frame; reflexivity.
Qed.

Lemma beyond_chatBtn_click s : inv s -> beyond s -> beyond (chatBtn_click s).
Proof.
  intros I H. unfold chatBtn_click, chatBtn_session.
  pose proof (inv_chatBtn_toggle s I). pose proof (beyond_chatBtn_toggle s H).
  destruct (display_flex _); cbn [negb];
    auto using beyond_resetInactivityTimer, beyond_clear_sessionTimeout.
Qed.

Lemma beyond_step now e s s' :
  Chatbot.step now e s = Some s' -> inv s -> beyond s -> beyond s'.
Proof.
  intros E I H. destruct e as [| |v| | |key|v|v|id|o|o|];
    unfold Chatbot.step in E.
  - injection E as <-. now apply beyond_chatBtn_click.
  - injection E as <-. revert H; apply beyond_frame; reflexivity.
  - injection E as <-. apply beyond_activity.
    + revert I; apply inv_frame; reflexivity.
    + revert H; apply beyond_frame; reflexivity.
  - injection E as <-. now apply beyond_activity.
  - injection E as <-.
    apply beyond_activity; [now apply inv_sendMessage|now apply beyond_sendMessage].
  - injection E as <-. destruct (eqb key ENTER); auto using beyond_sendMessage.
  - injection E as <-. revert H; apply beyond_frame; reflexivity.
  - injection E as <-. destruct (truthy _); [|exact H].
    apply (beyond_setTimeout AutoSubmitTimer 500 (set_input_value v s)); [easy|].
    revert H; apply beyond_frame; reflexivity.
  - destruct (timers s !! id) as [[k d]|] eqn:Hid; [|easy].
    injection E as <-. cbn [kind]. destruct k.
    + apply beyond_say, beyond_clearTimeout; [congruence|exact H].
    + (* the timeout sequence starts *)
      destruct (inv_inactivity s I _ _ Hid) as [Hst Ha].
      destruct (inv_active s I Ha) as (Hnf & _).
      destruct H as (H1 & H2 & H3).
      unfold handleSessionTimeout.
      destruct (say_fields now (Some FAREWELL) BOT
                  (set_sessionActive false (clearTimeout id s)))
        as (_ & _ & Est & Eact & Et & En & _ & Ecf & Ecs).
      unfold beyond. chat_fields. rewrite Est, Et, En. chat_fields.
      repeat split.
      * intros i t [[<- _]|[_ [_ Hi]%lookup_delete_Some]]%lookup_insert_Some;
          [lia|]. specialize (H1 _ _ Hi). lia.
      * intros fid d' i [[<- _]|[_ [_ Hf]%lookup_delete_Some]]%lookup_insert_Some.
        -- intros Hi. exact (inv_fresh s I _ Hi).
        -- exfalso. exact (Hnf _ _ Hf).
      * intros _. left. exists (next_timer s). apply lookup_insert_eq.
    + (* the clear request is issued *)
      destruct (inv_farewell s I _ _ Hid) as [Hc1 Hc2].
      destruct H as (H1 & H2 & H3).
      unfold beyond, clearConversation. chat_fields. repeat split.
      * intros i t [_ Hi]%lookup_delete_Some. eauto.
      * intros fid d' i [_ Hf]%lookup_delete_Some. eauto.
      * intros _. right; left. now rewrite Hc1.
    + assert (beyond (clearTimeout id s)) as H'
        by (apply beyond_clearTimeout; [congruence|exact H]).
      destruct (truthy _); [|exact H'].
      apply beyond_sendMessage; [now apply inv_clearTimeout|exact H'].
  - destruct (sends_in_flight s) as [|n]; [easy|]. injection E as <-.
    assert (inv (set_messages (removeTypingIndicator (messages (set_sends_in_flight n s)))
                   (set_sends_in_flight n s))) as I1
      by (revert I; apply inv_frame; reflexivity).
    assert (beyond (set_messages (removeTypingIndicator (messages (set_sends_in_flight n s)))
                      (set_sends_in_flight n s))) as H1
      by (revert H; apply beyond_frame; reflexivity).
    unfold sendMessage_resume.
    destruct o; auto using beyond_say, beyond_resetInactivityTimer, inv_say.
  - destruct (clears_in_flight s) as [|n] eqn:Hn; [easy|]. injection E as <-.
    pose proof (inv_clears s I) as Hc. destruct H as (H1 & H2 & H3).
    assert (n = O /\ clears_settling s = O) as [-> Hs] by lia.
    unfold beyond, clearConversation_resume.
    destruct o; chat_fields; rewrite Hs; repeat split; auto.
  - destruct (clears_settling s) as [|n] eqn:Hn; [easy|]. injection E as <-.
    destruct H as (H1 & H2 & H3).
    unfold beyond, handleSessionTimeout_resume. chat_fields.
    repeat split; [exact H1|exact H2|discriminate].
Qed.

Lemma progress_run tr s s' :
  Chatbot.run tr s = Some s' -> inv s /\ beyond s -> inv s' /\ beyond s'.
Proof.
  revert s; induction tr as [|[now e] tr IH]; intros s; cbn [Chatbot.run].
  - now intros [= <-].
  - destruct (Chatbot.step now e s) as [s1|] eqn:E; [|easy].
    intros Hrun [I H]. apply (IH s1 Hrun). split.
    + exact (inv_step now e s s1 E I).
    + exact (beyond_step now e s s1 E I H).
Qed.

Lemma progress_reachable s : reachable s -> inv s /\ beyond s.
Proof.
  intros (flex & ms & inp & tr & Hrun). apply (progress_run tr _ s Hrun).
  split; [apply inv_page_load|]. unfold beyond, page_load. chat_fields.
  repeat split.
  - intros id t H. now rewrite lookup_empty in H.
  - intros fid d id H. now rewrite lookup_empty in H.
  - discriminate.
Qed.

End SessionProgress.

Section SessionExtras.

Context {parser : HtmlParser}.

Implicit Types (s : chat) (id : nat) (d : N) (e : Chatbot.event).

(** X14.  a timeout sequence never hangs.  In every state the page can
    reach with [sessionActive] false, the step the sequence is waiting for
    can be delivered, and at most three deliveries (the farewell delay, the
    response to the clear request, the resumption of the handler) bring
    [sessionActive] back to true with [greeted] false. *)
Theorem timeout_sequence_completes (now : jsstring) s :
  reachable s -> sessionActive s = false ->
  exists tr s',
    (length tr <= 3)%nat
    /\ Chatbot.run tr s = Some s'
    /\ sessionActive s' = true /\ greeted s' = false.
Proof.
  intros R Ha. destruct (progress_reachable s R) as [I (_ & _ & Hbusy)].
  assert (forall s0, (0 < clears_settling s0)%nat ->
            exists s1, Chatbot.run [(now, ClearSettled)] s0 = Some s1
                       /\ sessionActive s1 = true /\ greeted s1 = false) as Hsettle.
  { intros s0 H0. cbn [Chatbot.run]. unfold Chatbot.step.
    destruct (clears_settling s0); [lia|]. eexists. split; [reflexivity|].
    split; reflexivity. }
  assert (forall s0, (0 < clears_in_flight s0)%nat ->
            exists s1, Chatbot.run [(now, ClearResponse ClearOk); (now, ClearSettled)] s0
                       = Some s1
                       /\ sessionActive s1 = true /\ greeted s1 = false) as Hclear.
  { intros s0 H0. cbn [Chatbot.run]. unfold Chatbot.step at 1.
    destruct (clears_in_flight s0) as [|n]; [lia|].
    apply (Hsettle (clearConversation_resume ClearOk (set_clears_in_flight n s0))).
    cbn. lia. }
  destruct (Hbusy Ha) as [[fid Hf]|[Hc|Hc]].
  - destruct (Hclear (clearConversation (clearTimeout fid s))) as (s1 & E & H1);
      [cbn; lia|].
    exists [(now, TimerFire fid); (now, ClearResponse ClearOk); (now, ClearSettled)], s1.
    split; [cbn; lia|]. split; [|exact H1].
    cbn [Chatbot.run]. unfold Chatbot.step at 1. rewrite Hf. exact E.
  - destruct (Hclear s) as (s1 & E & H1); [lia|].
    exists [(now, ClearResponse ClearOk); (now, ClearSettled)], s1.
    split; [cbn; lia|]. auto.
  - destruct (Hsettle s) as (s1 & E & H1); [lia|].
    exists [(now, ClearSettled)], s1. split; [cbn; lia|]. auto.
Qed.

(** X15.  timer handles.  In every state the page can reach, the handles
    of the pending timers are positive and below the handle [setTimeout]
    hands out next, so scheduling a timer never replaces a pending one. *)
Theorem pending_timers_keep_their_handles s :
  reachable s ->
  (forall id t, timers s !! id = Some t -> (1 <= id < next_timer s)%nat)
  /\ (forall k ms id t,
        timers s !! id = Some t ->
        timers (setTimeout k ms s).2 !! id = Some t).
Proof.
  intros R. destruct (progress_reachable s R) as [I (Hk & _)].
  destruct (inv_handles s I) as [H0 _]. split.
  - intros id t H. split; [|exact (Hk _ _ H)].
    destruct id; [congruence|lia].
  - intros k ms id t H. chat_fields. rewrite lookup_insert_ne; [exact H|].
    specialize (Hk _ _ H). lia.
Qed.

(** X16.  one inactivity timer.  In every state the page can reach, at
    most one inactivity timer is pending; its handle is the one
    [sessionTimeout] holds, and [sessionActive] is true while it is
    pending. *)
Theorem one_inactivity_timer s :
  reachable s ->
  forall id d, timers s !! id = Some (Timer InactivityTimer d) ->
    sessionTimeout s = Some id /\ sessionActive s = true
    /\ forall id' d', timers s !! id' = Some (Timer InactivityTimer d') -> id' = id.
Proof.
  intros R id d H. pose proof (inv_reachable s R) as I.
  destruct (inv_inactivity s I _ _ H) as [Hst Ha]. repeat split; auto.
  intros id' d' H'. destruct (inv_inactivity s I _ _ H') as [Hst' _]. congruence.
Qed.

(** X17.  what the toggle does to the timer.  The second click listener
    of the toggle button reads the display after the first one has changed
    it.  So the click that opens the chat leaves no inactivity timer
    pending, and the click that closes it, if the session is active, starts
    the two-minute timer. *)
Theorem toggle_timer_is_inverted s :
  reachable s ->
  (display_flex s = false ->
     display_flex (chatBtn_click s) = true
     /\ ~ inactivity_pending (chatBtn_click s))
  /\ (display_flex s = true -> sessionActive s = true ->
        display_flex (chatBtn_click s) = false
        /\ sessionTimeout (chatBtn_click s) = Some (next_timer s)
        /\ timers (chatBtn_click s) !! next_timer s
           = Some (Timer InactivityTimer INACTIVITY_TIMEOUT)).
Proof.
  intros R. pose proof (inv_reachable s R) as I. split.
  - intros Hd. pose proof (inv_chatBtn_toggle s I) as It.
    assert (display_flex (chatBtn_toggle s) = true) as Hd'.
    { unfold chatBtn_toggle. rewrite Hd. chat_fields. now destruct (greeted s). }
    unfold chatBtn_click, chatBtn_session. rewrite Hd'. cbn [negb].
    split.
    + unfold clear_sessionTimeout.
      now destruct (sessionTimeout (chatBtn_toggle s)) as [[|n]|].
    + intros (id & d & H). exact (clear_sessionTimeout_none _ _ _ It H).
  - intros Hd Ha. unfold chatBtn_click, chatBtn_toggle. rewrite Hd.
    unfold chatBtn_session. chat_fields.
    unfold resetInactivityTimer, clear_sessionTimeout. chat_fields.
    destruct (sessionTimeout s) as [[|n]|]; chat_fields; rewrite Ha; chat_fields;
      repeat split; apply lookup_insert_eq.
Qed.

Lemma keep_last_snoc (ms : list node) (n : node) : keep_last (ms ++ [n]) = [n].
Proof. unfold keep_last. now rewrite last_snoc. Qed.

(** X18.  what the clear leaves.  When the timeout sequence runs without
    interruption and the backend confirms the clear, the transcript ends up
    holding the farewell and nothing else; when the backend refuses or the
    request fails, the transcript keeps everything and the farewell. *)
Theorem clear_keeps_only_farewell (now : jsstring) s id d (o : clear_outcome) :
  timers s !! id = Some (Timer InactivityTimer d) ->
  exists s4 farewell,
    Chatbot.run [(now, TimerFire id); (now, TimerFire (next_timer s));
                 (now, ClearResponse o); (now, ClearSettled)] s = Some s4
    /\ content farewell = InnerHTML (markdownToHtml (Some FAREWELL))
    /\ messages s4 = match o with
                     | ClearOk => [MessageNode farewell]
                     | _ => messages s ++ [MessageNode farewell]
                     end.
Proof.
  intros Hid.
  destruct (say_bot now (Some FAREWELL)
              (set_sessionActive false (clearTimeout id s)))
    as (farewell & Hsay & _ & Hc & _).
  set (s1 := handleSessionTimeout now (clearTimeout id s)).
  assert (s1 = (setTimeout FarewellTimer 2000
                  (set_messages (messages s ++ [MessageNode farewell])
                     (set_sessionActive false (clearTimeout id s)))).2) as Hs1
    by (unfold s1, handleSessionTimeout; now rewrite Hsay).
  assert (timers s1 !! next_timer s = Some (Timer FarewellTimer 2000)) as Hf
    by (rewrite Hs1; chat_fields; apply lookup_insert_eq).
  assert (messages s1 = messages s ++ [MessageNode farewell]) as Hm
    by (now rewrite Hs1).
  eexists _, farewell. split; [|split; [exact Hc|]].
  - cbn [Chatbot.run]. unfold Chatbot.step at 1. rewrite Hid. cbn [kind].
    fold s1. unfold Chatbot.step at 1. rewrite Hf. cbn [kind].
    unfold Chatbot.step at 1. unfold clearConversation at 1. chat_fields.
    unfold Chatbot.step at 1. unfold clearConversation_resume at 1.
    destruct o; chat_fields; reflexivity.
  - unfold handleSessionTimeout_resume, clearConversation_resume, clearConversation.
    destruct o; chat_fields; rewrite Hm; [apply keep_last_snoc|reflexivity..].
Qed.

End SessionExtras.

Section GreetingFacts.

Context {parser : HtmlParser}.

Implicit Types (s : chat) (id : nat) (d : N) (e : Chatbot.event).

Lemma none_new_same k s s' : timers s' = timers s -> none_new k s s'.
Proof. intros E id d. now rewrite E. Qed.

Lemma none_new_trans k s1 s2 s3 :
  none_new k s1 s2 -> none_new k s2 s3 -> none_new k s1 s3.
Proof. intros H12 H23 id d H. apply H12, H23, H. Qed.

Lemma none_new_clear_sessionTimeout k s : none_new k s (clear_sessionTimeout s).
Proof.
  unfold clear_sessionTimeout. destruct (sessionTimeout s) as [[|n]|];
    try (now apply none_new_same).
  intros id d. chat_fields. now intros [_ H]%lookup_delete_Some.
Qed.

Lemma none_new_resetInactivityTimer k s :
  k <> InactivityTimer -> none_new k s (resetInactivityTimer s).
Proof.
  intros Hk. unfold resetInactivityTimer.
  destruct (sessionActive (clear_sessionTimeout s));
    [|apply none_new_clear_sessionTimeout].
  apply (none_new_trans k s (clear_sessionTimeout s));
    [apply none_new_clear_sessionTimeout|].
  intros id d. chat_fields.
  intros [[_ [=]]|[_ H]]%lookup_insert_Some; [congruence|exact H].
Qed.

Lemma greeted_resetInactivityTimer s :
  greeted (resetInactivityTimer s) = greeted s.
Proof.
  unfold resetInactivityTimer, clear_sessionTimeout.
  destruct (sessionTimeout s) as [[|n]|]; chat_fields;
    destruct (sessionActive s); reflexivity.
Qed.

Lemma greeting_say now text sender s :
  greeted (say now text sender s) = greeted s
  /\ none_new GreetingTimer s (say now text sender s).
Proof.
  destruct (say_fields now text sender s) as (_ & Hg & _ & _ & Ht & _).
  split; [exact Hg|now apply none_new_same].
Qed.

Lemma greeting_sendMessage now s :
  greeted (sendMessage now s) = greeted s
  /\ none_new GreetingTimer s (sendMessage now s).
Proof.
  destruct (eqb (trim (input_value s)) []) eqn:E.
  { unfold sendMessage. rewrite E. split; [|apply none_new_same]; easy. }
  destruct (sendMessage_session now s E) as (_ & Hg & _ & _ & Ht & _).
  cbv zeta in Hg, Ht. split; [now rewrite Hg, greeted_resetInactivityTimer|].
  apply (none_new_trans _ s (resetInactivityTimer s));
    [now apply none_new_resetInactivityTimer|].
  now apply none_new_same.
Qed.

Lemma greeting_activity s :
  greeted (activity s) = greeted s /\ none_new GreetingTimer s (activity s).
Proof.
  unfold activity. destruct (sessionActive s).
  - split; [apply greeted_resetInactivityTimer|
            now apply none_new_resetInactivityTimer].
  - split; [|apply none_new_same]; easy.
Qed.

(** X19.  one greeting per session.  Once the greeting has been scheduled
    ([greeted] is true), no event schedules another one and the flag stays
    true, until the end of a timeout sequence resets it. *)
Theorem greeting_only_once (now : jsstring) e s s' :
  Chatbot.step now e s = Some s' -> e <> ClearSettled -> greeted s = true ->
  greeted s' = true /\ none_new GreetingTimer s s'.
Proof.
  intros E He Hg. destruct e as [| |v| | |key|v|v|id|o|o|];
    unfold Chatbot.step in E; try congruence.
  - injection E as <-. unfold chatBtn_click.
    assert (greeted (chatBtn_toggle s) = true
            /\ timers (chatBtn_toggle s) = timers s) as [Hg' Ht].
    { unfold chatBtn_toggle. destruct (display_flex s); [auto|].
      chat_fields. rewrite Hg. auto. }
    unfold chatBtn_session. destruct (display_flex (chatBtn_toggle s)); cbn [negb].
    + split.
      * unfold clear_sessionTimeout.
        now destruct (sessionTimeout (chatBtn_toggle s)) as [[|n]|].
      * apply (none_new_trans _ s (chatBtn_toggle s));
          [now apply none_new_same|apply none_new_clear_sessionTimeout].
    + split; [now rewrite greeted_resetInactivityTimer|].
      apply (none_new_trans _ s (chatBtn_toggle s)); [now apply none_new_same|].
      now apply none_new_resetInactivityTimer.
  - injection E as <-. split; [exact Hg|now apply none_new_same].
  - injection E as <-. destruct (greeting_activity (set_input_value v s)) as [H1 H2].
    split; [now rewrite H1|]. intros id d H. exact (H2 _ _ H).
  - injection E as <-. destruct (greeting_activity s) as [H1 H2].
    split; [now rewrite H1|exact H2].
  - injection E as <-. destruct (greeting_activity (sendMessage now s)) as [H1 H2].
    destruct (greeting_sendMessage now s) as [H3 H4].
    split; [now rewrite H1, H3|]. exact (none_new_trans _ _ _ _ H4 H2).
  - injection E as <-. destruct (eqb key ENTER).
    + destruct (greeting_sendMessage now s) as [H3 H4]. split; [now rewrite H3|exact H4].
    + split; [exact Hg|now apply none_new_same].
  - injection E as <-. split; [exact Hg|now apply none_new_same].
  - injection E as <-. destruct (truthy v).
    + split; [exact Hg|]. intros id d. chat_fields.
      now intros [[_ [=]]|[_ H]]%lookup_insert_Some.
    + split; [exact Hg|now apply none_new_same].
  - destruct (timers s !! id) as [[k d]|] eqn:Hid; [|easy].
    injection E as <-. cbn [kind].
    assert (none_new GreetingTimer s (clearTimeout id s)) as Hc
      by (intros i d'; chat_fields; now intros [_ H]%lookup_delete_Some).
    destruct k.
    + destruct (greeting_say now (Some GREETING) BOT (clearTimeout id s)) as [H1 H2].
      split; [now rewrite H1|]. exact (none_new_trans _ _ _ _ Hc H2).
    + unfold handleSessionTimeout.
      destruct (greeting_say now (Some FAREWELL) BOT
                  (set_sessionActive false (clearTimeout id s))) as [H1 H2].
      chat_fields. split; [now rewrite H1|].
      intros i d'. chat_fields. intros [[_ [=]]|[_ H]]%lookup_insert_Some.
      apply Hc. exact (H2 _ _ H).
    + split; [exact Hg|]. exact Hc.
    + destruct (truthy _).
      * destruct (greeting_sendMessage now (clearTimeout id s)) as [H1 H2].
        split; [now rewrite H1|]. exact (none_new_trans _ _ _ _ Hc H2).
      * split; [exact Hg|exact Hc].
  - destruct (sends_in_flight s) as [|n]; [easy|]. injection E as <-.
    unfold sendMessage_resume.
    set (s1 := set_messages _ _).
    assert (greeted s1 = true /\ timers s1 = timers s) as [Hg1 Ht1] by auto.
    destruct o.
    + destruct (greeting_say now response BOT s1) as [H1 H2].
      split; [now rewrite greeted_resetInactivityTimer, H1|].
      apply (none_new_trans _ s s1); [now apply none_new_same|].
      apply (none_new_trans _ s1 (say now response BOT s1)); [exact H2|].
      now apply none_new_resetInactivityTimer.
    + destruct (greeting_say now (Some (SERVER_ERROR_PREFIX ++ error_text error))
                  BOT s1) as [H1 H2].
      split; [now rewrite H1|].
      apply (none_new_trans _ s s1); [now apply none_new_same|exact H2].
    + destruct (greeting_say now (Some CONNECTION_ERROR) BOT s1) as [H1 H2].
      split; [now rewrite H1|].
      apply (none_new_trans _ s s1); [now apply none_new_same|exact H2].
  - destruct (clears_in_flight s) as [|n]; [easy|]. injection E as <-.
    unfold clearConversation_resume.
    destruct o; (split; [exact Hg|now apply none_new_same]).
Qed.

End GreetingFacts.

Section VoiceFacts.

Context {parser : HtmlParser}.

Implicit Types (s : chat) (rs : list speech_result).

Lemma foldl_hear rs (acc : jsstring) s :
  foldl hear (acc, s) rs =
  (acc ++ finals rs, foldl (fun s0 t => set_input_value t s0) s (interims rs)).
Proof.
  revert acc s; induction rs as [|r rs IH]; intros acc s; cbn [foldl].
  - unfold finals, interims. cbn. now rewrite app_nil_r.
  - unfold hear at 2. cbn [fst snd]. unfold finals, interims. cbn [List.filter].
    destruct (isFinal r); cbn [negb map concat foldl]; rewrite IH;
      unfold finals, interims; now rewrite ?app_assoc.
Qed.

Lemma run_interims (now : jsstring) (ts : list jsstring)
    (rest : list (jsstring * Chatbot.event)) s :
  Chatbot.run (map (fun t => (now, VoiceInterim t)) ts ++ rest) s =
  Chatbot.run rest (foldl (fun s0 t => set_input_value t s0) s ts).
Proof.
  revert s; induction ts as [|t ts IH]; intros s; [reflexivity|].
  cbn [map app Chatbot.run foldl]. unfold Chatbot.step at 1. apply IH.
Qed.

(** X20.  the recognition callback.  Handling a batch of recognition
    results amounts to putting each interim transcript into the field, in
    order, and then handling the concatenation of the final transcripts:
    if it is not empty it replaces the field and the delayed send is
    scheduled. *)
Theorem onresult_as_events (now : jsstring) (results : list speech_result)
    (resultIndex : nat) s :
  let rs := drop resultIndex results in
  Chatbot.run (map (fun t => (now, VoiceInterim t)) (interims rs)
               ++ [(now, VoiceFinal (finals rs))]) s
  = Some (onresult results resultIndex s).
Proof.
  intros rs. rewrite run_interims. cbn [Chatbot.run]. unfold Chatbot.step.
  unfold onresult. fold rs. rewrite foldl_hear. cbn [fst snd app].
  now destruct (truthy (finals rs)).
Qed.

End VoiceFacts.

Section RendererExtras.

Local Open Scope N_scope.

Arguments match_bold : simpl never.
Arguments replace_bold : simpl never.

(** X21.  the bold pass works line by line.  No bold span crosses a line
    feed: the pass leaves the number of lines unchanged and rewrites each
    line as it would rewrite it alone. *)
Theorem bold_pass_is_linewise (t : jsstring) :
  split_lf (replace_bold t) = map replace_bold (split_lf t)
  /\ length (split_lf (replace_bold t)) = length (split_lf t).
Proof.
  split; [apply split_lf_replace_bold|].
  now rewrite split_lf_replace_bold, length_map.
Qed.

Lemma replace_bold_skip (pre s : jsstring) :
  STAR ∉ pre -> replace_bold (pre ++ s) = pre ++ replace_bold s.
Proof.
  induction pre as [|c pre IH]; [reflexivity|].
  intros [Hc Hp]%not_elem_of_cons. rewrite <- !app_comm_cons.
  rewrite replace_bold_cons, match_bold_head by congruence. now rewrite IH.
Qed.

Lemma close_bold_exact (g post : jsstring) :
  STAR ∉ g -> no_terminator g = true ->
  close_bold (g ++ STARS ++ post) = Some (g, post).
Proof.
  induction g as [|c g IH]; [reflexivity|].
  intros [Hc Hg]%not_elem_of_cons [Hl Hn]%andb_true_iff.
  apply negb_true_iff in Hl. rewrite <- app_comm_cons.
  pose proof (IH Hg Hn) as IH'.
  destruct (g ++ STARS ++ post) as [|d rest] eqn:E; [now destruct g|].
  rewrite close_bold_eq, IH'.
  assert ((c =? STAR) = false) as -> by (apply N.eqb_neq; congruence).
  now rewrite Hl.
Qed.

(** X22.  a simple bold span.  A span [**g**] whose text [g] is not empty
    and holds neither an asterisk nor a line terminator, behind a prefix
    without asterisks, becomes [<strong>g</strong>]; the prefix is copied and
    the pass goes on behind the span. *)
Theorem simple_span_becomes_strong (pre g post : jsstring) :
  STAR ∉ pre -> g <> [] -> STAR ∉ g -> no_terminator g = true ->
  replace_bold (pre ++ STARS ++ g ++ STARS ++ post)
  = pre ++ STRONG_OPEN ++ g ++ STRONG_CLOSE ++ replace_bold post.
Proof.
  intros Hp Hg Hs Hn. rewrite replace_bold_skip by easy. f_equal.
  destruct g as [|c g]; [easy|].
  apply not_elem_of_cons in Hs as [Hc Hs].
  apply andb_true_iff in Hn as [Hl Hn].
  unfold STARS at 1. cbn [app]. rewrite replace_bold_cons, match_bold_eq.
  rewrite !N.eqb_refl, Hl. cbn [andb].
  now rewrite close_bold_exact.
Qed.

Lemma replace_bold_length (s : jsstring) :
  (length s <= length (replace_bold s))%nat
  /\ (has_bold_span s = true -> (length s < length (replace_bold s))%nat).
Proof.
  apply (replace_bold_ind (fun s out =>
    (length s <= length out)%nat
    /\ (has_bold_span s = true -> (length s < length out)%nat))).
  - split; [reflexivity|discriminate].
  - intros c s' g r E [IH _].
    apply match_bold_split in E as (E & _ & _). rewrite E.
    assert (length STRONG_OPEN = 8%nat /\ length STRONG_CLOSE = 9%nat) as [E1 E2]
      by (split; reflexivity).
    unfold STARS. repeat (rewrite length_app || cbn [length app]).
    rewrite E1, E2. split; [lia|intros _; lia].
  - intros c s' E [IH1 IH2]. cbn [length has_bold_span]. rewrite E.
    split; [lia|]. intros H. specialize (IH2 H). lia.
Qed.

(** X23.  when the bold pass changes nothing.  The pass returns its input
    unchanged exactly when the input holds no bold span, that is, no pair of
    double asterisks around a non-empty text free of line terminators. *)
Theorem bold_pass_fixed_iff (s : jsstring) :
  replace_bold s = s <->
  ~ exists pre g post,
      s = pre ++ STARS ++ g ++ STARS ++ post
      /\ g <> [] /\ no_terminator g = true.
Proof.
  rewrite <- has_bold_span_spec. split.
  - intros E H. destruct (replace_bold_length s) as [_ Hl].
    specialize (Hl H). rewrite E in Hl. lia.
  - intros H. apply replace_bold_no_span. now destruct (has_bold_span s).
Qed.

(** *** The loop as a grouping of the lines *)

Lemma render_line_bullet (b : bool) (h l : jsstring) :
  is_bullet_line l = true ->
  render_line (RenderState b h) l =
  RenderState true ((if b then h else h ++ UL_OPEN) ++ list_item l).
Proof.
  intros H. unfold render_line. cbn [inList html]. unfold is_bullet_line in H.
  rewrite H. unfold list_item. now destruct b.
Qed.

Lemma render_line_plain (b : bool) (h l : jsstring) :
  is_bullet_line l = false ->
  render_line (RenderState b h) l =
  RenderState false ((if b then h ++ UL_CLOSE else h) ++ paragraph l).
Proof.
  intros H. unfold render_line. cbn [inList html]. unfold is_bullet_line in H.
  rewrite H, truthy_trim. unfold paragraph.
  destruct b, (is_blank l); cbn [negb]; now rewrite ?app_nil_r.
Qed.

Lemma open_tail_bullet (l : jsstring) (ls : list jsstring) :
  is_bullet_line l = true ->
  open_tail (blocks (l :: ls)) = list_item l ++ open_tail (blocks ls)
  /\ concat (map render_block (blocks (l :: ls)))
     = UL_OPEN ++ list_item l ++ open_tail (blocks ls).
Proof.
  intros H. cbn [blocks]. rewrite H.
  destruct (blocks ls) as [|[p|items] bs]; cbn [open_tail map concat render_block];
    rewrite <- ?app_assoc; cbn [app]; rewrite ?app_nil_r; auto.
Qed.

Lemma foldl_render_blocks (ls : list jsstring) :
  forall h,
    finish (foldl render_line (RenderState true h) ls) = h ++ open_tail (blocks ls)
    /\ finish (foldl render_line (RenderState false h) ls)
       = h ++ concat (map render_block (blocks ls)).
Proof.
  induction ls as [|l ls IH]; intros h.
  - cbn. now rewrite !app_nil_r.
  - cbn [foldl]. destruct (is_bullet_line l) eqn:B.
    + rewrite !render_line_bullet by easy.
      destruct (open_tail_bullet l ls B) as [-> ->].
      destruct (IH (h ++ list_item l)) as [-> _].
      destruct (IH ((h ++ UL_OPEN) ++ list_item l)) as [-> _].
      now rewrite <- !app_assoc.
    + rewrite !render_line_plain by easy. cbn [blocks]. rewrite B.
      cbn [open_tail map concat render_block].
      destruct (IH ((h ++ UL_CLOSE) ++ paragraph l)) as [_ ->].
      destruct (IH (h ++ paragraph l)) as [_ ->].
      now rewrite <- !app_assoc.
Qed.

(** X24.  the structure of the output.  The rendered text is the
    concatenation of the blocks of its lines, in order: every maximal run of
    bullet lines is one list, opened once and closed once, with one item per
    line; every other line is a paragraph of its own, empty when the line is
    blank. *)
Theorem markdownToHtml_blocks (t : jsstring) :
  markdownToHtml (Some t)
  = concat (map render_block (blocks (map replace_bold (split_lf t)))).
Proof.
  rewrite markdownToHtml_lines, render_lines_eq.
  now destruct (foldl_render_blocks (map replace_bold (split_lf t)) []) as [_ ->].
Qed.

End RendererExtras.

Section CookieFacts.

Local Open Scope N_scope.

Variable decodeURIComponent : jsstring -> option jsstring.

Lemma take_eqb_startsWith (s p : jsstring) :
  eqb (take (length p) s) p = startsWith s p.
Proof.
  revert s; induction p as [|a p IH]; intros s; [now destruct s|].
  destruct s as [|c s]; [reflexivity|]. cbn [length take eqb startsWith].
  now rewrite IH.
Qed.

Lemma scan_find (name : jsstring) (cookies : list jsstring) :
  Cookies.scan decodeURIComponent name cookies =
  match List.find (fun c => startsWith (trim c) (name ++ [EQUALS])) cookies with
  | Some c => Cookies.decoded decodeURIComponent (substring (length name + 1) (trim c))
  | None => Null
  end.
Proof.
  induction cookies as [|c cookies IH]; [reflexivity|]. cbn [Cookies.scan List.find].
  assert (eqb (take (length name + 1) (trim c)) (name ++ [EQUALS])
          = startsWith (trim c) (name ++ [EQUALS])) as ->.
  { rewrite <- take_eqb_startsWith, length_app. reflexivity. }
  destruct (startsWith (trim c) (name ++ [EQUALS])); [reflexivity|exact IH].
Qed.

(** Which cookie is read: the first piece of [document.cookie], split at
    semicolons and trimmed, that starts with the name followed by [=]. *)
Lemma getCookie_find (name cookie : jsstring) :
  Cookies.getCookie decodeURIComponent name cookie =
  match List.find (fun c => startsWith (trim c) (name ++ [EQUALS]))
                  (split_on SEMICOLON cookie) with
  | Some c => Cookies.decoded decodeURIComponent (substring (length name + 1) (trim c))
  | None => Null
  end.
Proof.
  unfold Cookies.getCookie. destruct cookie as [|c cookie].
  - cbn. now destruct name.
  - cbn [truthy eqb negb andb]. apply scan_find.
Qed.

Lemma split_on_nonempty (sep : char16) (s : jsstring) : split_on sep s <> [].
Proof.
  destruct s as [|c s]; cbn; [easy|].
  destruct (c =? sep); [easy|]. destruct (split_on sep s); easy.
Qed.

Lemma split_on_app (sep : char16) (a b : jsstring) :
  split_on sep (a ++ sep :: b) = split_on sep a ++ split_on sep b.
Proof.
  induction a as [|c a IH]; cbn; [now rewrite N.eqb_refl|].
  destruct (c =? sep); cbn; [now rewrite IH|].
  rewrite IH. destruct (split_on sep a) as [|l ls] eqn:E; [|reflexivity].
  exfalso; eapply split_on_nonempty; eauto.
Qed.

Lemma split_on_single (sep : char16) (s : jsstring) :
  forallb (fun c => negb (c =? sep)) s = true -> split_on sep s = [s].
Proof.
  induction s as [|c s IH]; cbn; [reflexivity|].
  intros [Hc Hs]%andb_true_iff. apply negb_true_iff in Hc. now rewrite Hc, IH.
Qed.

Lemma storable_entry (kv : jsstring * jsstring) :
  storable kv = true ->
  forallb (fun c => negb (c =? SEMICOLON)) (entry kv) = true
  /\ trim (entry kv) = entry kv
  /\ forallb (fun c => negb (c =? EQUALS)) kv.1 = true.
Proof.
  unfold storable. intros [[H1 H2]%andb_true_iff H3]%andb_true_iff.
  apply eqb_eq in H3. split; [|split; [exact H3|]].
  - unfold entry. rewrite !forallb_app.
    apply andb_true_iff; split; [|apply andb_true_iff; split; [reflexivity|exact H2]].
    apply forallb_forall. intros c Hc.
    rewrite forallb_forall in H1. specialize (H1 c Hc).
    now apply andb_true_iff in H1 as [-> _].
  - apply forallb_forall. intros c Hc.
    rewrite forallb_forall in H1. specialize (H1 c Hc).
    now apply andb_true_iff in H1 as [_ ->].
Qed.

(** The pieces of a cookie string: the entries, each but the first
    behind a space. *)
Lemma split_cookie_string (kv : jsstring * jsstring)
    (kvs : list (jsstring * jsstring)) :
  forallb storable (kv :: kvs) = true ->
  split_on SEMICOLON (cookie_string (kv :: kvs))
  = entry kv :: map (fun p => SPACE :: entry p) kvs.
Proof.
  revert kv; induction kvs as [|kv' kvs IH]; intros kv;
    cbn [forallb]; intros [Hkv H]%andb_true_iff.
  - cbn [cookie_string map]. apply split_on_single, storable_entry, Hkv.
  - change (cookie_string (kv :: kv' :: kvs))
      with (entry kv ++ SEMICOLON :: SPACE :: cookie_string (kv' :: kvs)).
    rewrite split_on_app, split_on_single by apply storable_entry, Hkv.
    cbn [app map]. f_equal.
    assert (split_on SEMICOLON (SPACE :: cookie_string (kv' :: kvs))
            = match split_on SEMICOLON (cookie_string (kv' :: kvs)) with
              | [] => [[SPACE]]
              | l :: ls => (SPACE :: l) :: ls
              end) as -> by reflexivity.
    now rewrite IH.
Qed.

Lemma entry_matches (name : jsstring) (kv : jsstring * jsstring) :
  forallb (fun c => negb (c =? EQUALS)) name = true ->
  forallb (fun c => negb (c =? EQUALS)) kv.1 = true ->
  startsWith (entry kv) (name ++ [EQUALS]) = eqb kv.1 name.
Proof.
  destruct kv as [k v]. unfold entry. cbn [fst snd]. revert k.
  induction name as [|a name IH]; intros k Hn Hk.
  - destruct k as [|c k]; [cbn; now destruct v|].
    cbn [forallb] in Hk. apply andb_true_iff in Hk as [Hc _].
    apply negb_true_iff in Hc. cbn [app startsWith eqb]. now rewrite Hc.
  - cbn [forallb] in Hn. apply andb_true_iff in Hn as [Ha Hn].
    apply negb_true_iff in Ha.
    destruct k as [|c k].
    + cbn [app startsWith eqb]. rewrite N.eqb_sym, Ha. reflexivity.
    + cbn [forallb] in Hk. apply andb_true_iff in Hk as [_ Hk].
      cbn [app startsWith eqb]. now rewrite IH.
Qed.

Lemma drop_entry (kv : jsstring * jsstring) :
  substring (length kv.1 + 1) (entry kv) = kv.2.
Proof.
  unfold substring, entry. rewrite app_assoc, drop_app_length'; [reflexivity|].
  rewrite length_app. reflexivity.
Qed.

Lemma trim_space_entry (kv : jsstring * jsstring) :
  trim (entry kv) = entry kv -> trim (SPACE :: entry kv) = entry kv.
Proof. intros H. unfold trim in *. cbn [trimStart]. exact H. Qed.

(** X25.  reading back a cookie.  For a cookie string made of storable
    name/value pairs joined by a semicolon and a space, and a name without
    [=], [getCookie] returns the decoded value of the first pair with that
    name, and [null] when no pair has it; a cookie whose name merely begins
    with the name asked for is not taken for it. *)
Theorem getCookie_reads_cookie_string (name : jsstring)
    (kvs : list (jsstring * jsstring)) :
  forallb storable kvs = true ->
  forallb (fun c => negb (c =? EQUALS)) name = true ->
  Cookies.getCookie decodeURIComponent name (cookie_string kvs) =
  match assoc name kvs with
  | Some v => Cookies.decoded decodeURIComponent v
  | None => Null
  end.
Proof.
  intros Hs Hn. rewrite getCookie_find.
  destruct kvs as [|kv kvs].
  { cbn. now destruct name. }
  rewrite split_cookie_string by exact Hs.
  assert (forall (pad : jsstring) kvs,
            (pad = [] \/ pad = [SPACE]) ->
            forallb storable kvs = true ->
            match List.find (fun c => startsWith (trim c) (name ++ [EQUALS]))
                            (map (fun p => pad ++ entry p) kvs) with
            | Some c => Cookies.decoded decodeURIComponent (substring (length name + 1) (trim c))
            | None => Null
            end
            = match assoc name kvs with
              | Some v => Cookies.decoded decodeURIComponent v
              | None => Null
              end) as Hfind.
  { intros pad l Hpad. induction l as [|p l IH]; [reflexivity|].
    cbn [forallb]. intros [Hp Hl]%andb_true_iff.
    destruct (storable_entry p Hp) as (_ & Ht & Hk).
    assert (trim (pad ++ entry p) = entry p) as Etrim
      by (destruct Hpad as [-> | ->]; [exact Ht|now apply trim_space_entry]).
    cbn [map List.find assoc]. rewrite Etrim, entry_matches by easy.
    destruct (eqb p.1 name) eqn:E; [|now apply IH].
    apply eqb_eq in E. rewrite <- E. cbn beta. now rewrite Etrim, drop_entry. }
  cbn [forallb] in Hs. apply andb_true_iff in Hs as [Hkv Hkvs].
  destruct (storable_entry kv Hkv) as (_ & Ht & Hk).
  cbn [List.find assoc]. rewrite Ht, entry_matches by easy.
  destruct (eqb kv.1 name) eqn:E.
  - apply eqb_eq in E. rewrite <- E. cbn beta. now rewrite Ht, drop_entry.
  - exact (Hfind [SPACE] kvs (or_intror eq_refl) Hkvs).
Qed.

End CookieFacts.

Section FurtherScenarios.

Existing Instance no_decoys.

Lemma popstate_reloads_without_push_witness :
  has_container home = true
  /\ exists s1 s2,
       Spa.step no_elements off_site (PopState (Some (lit "/pdf")) (lit "/")) home = Some s1
       /\ Spa.step no_elements off_site
            (FetchDone (issued home) (Responded 200 (Some (lit "<h1>PDF</h1>")))) s1
          = Some s2
       /\ history s2 = history home.
Proof.
  assert (has_container home = true) as H by (vm_compute; reflexivity).
  split; [exact H|].
  destruct (popstate_reloads_without_push no_elements off_site (Some (lit "/pdf")) (lit "/")
              (Responded 200 (Some (lit "<h1>PDF</h1>"))) (lit "<h1>PDF</h1>")
              home H eq_refl)
    as (s1 & s2 & E1 & _ & _ & E2 & _ & Hh & _).
  exists s1, s2. split; [exact E1|]. split; [exact E2|exact Hh].
Defined.

Lemma click_loads_and_pushes_witness :
  let e := Element true true (Some (lit "/corpus")) false [NavClick] in
  let e' := Element true true (Some (lit "https://otro.example/becas")) false
              [NavClick] in
  (outer home !! 0%nat = Some e
   /\ has_container home = true
   /\ off_site (lit "/corpus") = false
   /\ exists s1 s2,
        Spa.step no_elements off_site (Click false 0) home = Some s1
        /\ Spa.step no_elements off_site
             (FetchDone (issued home)
                (Responded 200 (Some (lit "<h1>Corpus</h1>")))) s1
           = Some s2
        /\ container s2 = Fragment (lit "<h1>Corpus</h1>")
        /\ history s2 = history home ++ [PushState (lit "/corpus")])
  /\ (outer abroad !! 1%nat = Some e'
      /\ has_container abroad = true
      /\ off_site (lit "https://otro.example/becas") = true
      /\ exists s1 s2,
           Spa.step no_elements off_site (Click false 1) abroad = Some s1
           /\ Spa.step no_elements off_site
                (FetchDone (issued abroad)
                   (Responded 200 (Some (lit "<h1>Becas</h1>")))) s1
              = Some s2
           /\ container s2 = ErrorPanel
           /\ history s2 = history abroad).
Proof.
  intros e e'. split.
  - assert (outer home !! 0%nat = Some e) as He by (vm_compute; reflexivity).
    assert (has_container home = true) as H by (vm_compute; reflexivity).
    assert (lit "/corpus" <> []) as Hne by (vm_compute; discriminate).
    assert (off_site (lit "/corpus") = false) as Hp by (vm_compute; reflexivity).
    split; [exact He|]. split; [exact H|]. split; [exact Hp|].
    destruct (click_loads_and_pushes no_elements off_site false 0 e
                (lit "/corpus") (Responded 200 (Some (lit "<h1>Corpus</h1>")))
                (lit "<h1>Corpus</h1>") home He eq_refl eq_refl Hne H eq_refl)
      as (s1 & s2 & E1 & _ & E2 & Hcase).
    rewrite Hp in Hcase. destruct Hcase as (Hc & Hh & _).
    exists s1, s2. split; [exact E1|]. split; [exact E2|].
    split; [exact Hc|exact Hh].
  - assert (outer abroad !! 1%nat = Some e') as He by (vm_compute; reflexivity).
    assert (has_container abroad = true) as H by (vm_compute; reflexivity).
    assert (lit "https://otro.example/becas" <> []) as Hne
      by (vm_compute; discriminate).
    assert (off_site (lit "https://otro.example/becas") = true) as Hp
      by (vm_compute; reflexivity).
    split; [exact He|]. split; [exact H|]. split; [exact Hp|].
    destruct (click_loads_and_pushes no_elements off_site false 1 e'
                (lit "https://otro.example/becas")
                (Responded 200 (Some (lit "<h1>Becas</h1>")))
                (lit "<h1>Becas</h1>") abroad He eq_refl eq_refl Hne H eq_refl)
      as (s1 & s2 & E1 & _ & E2 & Hcase).
    rewrite Hp in Hcase. destruct Hcase as (Hc & Hh & _).
    exists s1, s2. split; [exact E1|]. split; [exact E2|].
    split; [exact Hc|exact Hh].
Defined.

Lemma click_without_href_witness :
  let e := Element true true None false [NavClick] in
  outer bare !! 0%nat = Some e
  /\ Spa.step no_elements off_site (Click false 0) bare = Some bare.
Proof.
  intros e.
  assert (outer bare !! 0%nat = Some e) as He by (vm_compute; reflexivity).
  split; [exact He|].
  exact (click_without_href no_elements off_site false 0 e bare He (or_introl eq_refl)).
Defined.

Lemma without_container_nothing_loads_witness :
  has_container headless = false
  /\ Spa.run no_elements off_site attempts headless = Some after_attempts
  /\ in_flight after_attempts = ∅
  /\ history after_attempts = history headless.
Proof.
  assert (has_container headless = false) as H by (vm_compute; reflexivity).
  assert (in_flight headless = ∅) as Hf by (vm_compute; reflexivity).
  assert (Spa.run no_elements off_site attempts headless = Some after_attempts) as Hrun
    by (vm_compute; reflexivity).
  split; [exact H|]. split; [exact Hrun|].
  destruct (without_container_nothing_loads no_elements off_site attempts headless
              after_attempts H Hf Hrun) as (Hi & _ & Hh & _).
  split; [exact Hi|exact Hh].
Defined.

Lemma loads_never_collide_witness :
  Spa.run one_link off_site swap_trace
    (domContentLoaded one_link (lit "/")
       (served one_link true (lit "<h1>Inicio</h1>") [link_to "/corpus"]))
  = Some after_swap
  /\ numbered after_swap.
Proof.
  assert (Spa.run one_link off_site swap_trace
            (domContentLoaded one_link (lit "/")
               (served one_link true (lit "<h1>Inicio</h1>") [link_to "/corpus"]))
          = Some after_swap) as Hrun by (vm_compute; reflexivity).
  split; [exact Hrun|].
  exact (proj1 (loads_never_collide one_link off_site true (lit "<h1>Inicio</h1>")
                  [link_to "/corpus"] (lit "/") swap_trace after_swap Hrun)).
Defined.

Lemma loads_are_accounted_witness :
  Spa.run one_link off_site swap_trace
    (domContentLoaded one_link (lit "/")
       (served one_link true (lit "<h1>Inicio</h1>") [link_to "/corpus"]))
  = Some after_swap
  /\ history after_swap
     = ReplaceState (lit "/") :: map PushState (pushed after_swap)
  /\ resizes after_swap = length (navigated after_swap).
Proof.
  assert (Spa.run one_link off_site swap_trace
            (domContentLoaded one_link (lit "/")
               (served one_link true (lit "<h1>Inicio</h1>") [link_to "/corpus"]))
          = Some after_swap) as Hrun by (vm_compute; reflexivity).
  split; [exact Hrun|].
  destruct (loads_are_accounted one_link off_site true (lit "<h1>Inicio</h1>")
              [link_to "/corpus"] (lit "/") swap_trace after_swap Hrun)
    as (Hh & _ & Hr).
  split; [exact Hh|exact Hr].
Defined.

Lemma domContentLoaded_first_load_witness :
  has_container empty_shell = true
  /\ is_blank (innerHTML (container empty_shell)) = true
  /\ container (domContentLoaded no_elements (lit "/") empty_shell) = Loading
  /\ history (domContentLoaded no_elements (lit "/") empty_shell)
     = history empty_shell ++ [ReplaceState (lit "/")].
Proof.
  assert (has_container empty_shell = true) as H by (vm_compute; reflexivity).
  assert (is_blank (innerHTML (container empty_shell)) = true) as Hb
    by (vm_compute; reflexivity).
  split; [exact H|]. split; [exact Hb|].
  destruct (proj1 (domContentLoaded_first_load no_elements off_site (lit "/") empty_shell H) Hb)
    as (Hc & _ & Hh & _).
  split; [exact Hc|exact Hh].
Defined.

Lemma blank_message_is_not_sent_witness :
  is_blank (input_value (page_load true [] (lit "  "))) = true
  /\ Chatbot.step CLOCK (Keypress ENTER) (page_load true [] (lit "  "))
     = Some (page_load true [] (lit "  ")).
Proof.
  assert (is_blank (input_value (page_load true [] (lit "  "))) = true) as H
    by (vm_compute; reflexivity).
  split; [exact H|].
  exact (proj1 (blank_message_is_not_sent CLOCK (page_load true [] (lit "  ")) H)).
Defined.

Lemma sendMessage_effect_witness :
  (is_blank (input_value typed) = false
   /\ isWellFormed (trim (input_value typed)) = true
   /\ requests (sendMessage CLOCK typed) = [PostSendMessage (lit "hola")]
   /\ input_value (sendMessage CLOCK typed) = []
   /\ sends_in_flight (sendMessage CLOCK typed) = 1%nat)
  /\ (let s := page_load true [] lone in
      is_blank (input_value s) = false
      /\ isWellFormed (trim (input_value s)) = false
      /\ requests (sendMessage CLOCK s) = []
      /\ sends_in_flight (sendMessage CLOCK s) = 0%nat
      /\ exists m err,
           messages (sendMessage CLOCK s) = [MessageNode m; MessageNode err]
           /\ content m = InnerHTML lone
           /\ content err = InnerHTML (markdownToHtml (Some CONNECTION_ERROR))).
Proof.
  split.
  - assert (is_blank (input_value typed) = false) as H by (vm_compute; reflexivity).
    assert (isWellFormed (trim (input_value typed)) = true) as W
      by (vm_compute; reflexivity).
    split; [exact H|]. split; [exact W|].
    destruct (sendMessage_effect CLOCK typed H) as (m & _ & _ & Hi & Hcase).
    cbv zeta in Hcase. rewrite W in Hcase. destruct Hcase as (_ & Hr & Hs).
    split; [exact (eq_trans Hr eq_refl)|]. split; [exact Hi|].
    exact (eq_trans Hs eq_refl).
  - intros s.
    assert (is_blank (input_value s) = false) as H by (vm_compute; reflexivity).
    assert (isWellFormed (trim (input_value s)) = false) as W
      by (vm_compute; reflexivity).
    split; [exact H|]. split; [exact W|].
    destruct (sendMessage_effect CLOCK s H) as (m & _ & Hc & _ & Hcase).
    cbv zeta in Hcase. rewrite W in Hcase.
    destruct Hcase as (Hr & Hs & err & Hm & _ & Hce).
    split; [exact Hr|]. split; [exact Hs|].
    exists m, err. split; [|split; [exact (eq_trans Hc eq_refl)|exact Hce]].
    rewrite Hm. unfold s, page_load. cbn [messages app removeTypingIndicator].
    rewrite Hc. reflexivity.
Defined.

Lemma posted_texts_are_trimmed_witness :
  reachable asked
  /\ lit "hola" ∈ sent asked
  /\ lit "hola" <> [] /\ trim (lit "hola") = lit "hola".
Proof.
  assert (reachable asked) as R
    by (exists true, [], [], asking; vm_compute; reflexivity).
  assert (lit "hola" ∈ sent asked) as Hin
    by (vm_compute; apply list_elem_of_here).
  split; [exact R|]. split; [exact Hin|].
  exact (posted_texts_are_trimmed asked R (lit "hola") Hin).
Defined.

Lemma typing_indicator_round_trip_witness :
  exists m,
    addMessage CLOCK (Some DECOY) USER [] = Some [MessageNode m]
    /\ content m = InnerHTML DECOY
    /\ @removeTypingIndicator finds_decoy (showTypingIndicator [MessageNode m])
       = [MessageNode (set_content (Detached (InnerHTML DECOY)) m);
          TypingIndicator]
    /\ @removeTypingIndicator no_decoys (showTypingIndicator [MessageNode m])
       = [MessageNode m].
Proof.
  destruct (addMessage_user CLOCK DECOY []) as (m & Hm & _ & Hc).
  exists m. split; [exact Hm|]. split; [exact Hc|]. split.
  - assert (@indicators finds_decoy (content m) <> O) as Hd
      by (rewrite Hc; vm_compute; discriminate).
    pose proof (proj2 (proj2 (@typing_indicator_round_trip finds_decoy []))
                  [] m [TypingIndicator]) as H.
    rewrite Hc in H at 2. apply H; [intros m' Hm'; inversion Hm'| |exact Hd].
    intros Hin. inversion Hin.
  - apply (proj1 (@typing_indicator_round_trip no_decoys [MessageNode m])).
    + intros m' Hm'. apply list_elem_of_singleton in Hm'. injection Hm' as ->.
      rewrite Hc. reflexivity.
    + intros Hin. apply list_elem_of_singleton in Hin. discriminate.
Defined.

Lemma timeout_sequence_completes_witness :
  reachable timed_out
  /\ sessionActive timed_out = false
  /\ exists tr s',
       (length tr <= 3)%nat
       /\ Chatbot.run tr timed_out = Some s'
       /\ sessionActive s' = true /\ greeted s' = false.
Proof.
  assert (reachable timed_out) as R
    by (exists true, [], [], timing_out; vm_compute; reflexivity).
  split; [exact R|]. split; [reflexivity|].
  exact (timeout_sequence_completes CLOCK timed_out R eq_refl).
Defined.

Lemma pending_timers_keep_their_handles_witness :
  reachable typed
  /\ timers typed !! 1%nat = Some (Timer InactivityTimer INACTIVITY_TIMEOUT)
  /\ (1 <= 1 < next_timer typed)%nat.
Proof.
  assert (reachable typed) as R
    by (exists true, [], [], typing; vm_compute; reflexivity).
  assert (timers typed !! 1%nat = Some (Timer InactivityTimer INACTIVITY_TIMEOUT))
    as H by (vm_compute; reflexivity).
  split; [exact R|]. split; [exact H|].
  exact (proj1 (pending_timers_keep_their_handles typed R) 1%nat _ H).
Defined.

Lemma one_inactivity_timer_witness :
  reachable typed
  /\ timers typed !! 1%nat = Some (Timer InactivityTimer INACTIVITY_TIMEOUT)
  /\ sessionTimeout typed = Some 1%nat /\ sessionActive typed = true.
Proof.
  assert (reachable typed) as R
    by (exists true, [], [], typing; vm_compute; reflexivity).
  assert (timers typed !! 1%nat = Some (Timer InactivityTimer INACTIVITY_TIMEOUT))
    as H by (vm_compute; reflexivity).
  split; [exact R|]. split; [exact H|].
  destruct (one_inactivity_timer typed R 1%nat _ H) as (Ht & Ha & _).
  split; [exact Ht|exact Ha].
Defined.

Lemma toggle_timer_is_inverted_witness :
  reachable typed
  /\ display_flex typed = true /\ sessionActive typed = true
  /\ display_flex (chatBtn_click typed) = false
  /\ timers (chatBtn_click typed) !! next_timer typed
     = Some (Timer InactivityTimer INACTIVITY_TIMEOUT).
Proof.
  assert (reachable typed) as R
    by (exists true, [], [], typing; vm_compute; reflexivity).
  split; [exact R|]. split; [reflexivity|]. split; [reflexivity|].
  destruct (proj2 (toggle_timer_is_inverted typed R) eq_refl eq_refl)
    as (Hd & _ & Ht).
  split; [exact Hd|exact Ht].
Defined.

Lemma clear_keeps_only_farewell_witness :
  timers typed !! 1%nat = Some (Timer InactivityTimer INACTIVITY_TIMEOUT)
  /\ exists s4 farewell,
       Chatbot.run whole_timeout typed = Some s4
       /\ content farewell = InnerHTML (markdownToHtml (Some FAREWELL))
       /\ messages s4 = [MessageNode farewell].
Proof.
  assert (timers typed !! 1%nat = Some (Timer InactivityTimer INACTIVITY_TIMEOUT))
    as H by (vm_compute; reflexivity).
  split; [exact H|].
  exact (clear_keeps_only_farewell CLOCK typed 1 _ ClearOk H).
Defined.

Lemma greeting_only_once_witness :
  let s' := resetInactivityTimer (set_input_value (lit "hola") opened) in
  Chatbot.step CLOCK (InputEdit (lit "hola")) opened = Some s'
  /\ greeted opened = true
  /\ greeted s' = true.
Proof.
  intros s'.
  assert (Chatbot.step CLOCK (InputEdit (lit "hola")) opened = Some s') as E
    by (vm_compute; reflexivity).
  assert (InputEdit (lit "hola") <> ClearSettled) as Hne by discriminate.
  split; [exact E|]. split; [reflexivity|].
  exact (proj1 (greeting_only_once CLOCK (InputEdit (lit "hola")) opened s'
                  E Hne eq_refl)).
Defined.

Lemma simple_span_becomes_strong_witness :
  replace_bold (lit "a " ++ STARS ++ lit "b" ++ STARS ++ lit " c")
  = lit "a " ++ STRONG_OPEN ++ lit "b" ++ STRONG_CLOSE ++ replace_bold (lit " c").
Proof.
  assert (STAR ∉ lit "a ") as H1
    by (intros H%list_elem_of_In; vm_compute in H; intuition discriminate).
  assert (lit "b" <> []) as H2 by (vm_compute; discriminate).
  assert (STAR ∉ lit "b") as H3
    by (intros H%list_elem_of_In; vm_compute in H; intuition discriminate).
  exact (simple_span_becomes_strong (lit "a ") (lit "b") (lit " c") H1 H2 H3 eq_refl).
Defined.

Lemma getCookie_reads_cookie_string_witness :
  forallb storable jar = true
  /\ Cookies.getCookie plain_decode (lit "csrftoken") (cookie_string jar)
     = Value (lit "tok").
Proof.
  assert (forallb storable jar = true) as H by (vm_compute; reflexivity).
  split; [exact H|].
  exact (eq_trans (getCookie_reads_cookie_string plain_decode (lit "csrftoken")
                     jar H eq_refl) eq_refl).
Defined.

End FurtherScenarios.
